(** * A shallow embedding of the KingHarvester crawler (advanced_email_v3.py)

    The development follows the Python source function by function.

    - Python [str] values are [string]s over 8-bit characters; case mapping
      and the character classes of [re] are those of the ASCII range, which
      is the alphabet of every e-mail address the extraction pattern accepts.
    - Python floats are IEEE binary64 values ([PrimFloat.float]).
    - A Python exception is the result [None] of a function returning
      [option].  Printing and writing a dossier file are taken to succeed.
    - [asyncio] is cooperative: a coroutine runs without interruption from
      one [await] that really suspends to the next one.  The crawler is
      therefore a labelled transition function [exec] whose steps are
      exactly those uninterrupted segments; the label says which coroutine
      resumes and what the outside world (browser, network, text-extraction
      tool) handed back to it.  Any order of the steps is allowed, which
      covers every schedule of the event loop; workers may also go on after
      [crawl] has returned, as they do while the caller closes the session.
    - [urllib.parse] is a parameter ([UrlLib]); the module constants
      [MAX_PAGES] and [CONCURRENT] are a parameter too ([Config]). *)

From Stdlib Require Import String Ascii List Bool Arith ZArith Lia Floats.
From stdpp Require Import gmap strings.

Set Warnings "-inexact-float".

(** ** Python string primitives *)

Module PyStr.

Definition code (c : ascii) : nat := nat_of_ascii c.

Definition in_range (lo hi : nat) (c : ascii) : bool :=
  (lo <=? code c) && (code c <=? hi).

Definition is_upper (c : ascii) : bool := in_range 65 90 c.
Definition is_lower (c : ascii) : bool := in_range 97 122 c.
Definition is_alpha (c : ascii) : bool := is_upper c || is_lower c.
Definition is_digit (c : ascii) : bool := in_range 48 57 c.
Definition is_alnum (c : ascii) : bool := is_alpha c || is_digit c.

(** [str.isspace] and the class [\s] of [re] on the ASCII range. *)
Definition is_space (c : ascii) : bool :=
  in_range 9 13 c || in_range 28 32 c.

Definition lower_char (c : ascii) : ascii :=
  if is_upper c then ascii_of_nat (code c + 32) else c.

Definition upper_char (c : ascii) : ascii :=
  if is_lower c then ascii_of_nat (code c - 32) else c.

(** [s.lower()] *)
Fixpoint lower (s : string) : string :=
  match s with
  | EmptyString => EmptyString
  | String c s' => String (lower_char c) (lower s')
  end.

(** [s.capitalize()] *)
Definition capitalize (s : string) : string :=
  match s with
  | EmptyString => EmptyString
  | String c s' => String (upper_char c) (lower s')
  end.

(** [c in s] for a one-character [c] *)
Fixpoint contains_char (c : ascii) (s : string) : bool :=
  match s with
  | EmptyString => false
  | String d s' => Ascii.eqb d c || contains_char c s'
  end.

(** [s.startswith(p)] *)
Fixpoint startswith (p s : string) : bool :=
  match p, s with
  | EmptyString, _ => true
  | String a p', String b s' => Ascii.eqb a b && startswith p' s'
  | String _ _, EmptyString => false
  end.

(** [s.endswith(suffix)] *)
Fixpoint endswith (suffix s : string) : bool :=
  String.eqb s suffix ||
  match s with
  | EmptyString => false
  | String _ s' => endswith suffix s'
  end.

(** [sub in s] *)
Fixpoint contains (sub s : string) : bool :=
  startswith sub s ||
  match s with
  | EmptyString => false
  | String _ s' => contains sub s'
  end.

(** [s.index(sub)]; [None] is the [ValueError] of a missing substring. *)
Fixpoint index (sub s : string) : option nat :=
  if startswith sub s then Some 0
  else match s with
       | EmptyString => None
       | String _ s' => S <$> index sub s'
       end.

(** [s.rsplit(sep, 1)] for a one-character separator: at most one split,
    at the last separator. *)
Fixpoint rsplit1 (sep : ascii) (s : string) : list string :=
  match s with
  | EmptyString => [EmptyString]
  | String c s' =>
      match rsplit1 sep s' with
      | [a; b] => [String c a; b]
      | _ => if Ascii.eqb c sep then [EmptyString; s'] else [String c s']
      end
  end.

(** [s.split(sep)] and [re.split] on a one-character class: split at every
    character satisfying [is_sep]; the result is never empty. *)
Fixpoint split_on (is_sep : ascii -> bool) (s : string) : list string :=
  match s with
  | EmptyString => [EmptyString]
  | String c s' =>
      if is_sep c then EmptyString :: split_on is_sep s'
      else match split_on is_sep s' with
           | t :: ts => String c t :: ts
           | [] => [String c EmptyString]
           end
  end.

(** [sep.join(l)] *)
Fixpoint join (sep : string) (l : list string) : string :=
  match l with
  | [] => EmptyString
  | [x] => x
  | x :: l' => x +:+ sep +:+ join sep l'
  end.

(** [re.sub(r'\s+', ' ', s)]: every maximal run of white space becomes one
    blank; [in_ws] says that the previous character was white space. *)
Fixpoint collapse_ws (in_ws : bool) (s : string) : string :=
  match s with
  | EmptyString => EmptyString
  | String c s' =>
      if is_space c
      then (if in_ws then collapse_ws true s'
            else String " "%char (collapse_ws true s'))
      else String c (collapse_ws false s')
  end.

Fixpoint lstrip (s : string) : string :=
  match s with
  | EmptyString => EmptyString
  | String c s' => if is_space c then lstrip s' else s
  end.

Fixpoint rstrip (s : string) : string :=
  match s with
  | EmptyString => EmptyString
  | String c s' =>
      match rstrip s' with
      | EmptyString => if is_space c then EmptyString else String c EmptyString
      | r => String c r
      end
  end.

(** [s.strip()] *)
Definition strip (s : string) : string := rstrip (lstrip s).

(** The slice [s[start:start+len]]. *)
Definition slice (start len : nat) (s : string) : string :=
  String.substring start len s.

(** Longest prefix of [s] whose characters satisfy [p], and the rest. *)
Fixpoint span (p : ascii -> bool) (s : string) : string * string :=
  match s with
  | EmptyString => (EmptyString, EmptyString)
  | String c s' =>
      if p c then let '(a, b) := span p s' in (String c a, b)
      else (EmptyString, s)
  end.

(** [s.rstrip(c)] for a one-character [c]. *)
Fixpoint rstrip_char (c : ascii) (s : string) : string :=
  match s with
  | EmptyString => EmptyString
  | String d s' =>
      match rstrip_char c s' with
      | EmptyString => if Ascii.eqb d c then EmptyString else String d EmptyString
      | r => String d r
      end
  end.

(** The slice [s[n:]]. *)
Fixpoint drop (n : nat) (s : string) : string :=
  match n, s with
  | S n', String _ s' => drop n' s'
  | _, _ => s
  end.

(** [c in set] for a character class given by its members. *)
Definition one_of (set : string) (c : ascii) : bool := contains_char c set.

End PyStr.

Import PyStr.

(** ** The domain scope filter *)

(** [KingHarvester.is_target_domain]: [base_domain] is [self.base_domain].
    The tuple assignment [_, domain = ...] raises [ValueError] unless the
    list has exactly two elements. *)
Definition is_target_domain (base_domain email : string) : option bool :=
  if negb (contains_char "@"%char email) then Some false
  else match rsplit1 "@"%char (lower email) with
       | [_; domain] =>
           Some (String.eqb domain base_domain
                 || endswith ("." +:+ base_domain) domain)
       | _ => None
       end.

Module AppV01.

(** [is_target_domain] of appv0.1.py, which takes the base domain as an
    argument and lowercases it itself. *)
Definition is_target_domain (email base_domain : string) : option bool :=
  if negb (contains_char "@"%char email) then Some false
  else match rsplit1 "@"%char (lower email) with
       | [_; domain] =>
           let base_domain := lower base_domain in
           Some (String.eqb domain base_domain
                 || endswith ("." +:+ base_domain) domain)
       | _ => None
       end.

End AppV01.

(** ** The regular expressions of the source

    [re.findall] scans the text from left to right, tries the pattern at
    each position, and after a match resumes at the end of the match.  Each
    pattern is a function that tries one position and returns the captured
    group and the length of the whole match; greedy repetition with
    backtracking is written out as "the longest that lets the rest
    match". *)

Module Patterns.

(** [\w] *)
Definition is_word (c : ascii) : bool := is_alnum c || Ascii.eqb c "_"%char.

Definition head_is_word (s : string) : bool :=
  match s with
  | String c _ => is_word c
  | EmptyString => false
  end.

(** [\b] between the previous character and the text that follows. *)
Definition word_boundary (prev_word : bool) (s : string) : bool :=
  xorb prev_word (head_is_word s).

Definition matcher : Type := bool -> string -> option (string * nat).

(** [skip] characters of an earlier match are still to be passed over. *)
Fixpoint scan (m : matcher) (skip : nat) (prev_word : bool) (s : string)
  : list string :=
  match s with
  | EmptyString => []
  | String c s' =>
      match skip with
      | S k => scan m k (is_word c) s'
      | 0 =>
          match m prev_word s with
          | Some (g, len) => g :: scan m (len - 1) (is_word c) s'
          | None => scan m 0 (is_word c) s'
          end
      end
  end.

Definition findall (m : matcher) (s : string) : list string :=
  scan m 0 false s.

(** *** [\b[A-Za-z0-9._%+-]+@[A-Za-z0-9.-]+\.[A-Z|a-z]{2,}\b] *)

Definition class_local (c : ascii) : bool := is_alnum c || one_of "._%+-" c.
Definition class_domain (c : ascii) : bool := is_alnum c || one_of ".-" c.
Definition class_tld (c : ascii) : bool := is_alpha c || Ascii.eqb c "|"%char.

(** [[A-Z|a-z]{2,}\b] after [n] characters of the class, the last of which
    is [prev]: the number of class characters of the longest match. *)
Fixpoint tld_len (n : nat) (prev : ascii) (s : string) : option nat :=
  let here :=
    if (2 <=? n) && word_boundary (is_word prev) s then Some n else None in
  match s with
  | String c s' =>
      if class_tld c
      then match tld_len (S n) c s' with
           | Some r => Some r
           | None => here
           end
      else here
  | EmptyString => here
  end.

Definition tld_at (s : string) : option nat :=
  match s with
  | String c s' => if class_tld c then tld_len 1 c s' else None
  | EmptyString => None
  end.

(** [[A-Za-z0-9.-]+\.[A-Z|a-z]{2,}\b] inside a run of domain characters of
    which [m] are left: the domain part gives back characters until a dot
    followed by an acceptable top-level part is found. *)
Fixpoint domain_len (m : nat) (s : string) : option nat :=
  match m, s with
  | S m', String c s' =>
      match domain_len m' s' with
      | Some e => Some (S e)
      | None => if Ascii.eqb c "."%char then S <$> tld_at s' else None
      end
  | _, _ => None
  end.

Definition email_pattern : matcher := fun prev_word s =>
  if word_boundary prev_word s then
    let '(loc, r1) := span class_local s in
    match loc, r1 with
    | String _ _, String c r2 =>
        if Ascii.eqb c "@"%char then
          match fst (span class_domain r2), r2 with
          | String _ dom', String _ r2' =>
              match domain_len (String.length dom') r2' with
              | Some e =>
                  let len := String.length loc + 2 + e in
                  Some (String.substring 0 len s, len)
              | None => None
              end
          | _, _ => None
          end
        else None
    | _, _ => None
    end
  else None.

(** *** The link pattern: [href=], an optional single or double quote, then
    one or more characters other than the two quotes, blank and [>]; the
    group is that run of characters. *)

Definition dquote : ascii := "034"%char.
Definition squote : ascii := "039"%char.

Definition is_quote (c : ascii) : bool :=
  Ascii.eqb c squote || Ascii.eqb c dquote.

(** A character other than the two quotes, blank and [>]. *)
Definition href_char (c : ascii) : bool :=
  negb (is_quote c || Ascii.eqb c " "%char || Ascii.eqb c ">"%char).

(** The optional quote after [href=]: its length and the text after it. *)
Definition skip_quote (r : string) : nat * string :=
  match r with
  | String c t => if is_quote c then (1, t) else (0, r)
  | EmptyString => (0, r)
  end.

Definition href_pattern : matcher := fun _ s =>
  if startswith "href=" s then
    let '(q, r) := skip_quote (drop 5 s) in
    match fst (span href_char r) with
    | EmptyString => None
    | g => Some (g, 5 + q + String.length g)
    end
  else None.

(** *** The document pattern, compiled with [re.IGNORECASE]: the link
    pattern whose run must end, inside the group, with
    [\.(pdf|docx?|pptx?)]. *)

(** [\.(pdf|docx?|pptx?)] at the head of [s]: the length matched. *)
Definition ext_at (s : string) : option nat :=
  match s with
  | String c t =>
      if Ascii.eqb c "."%char then
        let l := lower t in
        if startswith "pdf" l then Some 4
        else if startswith "doc" l then
               Some (if startswith "docx" l then 5 else 4)
        else if startswith "ppt" l then
               Some (if startswith "pptx" l then 5 else 4)
        else None
      else None
  | EmptyString => None
  end.

(** The end of the last extension in a run: the greedy repetition first
    takes the whole run and gives characters back one at a time. *)
Fixpoint last_ext (s : string) : option nat :=
  match s with
  | EmptyString => None
  | String _ s' =>
      match last_ext s' with
      | Some e => Some (S e)
      | None => ext_at s
      end
  end.

(** The match yields the pair (link, extension); the source keeps the link
    only ([for link, _ in doc_links]). *)
Definition doc_pattern : matcher := fun _ s =>
  if startswith "href=" (lower s) then
    let '(q, r) := skip_quote (drop 5 s) in
    match fst (span href_char r) with
    | String c g' =>
        match last_ext g' with
        | Some e => Some (String c (String.substring 0 e g'), 5 + q + 1 + e)
        | None => None
        end
    | EmptyString => None
    end
  else None.

End Patterns.

Import Patterns.

(** ** The classifier *)

(** Python dictionaries iterate in insertion order, so the keyword tables
    are association lists in the order of the source. *)
Definition SENIORITY_KEYWORDS : list (string * list string) :=
  [ ("executive", ["director"; "head"; "dean"; "chair"; "provost"; "vp";
                   "vice president"]);
    ("senior", ["professor"; "principal"; "lead"; "chief"; "manager";
                "coordinator"]);
    ("mid", ["lecturer"; "engineer"; "specialist"; "officer"; "analyst"]);
    ("junior", ["assistant"; "trainee"; "intern"; "student"; "researcher"]) ].

Definition DEPT_KEYWORDS : list (string * list string) :=
  [ ("Computer Science", ["cs"; "computer"; "software"; "ai"; "data"; "it"]);
    ("Electrical Engineering", ["eee"; "electrical"; "electronics"; "power";
                                "telecom"]);
    ("Mechanical", ["me"; "mechanical"; "thermal"; "automotive"; "robotics"]);
    ("Civil", ["ce"; "civil"; "construction"; "structural"; "environmental"]);
    ("Admin", ["admission"; "registrar"; "finance"; "hr"; "library";
               "accounts"]) ].

(** The dictionary returned by [classify_profile]. *)
Record AiData : Type := {
  ai_name : string;
  ai_seniority : string;
  ai_department : string;
  ai_confidence : float;
  ai_raw_snippet : string
}.

(** [sum(1 for kw in keywords if kw in clean_text)] *)
Definition keyword_score (keywords : list string) (clean_text : string) : nat :=
  length (List.filter (fun kw => contains kw clean_text) keywords).

(** One pass of the scoring loop
    [for level, keywords in TABLE.items(): ... if score > max_score: ...]. *)
Definition score_step (clean_text : string) (best : string * nat)
    (entry : string * list string) : string * nat :=
  let score := keyword_score (snd entry) clean_text in
  if snd best <? score then (fst entry, score) else best.

Definition score_table (table : list (string * list string))
    (default : string) (clean_text : string) : string * nat :=
  fold_left (score_step clean_text) table (default, 0).

(** The name heuristic of [classify_profile]. *)
Definition infer_name (email : string) : string :=
  let email_local :=
    hd EmptyString (split_on (fun c => Ascii.eqb c "@"%char) email) in
  let name_parts := split_on (one_of "._-") email_local in
  if (2 <=? length name_parts)
     && forallb (fun p => 1 <? String.length p) (firstn 2 name_parts)
  then join " " (map capitalize (firstn 2 name_parts))
  else EmptyString.

Definition newline : ascii := "010"%char.

(** The loop of [_get_snippet] over the lines of the text. *)
Fixpoint snippet_of_lines (lines : list string) (email : string)
  : option string :=
  match lines with
  | [] => Some "Context not found"
  | line :: rest =>
      if contains email (lower line)
      then i ← index email (lower line);
           let start := Nat.max 0 (i - 100) in
           Some (strip (slice start 200 line))
      else snippet_of_lines rest email
  end.

Definition _get_snippet (text email : string) : option string :=
  snippet_of_lines (split_on (fun c => Ascii.eqb c newline) text) email.

(** [min(a, b)] of Python on floats: [b] only when [b < a]. *)
Definition py_min (a b : float) : float := if PrimFloat.ltb b a then b else a.

Definition confidence_score (name seniority department : string)
    (max_score dept_score : nat) : float :=
  let confidence := 0.3%float in
  let confidence :=
    if negb (String.eqb name EmptyString) then (confidence + 0.2)%float
    else confidence in
  let confidence :=
    if negb (String.eqb seniority "unknown") then (confidence + 0.15)%float
    else confidence in
  let confidence :=
    if negb (String.eqb department "General") then (confidence + 0.15)%float
    else confidence in
  let confidence :=
    if 2 <? max_score + dept_score then (confidence + 0.2)%float
    else confidence in
  confidence.

Definition classify_profile (text email : string) : option AiData :=
  let clean_text := collapse_ws false (lower text) in
  let name := infer_name email in
  let '(seniority, max_score) :=
    score_table SENIORITY_KEYWORDS "unknown" clean_text in
  let '(department, dept_score) :=
    score_table DEPT_KEYWORDS "General" clean_text in
  let confidence :=
    confidence_score name seniority department max_score dept_score in
  raw_snippet ← _get_snippet text email;
  Some {| ai_name := name;
          ai_seniority := seniority;
          ai_department := department;
          ai_confidence := py_min confidence 0.95;
          ai_raw_snippet := raw_snippet |}.

(** [round(x, 2)] on a float: the exact binary value of [x] is rounded to
    two decimals, ties to even, and the decimal result is converted back
    to the nearest float. *)
Definition round_half_even (a b : Z) : Z :=
  let q := (a / b)%Z in
  let r := (a mod b)%Z in
  if (2 * r <? b)%Z then q
  else if (b <? 2 * r)%Z then (q + 1)%Z
  else if Z.even q then q else (q + 1)%Z.

Definition round2 (x : float) : float :=
  match Prim2SF x with
  | S754_finite s m e =>
      let num := (Z.pos m * 100)%Z in
      let n := if (0 <=? e)%Z then (num * 2 ^ e)%Z
               else round_half_even num (2 ^ (- e)) in
      let r := (PrimFloat.of_uint63 (Uint63.of_Z n) / 100)%float in
      if s then (- r)%float else r
  | _ => x
  end.

(** ** The crawler state *)

(** [urllib.parse]: [urljoin(base, ref)] and [urlparse(url).netloc].  Both
    raise [ValueError] on some malformed inputs. *)
Class UrlLib : Type := {
  urljoin : string -> string -> option string;
  netloc : string -> option string
}.

(** The configuration constants of the module. *)
Record Config : Type := {
  MAX_PAGES : nat;
  CONCURRENT : nat
}.

Definition source_config : Config := {| MAX_PAGES := 1000; CONCURRENT := 25 |}.

(** A value of [self.profiles]. *)
Record Profile : Type := {
  p_email : string;
  p_name : string;
  p_seniority : string;
  p_department : string;
  p_confidence : float;
  p_source_url : string;
  p_context_snippet : string
}.

(** The calls a run makes to its collaborators and to the classifier, the
    latest first. *)
Inductive Call : Type :=
  | FetchPage (url : string)
  | DownloadDoc (full_url : string)
  | Classify (text email : string)
  | WriteDossier (email : string) (data : Profile).

(** Where a [_worker] task is suspended.  [WDownload url html full_url rest]
    waits for [download_document(full_url)] inside the document loop of
    [scrape_page(url)], with the links [rest] still to go. *)
Inductive Worker : Type :=
  | WStart (url : string)
  | WFetch (url : string)
  | WDownload (url html full_url : string) (rest : list string)
  | WSleep
  | WDone.

#[global] Instance Worker_eq_dec : EqDecision Worker.
Proof. solve_decision. Defined.

(** The fields of the [KingHarvester] object and the local variables of
    [crawl]; [tasks] maps the number of a task, in order of creation, to
    its state. *)
Record State : Type := {
  root_url : string;
  base_domain : string;
  profiles : gmap string Profile;
  visited : gset string;
  documents : gset string;
  pages : nat;
  queue : list string;
  tasks : gmap nat Worker;
  created : nat;
  returned : bool;
  calls : list Call
}.

Definition set_profile (email : string) (p : Profile) (s : State) : State :=
  {| root_url := root_url s; base_domain := base_domain s;
     profiles := <[email := p]> (profiles s);
     visited := visited s; documents := documents s; pages := pages s;
     queue := queue s; tasks := tasks s; created := created s;
     returned := returned s; calls := calls s |}.

Definition mark_visited (url : string) (s : State) : State :=
  {| root_url := root_url s; base_domain := base_domain s;
     profiles := profiles s;
     visited := {[url]} ∪ visited s; documents := documents s;
     pages := S (pages s);
     queue := queue s; tasks := tasks s; created := created s;
     returned := returned s; calls := calls s |}.

Definition add_document (full_url : string) (s : State) : State :=
  {| root_url := root_url s; base_domain := base_domain s;
     profiles := profiles s;
     visited := visited s; documents := {[full_url]} ∪ documents s;
     pages := pages s;
     queue := queue s; tasks := tasks s; created := created s;
     returned := returned s; calls := calls s |}.

Definition set_loop (q : list string) (ts : gmap nat Worker) (n : nat)
    (s : State) : State :=
  {| root_url := root_url s; base_domain := base_domain s;
     profiles := profiles s;
     visited := visited s; documents := documents s; pages := pages s;
     queue := q; tasks := ts; created := n;
     returned := returned s; calls := calls s |}.

Definition set_task (t : nat) (w : Worker) (s : State) : State :=
  set_loop (queue s) (<[t := w]> (tasks s)) (created s) s.

Definition discard_task (t : nat) (s : State) : State :=
  set_loop (queue s) (delete t (tasks s)) (created s) s.

Definition enqueue (urls : list string) (s : State) : State :=
  set_loop (queue s ++ urls) (tasks s) (created s) s.

Definition set_returned (s : State) : State :=
  {| root_url := root_url s; base_domain := base_domain s;
     profiles := profiles s;
     visited := visited s; documents := documents s; pages := pages s;
     queue := queue s; tasks := tasks s; created := created s;
     returned := true; calls := calls s |}.

Definition log (c : Call) (s : State) : State :=
  {| root_url := root_url s; base_domain := base_domain s;
     profiles := profiles s;
     visited := visited s; documents := documents s; pages := pages s;
     queue := queue s; tasks := tasks s; created := created s;
     returned := returned s; calls := c :: calls s |}.

(** A segment of a coroutine: it changes the state and either yields a
    value or raises; what it changed before raising stays changed. *)
Definition Seg (A : Type) : Type := State -> State * option A.

#[global] Instance Seg_ret : MRet Seg := fun A a s => (s, Some a).

#[global] Instance Seg_bind : MBind Seg := fun A B k m s =>
  match m s with
  | (s', Some a) => k a s'
  | (s', None) => (s', None)
  end.

Definition seg_try {A : Type} (o : option A) : Seg A := fun s => (s, o).
Definition seg_get {A : Type} (f : State -> A) : Seg A :=
  fun s => (s, Some (f s)).
Definition seg_do (f : State -> State) : Seg unit := fun s => (f s, Some tt).

(** ** E-mail extraction *)

(** [emails.add(x)] on a set kept as a duplicate-free list. *)
Definition set_add (x : string) (emails : list string) : list string :=
  if bool_decide (x ∈ emails) then emails else emails ++ [x].

(** The loop [for email in std_emails: if self.is_target_domain(email):
    emails.add(email.lower())]; the boolean tells that it raised. *)
Fixpoint add_target_emails (base : string) (std_emails emails : list string)
  : list string * bool :=
  match std_emails with
  | [] => (emails, false)
  | email :: rest =>
      match is_target_domain base email with
      | None => (emails, true)
      | Some true => add_target_emails base rest (set_add (lower email) emails)
      | Some false => add_target_emails base rest emails
      end
  end.

Definition extract_and_clean_emails (base text : string)
  : option (list string) :=
  let '(emails, raised) :=
    add_target_emails base (findall email_pattern text) [] in
  if raised then None else Some emails.

(** [extract_emails_from_doc]: [tool_output] is the standard output of the
    text-extraction tool, or [None] when running it raised; the [except]
    clause of the source returns whatever was collected so far. *)
Definition extract_emails_from_doc (base : string)
    (tool_output : option string) : list string :=
  match tool_output with
  | None => []
  | Some text => fst (add_target_emails base (findall email_pattern text) [])
  end.

(** [domain == self.base_domain or domain.endswith('.' + self.base_domain)] *)
Definition in_scope (base domain : string) : bool :=
  String.eqb domain base || endswith ("." +:+ base) domain.

(** ** The coroutines *)

Definition sensitive_paths : list string :=
  ["/staff"; "/faculty"; "/people"; "/directory"; "/contact"; "/about";
   "/team"].

(** What the outside world does: the event loop resumes a coroutine, and
    an awaited collaborator hands back its result ([None]: it raised). *)
Inductive Event : Type :=
  | CrawlResumes
  | WorkerStarts (t : nat)
  | PageFetched (t : nat) (result : option string)
  | DocDownloaded (t : nat) (doc_path : string) (tool_output : option string)
  | WorkerWakes (t : nat)
  | TaskDiscarded (t : nat).

Section crawler.

Context `{!UrlLib}.
Variable cfg : Config.

(** [KingHarvester.__init__] *)
Definition init (root : string) : option State :=
  domain ← netloc root;
  let base := lower domain in
  let base := if startswith "www." base then drop 4 base else base in
  Some {| root_url := rstrip_char "/"%char root; base_domain := base;
          profiles := ∅; visited := ∅; documents := ∅; pages := 0;
          queue := []; tasks := ∅; created := 0;
          returned := false; calls := [] |}.

(** [scrape_page] up to [await self.fetch_with_evasion(url)].  When the
    guard returns [[]] the worker has nothing to append and goes on to
    its sleep. *)
Definition scrape_page_begin (url : string) : Seg Worker := fun s =>
  if bool_decide (url ∈ visited s) || (MAX_PAGES cfg <=? pages s)
  then (s, Some WSleep)
  else (log (FetchPage url) (mark_visited url s), Some (WFetch url)).

(** The loop [for email in new_emails] of [scrape_page]. *)
Fixpoint store_page_emails (html url : string) (emails : list string)
  : Seg unit :=
  match emails with
  | [] => mret tt
  | email :: rest =>
      known ← seg_get (fun s => profiles s !! email);
      match known with
      | Some _ => store_page_emails html url rest
      | None =>
          seg_do (log (Classify html email));;
          ai_data ← seg_try (classify_profile html email);
          let data :=
            {| p_email := email;
               p_name := ai_name ai_data;
               p_seniority := ai_seniority ai_data;
               p_department := ai_department ai_data;
               p_confidence := round2 (ai_confidence ai_data);
               p_source_url := url;
               p_context_snippet := ai_raw_snippet ai_data |} in
          seg_do (set_profile email data);;
          seg_do (log (WriteDossier email data));;
          store_page_emails html url rest
      end
  end.

(** The loop [for email in doc_emails] of [scrape_page]. *)
Fixpoint store_doc_emails (full_url : string) (emails : list string)
  : Seg unit :=
  match emails with
  | [] => mret tt
  | email :: rest =>
      known ← seg_get (fun s => profiles s !! email);
      match known with
      | Some _ => store_doc_emails full_url rest
      | None =>
          let data :=
            {| p_email := email;
               p_name := "";
               p_seniority := "unknown";
               p_department := "General";
               p_confidence := 0.4;
               p_source_url := full_url;
               p_context_snippet := "From document" |} in
          seg_do (set_profile email data);;
          seg_do (log (WriteDossier email data));;
          store_doc_emails full_url rest
      end
  end.

(** The loop [for raw in links] of [scrape_page]. *)
Fixpoint next_links (url : string) (links next_urls : list string)
  : Seg (list string) :=
  match links with
  | [] => mret next_urls
  | raw :: rest =>
      let consider (full : string) : Seg (list string) :=
        domain ← seg_try (netloc full);
        let domain := lower domain in
        base ← seg_get base_domain;
        seen ← seg_get (fun s => bool_decide (full ∈ visited s));
        if in_scope base domain && negb seen
        then next_links url rest (next_urls ++ [full])
        else next_links url rest next_urls in
      if startswith "http://" raw || startswith "https://" raw
      then consider raw
      else if startswith "/" raw
      then full ← seg_try (urljoin url raw); consider full
      else next_links url rest next_urls
  end.

(** The last part of [scrape_page], from the comment [# Next links]. *)
Definition scrape_page_end (url html : string) : Seg (list string) :=
  p ← seg_get pages;
  if p <? MAX_PAGES cfg
  then next_links url (findall href_pattern html) []
  else mret [].

(** [_worker] after [scrape_page] has returned, up to its sleep. *)
Definition worker_end (next_urls : list string) : Seg Worker :=
  seg_do (enqueue next_urls);; mret WSleep.

(** The loop [for link, _ in doc_links] of [scrape_page], up to the next
    [await self.download_document(full_url)] or to the sleep of the
    worker. *)
Fixpoint mine_documents (url html : string) (doc_links : list string)
  : Seg Worker :=
  match doc_links with
  | [] => next_urls ← scrape_page_end url html; worker_end next_urls
  | link :: rest =>
      full_url ← seg_try (urljoin url link);
      known ← seg_get (fun s => bool_decide (full_url ∈ documents s));
      if (known : bool) then mine_documents url html rest
      else
        seg_do (add_document full_url);;
        seg_do (log (DownloadDoc full_url));;
        mret (WDownload url html full_url rest)
  end.

(** [scrape_page] resumed with the result of [fetch_with_evasion]. *)
Definition scrape_page_fetched (url html : string) : Seg Worker :=
  if String.eqb html "" then worker_end []
  else
    base ← seg_get base_domain;
    new_emails ← seg_try (extract_and_clean_emails base html);
    store_page_emails html url new_emails;;
    mine_documents url html (findall doc_pattern html).

(** [scrape_page] resumed with the result of [download_document]. *)
Definition scrape_page_downloaded (url html full_url : string)
    (rest : list string) (doc_path : string) (tool_output : option string)
  : Seg Worker :=
  (if negb (String.eqb doc_path "")
   then base ← seg_get base_domain;
        store_doc_emails full_url (extract_emails_from_doc base tool_output)
   else mret tt);;
  mine_documents url html rest.

(** The inner loop [while queue and len(tasks) < CONCURRENT] of [crawl]. *)
Fixpoint launch (q : list string) (ts : gmap nat Worker) (n : nat)
  : list string * gmap nat Worker * nat :=
  match q with
  | [] => (q, ts, n)
  | url :: q' =>
      if size ts <? CONCURRENT cfg
      then launch q' (<[n := WStart url]> ts) (S n)
      else (q, ts, n)
  end.

(** [crawl] from the test of its outer loop to [await asyncio.sleep(0.01)],
    or to its return. *)
Definition crawl_resume (s : State) : State :=
  if (negb (bool_decide (queue s = [])) || negb (bool_decide (tasks s = ∅)))
     && (pages s <? MAX_PAGES cfg)
  then let '(q, ts, n) := launch (queue s) (tasks s) (created s) in
       set_loop q ts n s
  else set_returned s.

(** [crawl] up to the first test of its loop; [subdomains] is the result
    of [discover_subdomains]. *)
Definition crawl_begin (root : string) (subdomains : list string)
  : option State :=
  s ← init root;
  paths ← mapM (urljoin (root_url s)) sensitive_paths;
  Some (set_loop (root_url s :: subdomains ++ paths) ∅ 0 s).

(** A worker segment run by task [t]; a task that raised is done. *)
Definition resume (t : nat) (m : Seg Worker) (s : State) : State :=
  match m s with
  | (s', Some w) => set_task t w s'
  | (s', None) => set_task t WDone s'
  end.

Definition exec (s : State) (ev : Event) : option State :=
  match ev with
  | CrawlResumes => if returned s then None else Some (crawl_resume s)
  | WorkerStarts t =>
      match tasks s !! t with
      | Some (WStart url) => Some (resume t (scrape_page_begin url) s)
      | _ => None
      end
  | PageFetched t result =>
      match tasks s !! t, result with
      | Some (WFetch url), Some html =>
          Some (resume t (scrape_page_fetched url html) s)
      | Some (WFetch url), None => Some (set_task t WDone s)
      | _, _ => None
      end
  | DocDownloaded t doc_path tool_output =>
      match tasks s !! t with
      | Some (WDownload url html full_url rest) =>
          Some (resume t (scrape_page_downloaded url html full_url rest
                            doc_path tool_output) s)
      | _ => None
      end
  | WorkerWakes t =>
      match tasks s !! t with
      | Some WSleep => Some (set_task t WDone s)
      | _ => None
      end
  | TaskDiscarded t =>
      match tasks s !! t with
      | Some WDone => Some (discard_task t s)
      | _ => None
      end
  end.

Fixpoint run (s : State) (evs : list Event) : option State :=
  match evs with
  | [] => Some s
  | ev :: evs' => s' ← exec s ev; run s' evs'
  end.

(** The states a crawl of [root] can be in. *)
Definition reachable (root : string) (subdomains : list string) (s : State)
  : Prop :=
  ∃ s0 evs, crawl_begin root subdomains = Some s0 ∧ run s0 evs = Some s.

End crawler.

(** * The vocabulary of the properties

    These definitions are not taken from the source.  They are what the
    properties below are stated with; those that follow the words of the
    specification, to be compared with what the source does, say so. *)

(** ** The classifier and the scope filter *)

(** The scope check: the e-mail splits at its last [@], and the lowercased
    domain part is the base domain or ends with a dot followed by the base
    domain. *)
Definition scope_rule (base e : string) : Prop :=
  ∃ loc dom,
    e = loc +:+ String "@"%char dom ∧
    contains_char "@"%char dom = false ∧
    (lower dom = base ∨ ∃ pre, lower dom = pre +:+ "." +:+ base).

(** The tokens of the local part of an e-mail, split on [.], [_] and [-]. *)
Definition name_tokens (email : string) : list string :=
  split_on (one_of "._-")
    (hd EmptyString (split_on (fun c => Ascii.eqb c "@"%char) email)).

(** The name as the specification words it: a name is produced whenever at
    least two of the tokens have a length greater than 1. *)
Definition name_as_claimed (email : string) : string :=
  let parts := name_tokens email in
  if 2 <=? length (List.filter (fun p => 1 <? String.length p) parts)
  then join " " (map capitalize (firstn 2 parts))
  else EmptyString.

(** The other way to read the same words: a name is produced when there
    are at least two tokens and every token has a length greater than 1. *)
Definition name_as_claimed_all (email : string) : string :=
  let parts := name_tokens email in
  if (2 <=? length parts)
     && forallb (fun p => 1 <? String.length p) parts
  then join " " (map capitalize (firstn 2 parts))
  else EmptyString.

(** The number of occurrences of a keyword in a text: the positions at
    which it starts. *)
Fixpoint occurrences (kw s : string) : nat :=
  (if startswith kw s then 1 else 0) +
  match s with
  | EmptyString => 0
  | String _ s' => occurrences kw s'
  end.

(** The score of a tier as the specification words it: the count of the
    occurrences of its keywords. *)
Definition occurrence_score (keywords : list string) (clean_text : string)
  : nat :=
  list_sum (map (fun kw => occurrences kw clean_text) keywords).

Definition seniority_by_occurrences (text : string) : string :=
  let clean_text := collapse_ws false (lower text) in
  fst (fold_left
         (fun best entry =>
            let score := occurrence_score (snd entry) clean_text in
            if snd best <? score then (fst entry, score) else best)
         SENIORITY_KEYWORDS ("unknown", 0)).

(** The entry at position [i] of a keyword table is the tier [level], it
    is the first one with the highest score, and that score is [score]. *)
Definition first_best (clean_text : string)
    (table : list (string * list string)) (i : nat) (level : string)
    (score : nat) : Prop :=
  ∃ keywords, table !! i = Some (level, keywords) ∧
    keyword_score keywords clean_text = score ∧
    (∀ j e, j < i → table !! j = Some e →
            keyword_score (snd e) clean_text < score) ∧
    (∀ j e, table !! j = Some e → keyword_score (snd e) clean_text ≤ score).

(** [c + x] when the condition holds, [c] otherwise: one step of the
    confidence score. *)
Definition add_if (b : bool) (x c : float) : float :=
  if b then (c + x)%float else c.

(** ** Links *)

(** The URL the link loop of [scrape_page] makes of a raw link: absolute
    links as they are, links that start with a slash joined to the URL of
    the page, nothing for the others. *)
Definition resolve `{!UrlLib} (url raw : string) : option string :=
  if startswith "http://" raw || startswith "https://" raw then Some raw
  else if startswith "/" raw then urljoin url raw
  else None.

(** A URL whose host is the base domain or one of its subdomains. *)
Definition url_in_scope `{!UrlLib} (base full : string) : Prop :=
  ∃ domain, netloc full = Some domain ∧ in_scope base (lower domain) = true.

(** ** The crawl *)

(** A crawl of [root] run through the events [evs]. *)
Definition crawl_run `{!UrlLib} (cfg : Config) (root : string)
    (subdomains : list string) (evs : list Event) : option State :=
  s0 ← crawl_begin root subdomains; run cfg s0 evs.

(** The URLs handed to [fetch_with_evasion], the latest first. *)
Definition fetched (s : State) : list string :=
  omap (fun c => match c with FetchPage url => Some url | _ => None end)
       (calls s).

Definition is_fetch (c : Call) : bool :=
  match c with FetchPage _ => true | _ => false end.

Definition is_classify (c : Call) : bool :=
  match c with Classify _ _ => true | _ => false end.

(** The record the document path stores for an e-mail. *)
Definition doc_record (email full_url : string) : Profile :=
  {| p_email := email; p_name := ""; p_seniority := "unknown";
     p_department := "General"; p_confidence := 0.4;
     p_source_url := full_url; p_context_snippet := "From document" |}.


(** The calls of the page path after the fetch, and those of the document
    path. *)
Definition page_call (c : Call) : bool := negb (is_fetch c).

Definition doc_call (c : Call) : bool :=
  match c with
  | DownloadDoc _ | WriteDossier _ _ => true
  | _ => false
  end.

(** What a worker may change once its page is counted: it adds records
    under new keys, documents, frontier entries and calls of the kind
    [ok], and leaves the rest alone. *)
Record later (ok : Call -> bool) (s s' : State) : Prop := {
  later_root : root_url s' = root_url s;
  later_base : base_domain s' = base_domain s;
  later_visited : visited s' = visited s;
  later_pages : pages s' = pages s;
  later_tasks : tasks s' = tasks s;
  later_created : created s' = created s;
  later_returned : returned s' = returned s;
  later_profiles : profiles s ⊆ profiles s';
  later_documents : documents s ⊆ documents s';
  later_queue : queue s `prefix_of` queue s';
  later_calls : ∃ new, calls s' = new ++ calls s ∧
                       Forall (fun c => ok c = true) new
}.

(** Every record is stored under its own e-mail address, in lower case. *)
Definition profiles_ok (s : State) : Prop :=
  ∀ key r, profiles s !! key = Some r → p_email r = key ∧ lower key = key.

(** The invariant of a crawl: fetches are distinct, of visited URLs, and
    as many as the page counter, which stays within the ceiling; records
    sit under their own lowercased address; [crawl] returns only at the
    ceiling or with nothing left to do; and task numbers are fresh. *)
Definition crawl_inv (cfg : Config) (s : State) : Prop :=
  NoDup (fetched s) ∧
  (∀ u, u ∈ fetched s → u ∈ visited s) ∧
  length (fetched s) = pages s ∧
  pages s ≤ MAX_PAGES cfg ∧
  profiles_ok s ∧
  (returned s = true →
   pages s = MAX_PAGES cfg ∨ (queue s = [] ∧ tasks s = ∅)) ∧
  (∀ t, created s ≤ t → tasks s !! t = None).

(** A step that changes the state; the only step that does not is [crawl]
    waking up with nothing to launch and going back to sleep. *)
Definition moves `{!UrlLib} (cfg : Config) (s s' : State) : Prop :=
  ∃ ev, exec cfg s ev = Some s' ∧ s' ≠ s.

(** ** The measure of the work that is left

    A fetch that is still possible or under way counts in [fetch_budget];
    everything else a run can still do counts in [work_left]: frontier
    entries to launch, workers to start, document links to go through,
    links to append, sleeps to end, tasks to discard and [crawl] to
    return. *)

Definition weight (w : Worker) : nat :=
  match w with
  | WStart _ => 3
  | WFetch _ => 0
  | WDownload _ html _ rest =>
      3 + length rest + 4 * length (findall href_pattern html)
  | WSleep => 2
  | WDone => 1
  end.

Definition fetching (w : Worker) : nat :=
  match w with
  | WFetch _ => 1
  | _ => 0
  end.

Definition total (f : Worker -> nat) (ts : gmap nat Worker) : nat :=
  map_fold (fun _ w acc => f w + acc) 0 ts.

Definition fetch_budget (cfg : Config) (s : State) : nat :=
  2 * (MAX_PAGES cfg - pages s) + total fetching (tasks s).

Definition work_left (s : State) : nat :=
  (if returned s then 0 else 1) + total weight (tasks s)
  + 4 * length (queue s).

(** Where the document loop over [links] leaves the worker: suspended on
    a download with fewer links to go, or asleep after appending at most
    as many URLs as the page has links, or stopped by an exception. *)
Definition mine_shape (url html : string) (links : list string)
    (s s' : State) (r : option Worker) : Prop :=
  match r with
  | None => queue s' = queue s
  | Some (WDownload u h _ rest') =>
      u = url ∧ h = html ∧ length rest' < length links ∧ queue s' = queue s
  | Some WSleep =>
      ∃ next, queue s' = queue s ++ next ∧
              length next ≤ length (findall href_pattern html)
  | Some _ => False
  end.

(** Every start URL is still on the frontier or with a task that has not
    started, or it was visited, or the page ceiling is reached: no start
    URL is dropped before the ceiling. *)
Definition seeds_served (cfg : Config) (seeds : list string) (s : State)
  : Prop :=
  ∀ u, u ∈ seeds →
    u ∈ queue s ∨ (∃ t, tasks s !! t = Some (WStart u)) ∨ u ∈ visited s
    ∨ MAX_PAGES cfg ≤ pages s.

(** * Examples

    ** A model of [urllib.parse]

    It covers what the examples use: absolute [http] and [https] URLs
    without userinfo, and references that are absolute or start with a
    slash.  Other references are merged with the directory of the base
    only roughly (no dot segments). *)

Definition url_scheme_len (u : string) : nat :=
  if startswith "http://" u then 7
  else if startswith "https://" u then 8
  else 0.

Definition url_netloc (u : string) : string :=
  match url_scheme_len u with
  | 0 => ""
  | n => fst (span (fun c => negb (one_of "/?#" c)) (drop n u))
  end.

Definition url_origin (u : string) : string :=
  String.substring 0 (url_scheme_len u + String.length (url_netloc u)) u.

Definition url_directory (u : string) : string :=
  match rsplit1 "/"%char (drop (String.length (url_origin u)) u) with
  | [dir; _] => url_origin u +:+ dir +:+ "/"
  | _ => url_origin u +:+ "/"
  end.

Definition url_join (base ref : string) : string :=
  if startswith "http://" ref || startswith "https://" ref then ref
  else if startswith "//" ref
  then String.substring 0 (url_scheme_len base - 2) base +:+ ref
  else if startswith "/" ref then url_origin base +:+ ref
  else url_directory base +:+ ref.

#[global] Instance UrlModel : UrlLib :=
  {| urljoin base ref := Some (url_join base ref);
     netloc u := Some (url_netloc u) |}.

(** ** A crawl of univ.edu *)

(** The fixed guesses of [discover_subdomains], which are its whole result
    when the certificate lookup fails. *)
Definition tactical_subs : list string :=
  ["www"; "mail"; "webmail"; "staff"; "faculty"; "cs"; "it"; "eee"; "me";
   "ce"; "admissions"; "students"; "library"; "research"; "alumni";
   "contact"; "portal"; "intranet"; "admin"; "accounts"; "hr"; "finance";
   "registrar"].

Definition tactical_subdomains (base : string) : list string :=
  map (fun sub => "https://" +:+ sub +:+ "." +:+ base) tactical_subs.

Definition univ_root : string := "https://www.univ.edu".

Definition univ_subdomains : list string := tactical_subdomains "univ.edu".

(** The configuration of the source with a ceiling of five pages. *)
Definition five_pages : Config := {| MAX_PAGES := 5; CONCURRENT := 25 |}.

(** The crawl reaches the ceiling of five pages: the scheduler launches its
    first 25 workers and six of them run their first segment (the second
    URL repeats the first and is skipped). *)
Definition ceiling_events : list Event :=
  [CrawlResumes; WorkerStarts 0; WorkerStarts 1; WorkerStarts 2;
   WorkerStarts 3; WorkerStarts 4; WorkerStarts 5].




(** A page with an address and a link to a document that has the same
    address and another one. *)
Definition staff_page : string :=
  "Dean John Smith <john.smith@univ.edu> <a href='/files/staff.pdf'>list</a>".

Definition staff_events : list Event :=
  [CrawlResumes; WorkerStarts 0; PageFetched 0 (Some staff_page)].

Definition staff_list_url : string := "https://www.univ.edu/files/staff.pdf".

Definition staff_download : Event :=
  DocDownloaded 0 "recon_reports/doc_1.pdf"
    (Some "Prof. John Smith, john.smith@univ.edu; jane.roe@cs.univ.edu").

Definition smith_email : string := "john.smith@univ.edu".

Definition roe_email : string := "jane.roe@cs.univ.edu".

(** ** Inputs of the classifier *)

Definition deans_text : string :=
  "Dean of Science. Professor Lee, Professor Kim".

Definition initial_email : string := "j.smith.jones@univ.edu".

Definition short_last_email : string := "john.smith.x@univ.edu".

(** * More of the source

    The parts of the three files that the crawl above leaves out: the
    reports, the command line, subdomain discovery and the fetch of
    appv0.1.py. *)

(** ** Reports and the command line *)

(** [s.replace(old, new)] for a one-character [old]. *)
Fixpoint replace_char (old : ascii) (new s : string) : string :=
  match s with
  | EmptyString => EmptyString
  | String c s' =>
      if Ascii.eqb c old then new +:+ replace_char old new s'
      else String c (replace_char old new s')
  end.

(** The name [_write_dossier] gives the file of an address:
    [email.replace('@', '_at_').replace('.', '_')]. *)
Definition safe_email (email : string) : string :=
  replace_char "."%char "_" (replace_char "@"%char "_at_" email).

(** The three ratings of [_write_dossier], which are also the three fill
    colours of [export_to_excel]. *)
Inductive Band : Type := High | Medium | Low.

(** [if confidence >= 0.8: ... elif confidence >= 0.6: ... else: ...] *)
Definition confidence_band (confidence : float) : Band :=
  if (0.8 <=? confidence)%float then High
  else if (0.6 <=? confidence)%float then Medium
  else Low.

(** The cell [export_to_excel] writes for the context snippet. *)
Definition excel_snippet (context_snippet : string) : string :=
  if 100 <? String.length context_snippet
  then slice 0 100 context_snippet +:+ "..."
  else context_snippet.

(** [self.profiles.values()] *)
Definition profile_values (s : State) : list Profile :=
  (map_to_list (profiles s)).*2.

(** The confidence breakdown of [finalize]. *)
Definition high (s : State) : nat :=
  length (List.filter (fun p => (0.8 <=? p_confidence p)%float)
            (profile_values s)).

Definition medium (s : State) : nat :=
  length (List.filter
            (fun p => (0.6 <=? p_confidence p)%float
                      && (p_confidence p <? 0.8)%float)
            (profile_values s)).

Definition low (s : State) : nat :=
  length (List.filter (fun p => (p_confidence p <? 0.6)%float)
            (profile_values s)).

(** The target of [main]: the stripped input, with [https://] put in
    front unless it already has a scheme. *)
Definition main_target (input : string) : string :=
  let target := strip input in
  if negb (startswith "http://" target || startswith "https://" target)
  then "https://" +:+ target
  else target.

(** ** Subdomain discovery *)

Definition MAX_SUBDOMAINS : nat := 30.

(** The loop of [discover_subdomains] over the answer of the certificate
    service.  An entry is its [name_value] (the empty string when the key
    is missing), or [None] when reading it raises; the [except] clause
    then keeps what the loop has collected.  No answer, or an answer that
    cannot be read, is the empty list. *)
Fixpoint crt_names (base : string) (data : list (option string))
    (subdomains : gset string) : gset string :=
  match data with
  | [] => subdomains
  | None :: _ => subdomains
  | Some name_value :: rest =>
      let name := strip (lower name_value) in
      if negb (String.eqb name "") && endswith base name
         && negb (contains_char "*"%char name)
      then crt_names base rest ({[ "https://" +:+ name ]} ∪ subdomains)
      else crt_names base rest subdomains
  end.

(** The set [subdomains] at the end of [discover_subdomains]. *)
Definition discovered (base : string) (data : list (option string))
  : gset string :=
  foldl (fun subdomains sub =>
           {[ "https://" +:+ sub +:+ "." +:+ base ]} ∪ subdomains)
        (crt_names base data ∅) tactical_subs.

(** [list(subdomains)[:MAX_SUBDOMAINS]]: Python fixes no order in which a
    set is listed, so any listing of the set may be the one that is cut. *)
Definition discover_subdomains (base : string) (data : list (option string))
    (result : list string) : Prop :=
  ∃ listing, listing ≡ₚ elements (discovered base data) ∧
             result = take MAX_SUBDOMAINS listing.

(** ** The fetch of appv0.1.py *)

Module EliteHarvester.

(** The test after [fetch_static] in [scrape_page]: when it holds the page
    is fetched again with the browser. *)
Definition static_insufficient (html : string) : bool :=
  String.eqb html "" || contains "<noscript>" html
  || contains "enable JavaScript" (lower html).

End EliteHarvester.

(** ** The vocabulary of the properties of these parts *)

(** The number of signals that hold. *)
Definition signal_count (signals : list bool) : nat :=
  length (List.filter id signals).

(** The confidence stored for a page record whose four signals are: a name
    was inferred, the seniority is known, the department is known, and the
    two winning scores add up to more than 2. *)
Definition page_confidence (named ranked placed rich : bool) : float :=
  round2 (py_min (add_if rich 0.2 (add_if placed 0.15 (add_if ranked 0.15
                    (add_if named 0.2 0.3)))) 0.95).

(** The confidences a crawl stores: that of a document record, or that of
    a page record. *)
Definition stored_confidence (c : float) : Prop :=
  c = 0.4%float ∨
  ∃ named ranked placed rich, c = page_confidence named ranked placed rich.
(** Every character of [s] satisfies [p]. *)
Fixpoint all_chars (p : ascii -> bool) (s : string) : bool :=
  match s with
  | EmptyString => true
  | String c s' => p c && all_chars p s'
  end.

(** A text of the ASCII range.  On such a text [str.lower] maps character
    by character, as [lower] does, so that an index into the lowercased
    line is an index into the line; outside it [str.lower] can lengthen
    the text. *)
Definition ascii_text (s : string) : bool := all_chars (in_range 0 127) s.

(** The shape of an address: a local part, [@], a domain, a dot and a
    top-level part of two characters or more, each made of the characters
    of its class. *)
Definition address_shape (g : string) : Prop :=
  ∃ loc dom tld,
    g = loc +:+ "@" +:+ dom +:+ "." +:+ tld ∧
    loc ≠ "" ∧ dom ≠ "" ∧ 2 ≤ String.length tld ∧
    all_chars class_local loc = true ∧
    all_chars class_domain dom = true ∧
    all_chars class_tld tld = true.
(** The URL [discover_subdomains] makes of an entry of the certificate
    service, if it keeps the entry. *)
Definition crt_url (base name_value u : string) : Prop :=
  let name := strip (lower name_value) in
  name ≠ "" ∧ endswith base name = true ∧
  contains_char "*"%char name = false ∧ u = "https://" +:+ name.

(** The entry [name_value] is read before any entry raises. *)
Definition crt_entry (data : list (option string)) (name_value : string)
  : Prop :=
  ∃ i, data !! i = Some (Some name_value) ∧
       ∀ j, j < i → data !! j ≠ Some None.
(** ** The crawl, seen through its calls *)

(** The URLs handed to [download_document], the latest first. *)
Definition downloaded (s : State) : list string :=
  omap (fun c => match c with DownloadDoc u => Some u | _ => None end)
       (calls s).

(** The dossiers written, the latest first. *)
Definition dossiers (s : State) : list (string * Profile) :=
  omap (fun c => match c with WriteDossier e d => Some (e, d) | _ => None end)
       (calls s).

(** The page a suspended worker is scraping. *)
Definition page_of (w : Worker) : option string :=
  match w with
  | WFetch url | WDownload url _ _ _ => Some url
  | _ => None
  end.

(** A record that the worker [w] may store under the key [key] when it
    resumes: a page record, when [w] waits for its page, or the document
    record, when it waits for a download. *)
Definition new_record (w : Worker) (base key : string) (r : Profile) : Prop :=
  p_email r = key ∧ lower key = key ∧
  is_target_domain base key = Some true ∧
  match w with
  | WFetch url =>
      p_source_url r = url ∧
      ∃ named ranked placed rich,
        p_confidence r = page_confidence named ranked placed rich
  | WDownload _ _ full_url _ => r = doc_record key full_url
  | _ => False
  end.

(** From [s] to [s1] records satisfying [P] were stored under keys that
    were free, one dossier was written for each, and nothing else happened
    to the records and the dossiers. *)
Definition stored (P : string -> Profile -> Prop) (s s1 : State) : Prop :=
  ∃ news,
    dossiers s1 = news ++ dossiers s ∧ NoDup (news.*1) ∧
    (∀ key r, (key, r) ∈ news → profiles s !! key = None ∧ P key r) ∧
    (∀ key r, profiles s1 !! key = Some r ↔
              (key, r) ∈ news ∨ profiles s !! key = Some r).

(** Where the worker [w] is left after going on from [s] to [s1]: either
    suspended on the download of a document that is new, or at the end of
    its page, having appended links that are in scope and were not yet
    visited. *)
Definition advanced `{!UrlLib} (w : Worker) (s s1 : State)
    (r : option Worker) : Prop :=
  match r with
  | Some (WDownload url _ full_url _) =>
      page_of w = Some url ∧ (full_url ∉ documents s) ∧
      documents s1 = {[full_url]} ∪ documents s ∧
      downloaded s1 = full_url :: downloaded s ∧
      queue s1 = queue s
  | Some WSleep | None =>
      documents s1 = documents s ∧ downloaded s1 = downloaded s ∧
      ∃ next, queue s1 = queue s ++ next ∧
              ∀ u, u ∈ next → url_in_scope (base_domain s) u ∧ u ∉ visited s
  | Some _ => False
  end.

(** What a worker does when it resumes after its first segment. *)
Record worked `{!UrlLib} (w : Worker) (s s1 : State) (r : option Worker)
  : Prop := {
  worked_later : later page_call s s1;
  worked_advanced : advanced w s s1 r;
  worked_stored : stored (new_record w (base_domain s)) s s1
}.

(** A start URL of the crawl, or a URL in scope. *)
Definition seed_or_scope `{!UrlLib} (seeds : list string) (base u : string)
  : Prop :=
  u ∈ seeds ∨ url_in_scope base u.

(** What holds of a task: its URL is a seed or in scope as long as it has
    not started; afterwards its page was fetched, and the document it
    waits for was handed to the downloader. *)
Definition worker_ok `{!UrlLib} (seeds : list string) (base : string)
    (s : State) (w : Worker) : Prop :=
  match w with
  | WStart url => seed_or_scope seeds base url
  | WFetch url => url ∈ fetched s
  | WDownload url _ full_url _ => url ∈ fetched s ∧ full_url ∈ downloaded s
  | WSleep | WDone => True
  end.

(** What holds of a record: its key is in scope, its confidence is one of
    the stored ones, and it comes from a fetched page or is the document
    record of a downloaded document. *)
Definition record_ok (base : string) (s : State) (key : string)
    (r : Profile) : Prop :=
  is_target_domain base key = Some true ∧
  stored_confidence (p_confidence r) ∧
  (p_source_url r ∈ fetched s
   ∨ (p_source_url r ∈ downloaded s ∧ r = doc_record key (p_source_url r))).

(** The second invariant of a crawl, about what it has fetched,
    downloaded and stored. *)
Record harvest_inv `{!UrlLib} (cfg : Config) (seeds : list string)
    (base : string) (s : State) : Prop := {
  hv_base : base_domain s = base;
  hv_tasks : size (tasks s) ≤ CONCURRENT cfg;
  hv_visited : ∀ u, u ∈ visited s ↔ u ∈ fetched s;
  hv_documents : ∀ u, u ∈ documents s ↔ u ∈ downloaded s;
  hv_downloaded : NoDup (downloaded s);
  hv_queue : ∀ u, u ∈ queue s → seed_or_scope seeds base u;
  hv_fetched : ∀ u, u ∈ fetched s → seed_or_scope seeds base u;
  hv_workers : ∀ t w, tasks s !! t = Some w → worker_ok seeds base s w;
  hv_profiles : ∀ key r, profiles s !! key = Some r → record_ok base s key r;
  hv_dossiers_once : NoDup ((dossiers s).*1);
  hv_dossiers : ∀ key r, (key, r) ∈ dossiers s ↔ profiles s !! key = Some r
}.

(** ** The e-mail extraction of appv0.1.py *)

Module Deobfuscation.

(** [re.sub(pattern, repl, s)]: the text is scanned as by [re.findall],
    and each match is replaced by [repl].  None of the patterns below
    matches the empty string. *)
Fixpoint sub_scan (m : matcher) (repl : string) (skip : nat)
    (prev_word : bool) (s : string) : string :=
  match s with
  | EmptyString => EmptyString
  | String c s' =>
      match skip with
      | S k => sub_scan m repl k (is_word c) s'
      | 0 =>
          match m prev_word s with
          | Some (_, len) => repl +:+ sub_scan m repl (len - 1) (is_word c) s'
          | None => String c (sub_scan m repl 0 (is_word c) s')
          end
      end
  end.

Definition sub (m : matcher) (repl s : string) : string :=
  sub_scan m repl 0 false s.

Definition open_bracket (c : ascii) : bool :=
  Ascii.eqb c "["%char || Ascii.eqb c "("%char.

Definition close_bracket (c : ascii) : bool :=
  Ascii.eqb c "]"%char || Ascii.eqb c ")"%char.

(** [[\[\(]word[\]\)]] with [re.IGNORECASE], for a lower-case [word]. *)
Definition bracketed (word : string) : matcher := fun _ s =>
  match s with
  | String c r =>
      if open_bracket c && startswith word (lower r) then
        match drop (String.length word) r with
        | String d _ =>
            if close_bracket d then Some (EmptyString, String.length word + 2)
            else None
        | EmptyString => None
        end
      else None
  | EmptyString => None
  end.

(** [\s+word\s+] with [re.IGNORECASE]: both runs of white space are the
    longest ones, since the word does not start with white space. *)
Definition spaced (word : string) : matcher := fun _ s =>
  let '(ws1, r1) := span is_space s in
  if (0 <? String.length ws1) && startswith word (lower r1) then
    let ws2 := fst (span is_space (drop (String.length word) r1)) in
    if 0 <? String.length ws2
    then Some (EmptyString,
               String.length ws1 + String.length word + String.length ws2)
    else None
  else None.

(** The separators of the two spelled-out patterns: [\s+], and one
    blank. *)
Definition blanks (s : string) : option nat :=
  match String.length (fst (span is_space s)) with
  | 0 => None
  | n => Some n
  end.

Definition one_blank (s : string) : option nat :=
  if startswith " " s then Some 1 else None.

Definition class_name (c : ascii) : bool := is_alnum c || one_of "._-" c.
Definition class_host (c : ascii) : bool := is_alnum c || one_of ".-" c.

(** [([a-z0-9._-]+) at ([a-z0-9.-]+) dot ([a-z]{2,})] with
    [re.IGNORECASE], the blanks being matched by [sep].  Each run is the
    longest one, since what follows it cannot start with a character of
    the run.  The three groups are returned as the address that the loop
    of the source makes of them, [f"{local}@{domain_part}.{tld}"]. *)
Definition spelled (sep : string -> option nat) : matcher := fun _ s =>
  let '(local, r) := span class_name s in
  if 0 <? String.length local then
    n1 ← sep r;
    let r := drop n1 r in
    if startswith "at" (lower r) then
      let r := drop 2 r in
      n2 ← sep r;
      let '(domain_part, r) := span class_host (drop n2 r) in
      if 0 <? String.length domain_part then
        n3 ← sep r;
        let r := drop n3 r in
        if startswith "dot" (lower r) then
          let r := drop 3 r in
          n4 ← sep r;
          let tld := fst (span is_alpha (drop n4 r)) in
          if 2 <=? String.length tld
          then Some (local +:+ "@" +:+ domain_part +:+ "." +:+ tld,
                     String.length local + n1 + 2 + n2
                     + String.length domain_part + n3 + 3 + n4
                     + String.length tld)
          else None
        else None
      else None
    else None
  else None.

(** The loop [for email in ...: if is_target_domain(email, base_domain):
    emails.add(email.lower())]; the boolean tells that it raised. *)
Fixpoint add_emails (base_domain : string) (found emails : list string)
  : list string * bool :=
  match found with
  | [] => (emails, false)
  | email :: rest =>
      match AppV01.is_target_domain email base_domain with
      | None => (emails, true)
      | Some true => add_emails base_domain rest (set_add (lower email) emails)
      | Some false => add_emails base_domain rest emails
      end
  end.

(** The four substitutions under the comment [# Normalize]. *)
Definition normalize (text : string) : string :=
  let clean := sub (bracketed "at") "@" text in
  let clean := sub (bracketed "dot") "." clean in
  let clean := sub (spaced "dot") "." clean in
  let clean := sub (spaced "at") "@" clean in
  clean.

(** [extract_and_clean_emails(text, base_domain)] of appv0.1.py *)
Definition extract_and_clean_emails (text base_domain : string)
  : option (list string) :=
  let base_domain := lower base_domain in
  let '(emails, raised) :=
    add_emails base_domain (findall email_pattern text) [] in
  if (raised : bool) then None else
  let '(emails, raised) :=
    if contains "[at]" text || contains "(at)" text then
      let clean := normalize text in
      add_emails base_domain (findall email_pattern clean) emails
    else (emails, false) in
  if (raised : bool) then None else
  let '(emails, raised) :=
    add_emails base_domain (findall (spelled blanks) text) emails in
  if (raised : bool) then None else
  let '(emails, raised) :=
    add_emails base_domain (findall (spelled one_blank) text) emails in
  if (raised : bool) then None else Some emails.

End Deobfuscation.

(** The shape of an address that the spelled-out patterns of appv0.1.py
    yield: a name over [[a-z0-9._-]], a host over [[a-z0-9.-]], which may
    have dots of its own, and an alphabetic top-level part of two letters
    or more, all three without regard to case. *)
Definition spelled_shape (g : string) : Prop :=
  ∃ loc dom tld,
    g = loc +:+ "@" +:+ dom +:+ "." +:+ tld ∧
    loc ≠ "" ∧ dom ≠ "" ∧ 2 ≤ String.length tld ∧
    all_chars Deobfuscation.class_name loc = true ∧
    all_chars Deobfuscation.class_host dom = true ∧
    all_chars is_alpha tld = true.

(** The example of the comment in [extract_and_clean_emails] of
    appv0.1.py, and the same address written without blanks. *)
Definition spaced_example : string := "john [at] duet [dot] edu [dot] pk".
Definition dense_example : string := "john[at]duet[dot]edu[dot]pk".

(** A spelled-out address whose host has a dot of its own. *)
Definition spelled_example : string := "john at mail.duet dot pk".

(** ** Fetching *)

Module Fetch.

(** What an attempt of [fetch_with_evasion] runs into: [new_context]
    raises; [add_init_script] or [new_page] raises, with the context open
    and outside the [try]; or the page is there.  Then the [try] block
    hands back the page content or raises ([None]), and
    [await context.close()] in the [finally] clause returns or raises
    ([closes]). *)
Inductive Attempt : Type :=
  | NoContext
  | NoPage
  | Page (content : option string) (closes : bool).

(** [InitBrowser]: [init_browser] is called.  [CloseContext]:
    [context.close()] is called and returns; [CloseFailed]: it is called
    and raises. *)
Inductive Effect : Type :=
  | InitBrowser
  | OpenContext
  | CloseContext
  | CloseFailed
  | Sleep (seconds : nat).

(** The loop [for attempt in range(n)] of [fetch_with_evasion] from the
    attempt numbered [a] on, and the [return ""] after it; the effects are
    logged the latest first, and [None] is an exception that leaves the
    function.  An exception of the [finally] clause replaces the result of
    the [try] block, be it the content returned or the exception that
    [except: pass] has swallowed. *)
Fixpoint fetch_attempts (n a : nat) (outcome : nat -> Attempt)
    (log : list Effect) : option string * list Effect :=
  match n with
  | 0 => (Some EmptyString, log)
  | S n' =>
      match outcome a with
      | NoContext => (None, log)
      | NoPage => (None, OpenContext :: log)
      | Page _ false => (None, CloseFailed :: OpenContext :: log)
      | Page None true =>
          fetch_attempts n' (S a) outcome
            (Sleep 2 :: CloseContext :: OpenContext :: log)
      | Page (Some html) true =>
          (Some html, CloseContext :: OpenContext :: log)
      end
  end.

(** [fetch_with_evasion].  [browser]: [self.browser] is set when the
    function is entered; [launch]: [init_browser], called if it is not,
    returns and does not raise. *)
Definition fetch_with_evasion (browser launch : bool)
    (outcome : nat -> Attempt) : option string * list Effect :=
  if browser then fetch_attempts 2 0 outcome []
  else if launch then fetch_attempts 2 0 outcome [InitBrowser]
  else (None, [InitBrowser]).

(** What an attempt of [fetch_static] of appv0.1.py gets: the text of a
    reply with status 200, a reply with status 403 or 429, a reply with
    another status, or an exception. *)
Inductive Reply : Type :=
  | Ok (text : string)
  | Denied
  | Other
  | Raised.

(** The loop [for attempt in range(n)] of [fetch_static] and the
    [return ""] after it, with the seconds slept so far. *)
Fixpoint static_attempts (n a : nat) (reply : nat -> Reply) (slept : nat)
  : string * nat :=
  match n with
  | 0 => (EmptyString, slept)
  | S n' =>
      match reply a with
      | Ok text => (text, slept)
      | Denied => static_attempts n' (S a) reply (slept + 5)
      | Other => static_attempts n' (S a) reply slept
      | Raised => static_attempts n' (S a) reply (slept + 2)
      end
  end.

Definition fetch_static (reply : nat -> Reply) : string * nat :=
  static_attempts 3 0 reply 0.

End Fetch.

(** ** The browser

    [fetch_with_evasion] starts with [if not self.browser: await
    self.init_browser()], and [init_browser] suspends twice, in
    [async_playwright().start()] and in [chromium.launch(...)], before it
    assigns [self.browser]; [fetch_dynamic] of appv0.1.py does the same
    inline.  The callers are the worker tasks. *)

Module Browser.

(** Where a caller is: in [start()], in [launch(...)] of the browser with
    the given number, or past the test. *)
Inductive Phase : Type :=
  | Starting
  | Launching (id : nat)
  | Ready.

(** [browser] is [self.browser], as the number of the browser it refers
    to; browsers are numbered in the order of their launch. *)
Record State : Type := {
  browser : option nat;
  launched : nat;
  callers : gmap nat Phase
}.

Definition init : State :=
  {| browser := None; launched := 0; callers := ∅ |}.

Inductive Event : Type :=
  | Calls (t : nat)
  | Started (t : nat)
  | Launched (t : nat).

Definition exec (s : State) (ev : Event) : option State :=
  match ev with
  | Calls t =>
      match callers s !! t with
      | Some _ => None
      | None =>
          let phase :=
            match browser s with Some _ => Ready | None => Starting end in
          Some {| browser := browser s; launched := launched s;
                  callers := <[t := phase]> (callers s) |}
      end
  | Started t =>
      match callers s !! t with
      | Some Starting =>
          Some {| browser := browser s; launched := S (launched s);
                  callers := <[t := Launching (launched s)]> (callers s) |}
      | _ => None
      end
  | Launched t =>
      match callers s !! t with
      | Some (Launching id) =>
          Some {| browser := Some id; launched := launched s;
                  callers := <[t := Ready]> (callers s) |}
      | _ => None
      end
  end.

Fixpoint run (s : State) (evs : list Event) : option State :=
  match evs with
  | [] => Some s
  | ev :: evs' => s' ← exec s ev; run s' evs'
  end.

(** [close]: [if self.browser: await self.browser.close()] closes the
    browser that [self.browser] refers to, and no other. *)
Definition closed_by_close (s : State) : list nat :=
  match browser s with
  | Some id => [id]
  | None => []
  end.

End Browser.

(** The contexts a fetch has opened, those it has closed, and those whose
    [close()] raised. *)
Definition opened (log : list Fetch.Effect) : nat :=
  length (List.filter
            (fun e => match e with Fetch.OpenContext => true | _ => false end)
            log).

Definition closed (log : list Fetch.Effect) : nat :=
  length (List.filter
            (fun e => match e with Fetch.CloseContext => true | _ => false end)
            log).

Definition close_failed (log : list Fetch.Effect) : nat :=
  length (List.filter
            (fun e => match e with Fetch.CloseFailed => true | _ => false end)
            log).

(** The calls of [init_browser] a fetch has made. *)
Definition launch_calls (log : list Fetch.Effect) : nat :=
  length (List.filter
            (fun e => match e with Fetch.InitBrowser => true | _ => false end)
            log).

(** The seconds a fetch has slept. *)
Definition slept (log : list Fetch.Effect) : nat :=
  list_sum (map (fun e => match e with Fetch.Sleep n => n | _ => 0 end) log).

(** The events of [n] callers that all call before any browser is there:
    the calls, the ends of [start()], the ends of [launch(...)]. *)
Definition crowd (n : nat) : list Browser.Event :=
  map Browser.Calls (seq 0 n) ++ map Browser.Started (seq 0 n)
  ++ map Browser.Launched (seq 0 n).

(** The sum of [f] over the values of a map. *)
Definition tally {A : Type} (f : A -> nat) (m : gmap nat A) : nat :=
  map_fold (fun _ x acc => f x + acc) 0 m.

(** A caller that is still in [start()]. *)
Definition starting (p : Browser.Phase) : nat :=
  match p with
  | Browser.Starting => 1
  | _ => 0
  end.

(** ** The crawler of appv0.1.py

    [EliteHarvester] keeps a set of addresses instead of profiles and
    mines no documents.  [scrape_page] is an asynchronous generator: it
    suspends in [fetch_static] and, if need be, in [fetch_dynamic]; after
    that, [_process_url] appends each URL to the frontier as soon as it is
    yielded, and nothing suspends until the generator is exhausted. *)

Module Elite.

Definition COMMON_SUBDOMAINS : list string :=
  ["www"; "mail"; "webmail"; "staff"; "faculty"; "cs"; "it"; "eee"; "me";
   "ce"; "admissions"; "students"; "library"; "research"; "alumni";
   "contact"].

Definition MAX_SUBDOMAINS : nat := 10.

Definition source_config : Config := {| MAX_PAGES := 500; CONCURRENT := 15 |}.

(** The calls to the two fetchers, the latest first. *)
Inductive Call : Type :=
  | StaticFetch (url : string)
  | DynamicFetch (url : string).

(** Where a [_process_url] task is suspended. *)
Inductive Worker : Type :=
  | WStart (url : string)
  | WStatic (url : string)
  | WDynamic (url : string)
  | WSleep
  | WDone.

Record State : Type := {
  root_url : string;
  base_domain : string;
  emails : gset string;
  visited : gset string;
  pages : nat;
  queue : list string;
  tasks : gmap nat Worker;
  created : nat;
  returned : bool;
  calls : list Call
}.

Definition mark_visited (url : string) (s : State) : State :=
  {| root_url := root_url s; base_domain := base_domain s;
     emails := emails s; visited := {[url]} ∪ visited s;
     pages := S (pages s); queue := queue s; tasks := tasks s;
     created := created s; returned := returned s; calls := calls s |}.

Definition log (c : Call) (s : State) : State :=
  {| root_url := root_url s; base_domain := base_domain s;
     emails := emails s; visited := visited s; pages := pages s;
     queue := queue s; tasks := tasks s; created := created s;
     returned := returned s; calls := c :: calls s |}.

(** [self.emails.update(new_emails)] *)
Definition update_emails (new_emails : list string) (s : State) : State :=
  {| root_url := root_url s; base_domain := base_domain s;
     emails := list_to_set new_emails ∪ emails s; visited := visited s;
     pages := pages s; queue := queue s; tasks := tasks s;
     created := created s; returned := returned s; calls := calls s |}.

Definition set_loop (q : list string) (ts : gmap nat Worker) (n : nat)
    (s : State) : State :=
  {| root_url := root_url s; base_domain := base_domain s;
     emails := emails s; visited := visited s; pages := pages s;
     queue := q; tasks := ts; created := n;
     returned := returned s; calls := calls s |}.

Definition set_task (t : nat) (w : Worker) (s : State) : State :=
  set_loop (queue s) (<[t := w]> (tasks s)) (created s) s.

Definition discard_task (t : nat) (s : State) : State :=
  set_loop (queue s) (delete t (tasks s)) (created s) s.

(** [queue.append(new_url)] *)
Definition append (url : string) (s : State) : State :=
  set_loop (queue s ++ [url]) (tasks s) (created s) s.

Definition set_returned (s : State) : State :=
  {| root_url := root_url s; base_domain := base_domain s;
     emails := emails s; visited := visited s; pages := pages s;
     queue := queue s; tasks := tasks s; created := created s;
     returned := true; calls := calls s |}.

Inductive Event : Type :=
  | CrawlResumes
  | WorkerStarts (t : nat)
  | StaticFetched (t : nat) (html : string)
  | DynamicFetched (t : nat) (result : option string)
  | WorkerWakes (t : nat)
  | TaskDiscarded (t : nat).

Section crawler.

Context `{!UrlLib}.
Variable cfg : Config.

(** [EliteHarvester.__init__] *)
Definition init (root : string) : option State :=
  domain ← netloc root;
  let base := lower domain in
  let base := if startswith "www." base then drop 4 base else base in
  Some {| root_url := rstrip_char "/"%char root; base_domain := base;
          emails := ∅; visited := ∅; pages := 0;
          queue := []; tasks := ∅; created := 0;
          returned := false; calls := [] |}.

(** [scrape_page] up to [await self.fetch_static(url)]; when the guard
    returns, [_process_url] goes on to its sleep. *)
Definition scrape_page_begin (url : string) (s : State) : State * Worker :=
  if bool_decide (url ∈ visited s) || (MAX_PAGES cfg <=? pages s)
  then (s, WSleep)
  else (log (StaticFetch url) (mark_visited url s), WStatic url).

(** The loop [for raw_link in urls] of [scrape_page], with the
    [queue.append] that [_process_url] does at each [yield]; the boolean
    tells that the loop raised, and what was appended before stays. *)
Fixpoint yield_links (url : string) (urls : list string) (s : State)
  : State * bool :=
  match urls with
  | [] => (s, false)
  | raw_link :: rest =>
      let consider (full_url : string) : State * bool :=
        match netloc full_url with
        | None => (s, true)
        | Some domain =>
            if in_scope (base_domain s) (lower domain)
               && negb (bool_decide (full_url ∈ visited s))
            then yield_links url rest (append full_url s)
            else yield_links url rest s
        end in
      if startswith "http://" raw_link || startswith "https://" raw_link
      then consider raw_link
      else if startswith "/" raw_link
      then match urljoin url raw_link with
           | Some full_url => consider full_url
           | None => (s, true)
           end
      else yield_links url rest s
  end.

(** [scrape_page] from [if not html: return] on, up to the sleep of
    [_process_url]; a task that raised is done. *)
Definition scrape_page_html (url html : string) (s : State)
  : State * Worker :=
  if String.eqb html "" then (s, WSleep)
  else
    match Deobfuscation.extract_and_clean_emails html (base_domain s) with
    | None => (s, WDone)
    | Some new_emails =>
        let s := update_emails new_emails s in
        if pages s <? MAX_PAGES cfg
        then let '(s', raised) :=
               yield_links url (findall href_pattern html) s in
             (s', if (raised : bool) then WDone else WSleep)
        else (s, WSleep)
    end.

(** [scrape_page] resumed with the result of [fetch_static]. *)
Definition scrape_page_static (url html : string) (s : State)
  : State * Worker :=
  if EliteHarvester.static_insufficient html
  then (log (DynamicFetch url) s, WDynamic url)
  else scrape_page_html url html s.

(** The inner loop [while queue and len(tasks) < CONCURRENT]. *)
Fixpoint launch (q : list string) (ts : gmap nat Worker) (n : nat)
  : list string * gmap nat Worker * nat :=
  match q with
  | [] => (q, ts, n)
  | url :: q' =>
      if size ts <? CONCURRENT cfg
      then launch q' (<[n := WStart url]> ts) (S n)
      else (q, ts, n)
  end.

(** [crawl] from the test of its outer loop on: it returns, or it
    suspends in [asyncio.sleep(0.1)], or, with no task after the inner
    loop, it goes round again at once, in the same state, for ever. *)
Inductive Resumed : Type :=
  | Suspends (s : State)
  | Returns (s : State)
  | Spins.

Definition crawl_resume (s : State) : Resumed :=
  if (negb (bool_decide (queue s = [])) || negb (bool_decide (tasks s = ∅)))
     && (pages s <? MAX_PAGES cfg)
  then let '(q, ts, n) := launch (queue s) (tasks s) (created s) in
       if bool_decide (ts = ∅) then Spins else Suspends (set_loop q ts n s)
  else Returns (set_returned s).

(** [crawl] up to the first test of its loop. *)
Definition crawl_begin (root : string) : option State :=
  s ← init root;
  let urls_to_crawl :=
    root_url s ::
    map (fun sub => "https://" +:+ sub +:+ "." +:+ base_domain s)
        (take MAX_SUBDOMAINS COMMON_SUBDOMAINS) in
  Some (set_loop urls_to_crawl ∅ 0 s).

Definition resume (t : nat) (r : State * Worker) : State :=
  set_task t r.2 r.1.

Definition exec (s : State) (ev : Event) : option State :=
  match ev with
  | CrawlResumes =>
      if returned s then None
      else match crawl_resume s with
           | Suspends s' | Returns s' => Some s'
           | Spins => None
           end
  | WorkerStarts t =>
      match tasks s !! t with
      | Some (WStart url) => Some (resume t (scrape_page_begin url s))
      | _ => None
      end
  | StaticFetched t html =>
      match tasks s !! t with
      | Some (WStatic url) => Some (resume t (scrape_page_static url html s))
      | _ => None
      end
  | DynamicFetched t result =>
      match tasks s !! t, result with
      | Some (WDynamic url), Some html =>
          Some (resume t (scrape_page_html url html s))
      | Some (WDynamic url), None => Some (set_task t WDone s)
      | _, _ => None
      end
  | WorkerWakes t =>
      match tasks s !! t with
      | Some WSleep => Some (set_task t WDone s)
      | _ => None
      end
  | TaskDiscarded t =>
      match tasks s !! t with
      | Some WDone => Some (discard_task t s)
      | _ => None
      end
  end.

Fixpoint run (s : State) (evs : list Event) : option State :=
  match evs with
  | [] => Some s
  | ev :: evs' => s' ← exec s ev; run s' evs'
  end.

(** The states a crawl of [root] can be in. *)
Definition reachable (root : string) (s : State) : Prop :=
  ∃ s0 evs, crawl_begin root = Some s0 ∧ run s0 evs = Some s.

End crawler.

End Elite.

(** ** The vocabulary of the crawl of appv0.1.py *)

(** The URLs handed to [fetch_static] and to [fetch_dynamic], the latest
    first. *)
Definition static_fetched (s : Elite.State) : list string :=
  omap (fun c => match c with Elite.StaticFetch u => Some u | _ => None end)
       (Elite.calls s).

Definition dynamic_fetched (s : Elite.State) : list string :=
  omap (fun c => match c with Elite.DynamicFetch u => Some u | _ => None end)
       (Elite.calls s).

(** What [scrape_page] changes once it has its page: it adds addresses
    that are in lower case and in scope, and appends URLs that are in
    scope and not yet visited. *)
Record scraped `{!UrlLib} (s s' : Elite.State) : Prop := {
  scraped_root : Elite.root_url s' = Elite.root_url s;
  scraped_base : Elite.base_domain s' = Elite.base_domain s;
  scraped_visited : Elite.visited s' = Elite.visited s;
  scraped_pages : Elite.pages s' = Elite.pages s;
  scraped_tasks : Elite.tasks s' = Elite.tasks s;
  scraped_created : Elite.created s' = Elite.created s;
  scraped_returned : Elite.returned s' = Elite.returned s;
  scraped_calls : Elite.calls s' = Elite.calls s;
  scraped_emails :
    ∀ e, e ∈ Elite.emails s' →
         e ∈ Elite.emails s
         ∨ (lower e = e ∧
            is_target_domain (lower (Elite.base_domain s)) e = Some true);
  scraped_kept : Elite.emails s ⊆ Elite.emails s';
  scraped_queue :
    ∃ next, Elite.queue s' = Elite.queue s ++ next ∧
      ∀ u, u ∈ next →
           url_in_scope (Elite.base_domain s) u ∧ u ∉ Elite.visited s
}.

(** What holds of a task of the crawl of appv0.1.py. *)
Definition elite_worker_ok `{!UrlLib} (seeds : list string) (base : string)
    (s : Elite.State) (w : Elite.Worker) : Prop :=
  match w with
  | Elite.WStart url => seed_or_scope seeds base url
  | Elite.WStatic url => url ∈ static_fetched s ∧ url ∉ dynamic_fetched s
  | Elite.WDynamic url => url ∈ dynamic_fetched s
  | Elite.WSleep | Elite.WDone => True
  end.

(** The invariant of the crawl of appv0.1.py. *)
Record elite_inv `{!UrlLib} (cfg : Config) (seeds : list string)
    (base : string) (s : Elite.State) : Prop := {
  ei_base : Elite.base_domain s = base;
  ei_lower : lower base = base;
  ei_static_once : NoDup (static_fetched s);
  ei_visited : ∀ u, u ∈ Elite.visited s ↔ u ∈ static_fetched s;
  ei_pages : length (static_fetched s) = Elite.pages s;
  ei_ceiling : Elite.pages s ≤ MAX_PAGES cfg;
  ei_dynamic_once : NoDup (dynamic_fetched s);
  ei_dynamic : ∀ u, u ∈ dynamic_fetched s → u ∈ static_fetched s;
  ei_tasks : size (Elite.tasks s) ≤ CONCURRENT cfg;
  ei_fresh : ∀ t, Elite.created s ≤ t → Elite.tasks s !! t = None;
  ei_workers :
    ∀ t w, Elite.tasks s !! t = Some w → elite_worker_ok seeds base s w;
  ei_unique :
    ∀ t t' u, Elite.tasks s !! t = Some (Elite.WStatic u) →
              Elite.tasks s !! t' = Some (Elite.WStatic u) → t = t';
  ei_queue : ∀ u, u ∈ Elite.queue s → seed_or_scope seeds base u;
  ei_fetched : ∀ u, u ∈ static_fetched s → seed_or_scope seeds base u;
  ei_emails :
    ∀ e, e ∈ Elite.emails s →
         lower e = e ∧ is_target_domain base e = Some true;
  ei_returned :
    Elite.returned s = true →
    Elite.pages s = MAX_PAGES cfg
    ∨ (Elite.queue s = [] ∧ Elite.tasks s = ∅)
}.

(** A crawl of [root] by the crawler of appv0.1.py, run through the events
    [evs]. *)
Definition elite_run `{!UrlLib} (cfg : Config) (root : string)
    (evs : list Elite.Event) : option Elite.State :=
  s0 ← Elite.crawl_begin root; Elite.run cfg s0 evs.

(** A page with an address and two links, and a crawl that fetches it. *)
Definition office_page : string :=
  "Write to office@univ.edu <a href='/staff'>staff</a> <a href='https://other.org/'>other</a>".

Definition office_events : list Elite.Event :=
  [Elite.CrawlResumes; Elite.WorkerStarts 0;
   Elite.StaticFetched 0 office_page].

(** ** The routing of links *)





(** * Properties *)

(** Closes an equation between closed terms by evaluation. *)
Ltac by_compute := vm_compute; reflexivity.

(** Unfolds the operations of the segment monad. *)
Ltac seg_simpl :=
  unfold mbind, Seg_bind, mret, Seg_ret, seg_try, seg_get, seg_do in *;
  cbn beta iota in *.

(** ** Strings *)

Section string_facts.

Implicit Types (s t p : string) (c d : ascii).

Lemma app_nil_l s : "" +:+ s = s.
Proof. reflexivity. Qed.

Lemma app_cons c s t : String c s +:+ t = String c (s +:+ t).
Proof. reflexivity. Qed.

Lemma app_nil_r s : s +:+ "" = s.
Proof. induction s as [|c s IH]; [done|]. by rewrite app_cons, IH. Qed.

Lemma app_assoc s t p : (s +:+ t) +:+ p = s +:+ (t +:+ p).
Proof. induction s as [|c s IH]; [done|]. by rewrite !app_cons, IH. Qed.

Lemma lower_app s t : lower (s +:+ t) = lower s +:+ lower t.
Proof. induction s as [|c s IH]; [done|]. rewrite app_cons. simpl. by rewrite IH. Qed.

Lemma lower_char_at c : lower_char c = "@"%char ↔ c = "@"%char.
Proof.
  destruct c as [[] [] [] [] [] [] [] []]; vm_compute; split; congruence.
Qed.

Lemma lower_char_idemp c : lower_char (lower_char c) = lower_char c.
Proof. by destruct c as [[] [] [] [] [] [] [] []]. Qed.

Lemma lower_idemp s : lower (lower s) = lower s.
Proof.
  induction s as [|c s IH]; [done|]. simpl. by rewrite lower_char_idemp, IH.
Qed.

Lemma eqb_at_lower c :
  Ascii.eqb (lower_char c) "@"%char = Ascii.eqb c "@"%char.
Proof.
  destruct (Ascii.eqb_spec c "@"%char) as [->|Hne]; [done|].
  apply Ascii.eqb_neq. by rewrite lower_char_at.
Qed.

Lemma contains_char_lower s :
  contains_char "@"%char (lower s) = contains_char "@"%char s.
Proof.
  induction s as [|c s IH]; [done|]. simpl. by rewrite eqb_at_lower, IH.
Qed.

Lemma contains_char_app c s t :
  contains_char c (s +:+ t) = contains_char c s || contains_char c t.
Proof.
  induction s as [|d s IH]; [done|].
  rewrite app_cons. simpl. by rewrite IH, orb_assoc.
Qed.

(** Without the separator there is nothing to split. *)
Lemma rsplit1_absent c s : contains_char c s = false → rsplit1 c s = [s].
Proof.
  induction s as [|d s IH]; [done|]. simpl.
  intros [Hd Hs]%orb_false_iff. by rewrite (IH Hs), Hd.
Qed.

(** With it, the split is at its last occurrence. *)
Lemma rsplit1_last c s t :
  contains_char c t = false → rsplit1 c (s +:+ String c t) = [s; t].
Proof.
  intros Ht. induction s as [|d s IH].
  - rewrite app_nil_l. simpl. by rewrite (rsplit1_absent _ _ Ht), Ascii.eqb_refl.
  - rewrite app_cons. simpl. by rewrite IH.
Qed.

(** A string that has the character splits at its last occurrence. *)
Lemma last_occurrence c s :
  contains_char c s = true →
  ∃ a b, s = a +:+ String c b ∧ contains_char c b = false.
Proof.
  induction s as [|d s IH]; [done|]. simpl.
  destruct (contains_char c s) eqn:Hs.
  - intros _. destruct (IH eq_refl) as (a & b & -> & Hb).
    by exists (String d a), b.
  - rewrite orb_false_r. intros ->%Ascii.eqb_eq. by exists "", s.
Qed.

Lemma last_occurrence_unique c a b a' b' :
  a +:+ String c b = a' +:+ String c b' →
  contains_char c b = false → contains_char c b' = false →
  a = a' ∧ b = b'.
Proof.
  intros Heq Hb Hb'.
  pose proof (rsplit1_last c a b Hb) as H1.
  rewrite Heq, (rsplit1_last c a' b' Hb') in H1. by simplify_eq.
Qed.

Lemma endswith_spec suffix s :
  endswith suffix s = true ↔ ∃ pre, s = pre +:+ suffix.
Proof.
  induction s as [|c s IH]; cbn [endswith].
  - rewrite orb_false_r. destruct (String.eqb_spec "" suffix) as [<-|Hne].
    + split; [|done]. by exists "".
    + split; [done|]. intros [[|d pre] Hpre]; [done|].
      by rewrite app_cons in Hpre.
  - rewrite orb_true_iff, IH.
    destruct (String.eqb_spec (String c s) suffix) as [<-|Hne].
    + split; [|by left]. by exists "".
    + split.
      * intros [? | [pre ->]]; [done|]. by exists (String c pre).
      * intros [[|d pre] Hpre]; [done|].
        rewrite app_cons in Hpre. simplify_eq. right. by exists pre.
Qed.

Lemma startswith_spec p s : startswith p s = true ↔ ∃ t, s = p +:+ t.
Proof.
  revert s. induction p as [|c p IH]; intros s.
  { split; [|done]. by exists s. }
  destruct s as [|d s]; simpl.
  - split; [done|]. by intros [t ?].
  - rewrite andb_true_iff, Ascii.eqb_eq, IH. split.
    + intros [-> [t ->]]. by exists t.
    + intros [t Ht]. rewrite app_cons in Ht. simplify_eq. eauto.
Qed.

(** [sub in s] is the presence of [sub] as a substring of [s]. *)
Lemma contains_spec sub s :
  contains sub s = true ↔ ∃ a b, s = a +:+ sub +:+ b.
Proof.
  induction s as [|c s IH]; cbn [contains];
    rewrite orb_true_iff, startswith_spec.
  - split.
    + intros [[t Ht]|?]; [|done]. by exists "", t.
    + intros ([|d a] & b & Hab); [left; by exists b|].
      by rewrite app_cons in Hab.
  - rewrite IH. split.
    + intros [[t Ht]|(a & b & ->)]; [by exists "", t|].
      by exists (String c a), b.
    + intros ([|d a] & b & Hab); [left; by exists b|].
      rewrite app_cons in Hab. simplify_eq. right. by exists a, b.
Qed.

(** A keyword is present exactly when it occurs at least once. *)
Lemma contains_occurrences kw s :
  contains kw s = true ↔ 0 < occurrences kw s.
Proof.
  induction s as [|c s IH]; cbn [contains occurrences].
  - destruct (startswith kw ""); simpl; split; (done || lia).
  - destruct (startswith kw (String c s)); simpl.
    + split; [lia|done].
    + by rewrite IH.
Qed.

(** The tokens of a split have no separator left in them. *)
Lemma split_on_tokens is_sep s t c :
  t ∈ split_on is_sep s → contains_char c t = true → is_sep c = false.
Proof.
  revert t. induction s as [|d s IH]; intros t; cbn [split_on].
  { by intros ->%list_elem_of_singleton. }
  destruct (is_sep d) eqn:Hd.
  - intros [->|?]%elem_of_cons; [done|eauto].
  - destruct (split_on is_sep s) as [|t0 ts] eqn:Hs.
    + intros ->%list_elem_of_singleton. simpl.
      rewrite orb_false_r. by intros ->%Ascii.eqb_eq.
    + intros [->|Hin]%elem_of_cons.
      * simpl. intros [->%Ascii.eqb_eq|Hc]%orb_true_iff; [done|].
        apply (IH t0); [left|done].
      * apply IH. by right.
Qed.

Lemma in_scope_spec base domain :
  in_scope base domain = true ↔
  domain = base ∨ ∃ pre, domain = pre +:+ "." +:+ base.
Proof.
  unfold in_scope. by rewrite orb_true_iff, String.eqb_eq, endswith_spec.
Qed.

End string_facts.

(** ** The domain scope filter *)

Lemma is_target_domain_split base loc dom :
  contains_char "@"%char dom = false →
  is_target_domain base (loc +:+ String "@"%char dom)
  = Some (in_scope base (lower dom)).
Proof.
  intros Hdom. unfold is_target_domain.
  rewrite contains_char_app. simpl. rewrite orb_true_r. simpl.
  rewrite lower_app. simpl.
  change (lower_char "@"%char) with "@"%char.
  rewrite rsplit1_last; [done|]. by rewrite contains_char_lower.
Qed.

Lemma is_target_domain_no_at base e :
  contains_char "@"%char e = false → is_target_domain base e = Some false.
Proof. intros He. unfold is_target_domain. by rewrite He. Qed.

Lemma is_target_domain_ok base e :
  is_target_domain base e = Some true ↔ scope_rule base e.
Proof.
  split.
  - intros H. destruct (contains_char "@"%char e) eqn:He.
    + destruct (last_occurrence _ _ He) as (loc & dom & -> & Hdom).
      rewrite is_target_domain_split in H by done.
      injection H as Hin. apply in_scope_spec in Hin. by exists loc, dom.
    + by rewrite is_target_domain_no_at in H.
  - intros (loc & dom & -> & Hdom & Hin%in_scope_spec).
    rewrite is_target_domain_split by done. by rewrite Hin.
Qed.

Lemma is_target_domain_total base e : ∃ b, is_target_domain base e = Some b.
Proof.
  destruct (contains_char "@"%char e) eqn:He.
  - destruct (last_occurrence _ _ He) as (loc & dom & -> & Hdom).
    rewrite is_target_domain_split by done. eauto.
  - rewrite is_target_domain_no_at by done. eauto.
Qed.

Lemma AppV01_is_target_domain_eq e base :
  AppV01.is_target_domain e base = is_target_domain (lower base) e.
Proof. reflexivity. Qed.

(** C1: [is_target_domain] never raises; it answers true exactly when the
    e-mail has an [@] and, split at its last [@], its lowercased domain part
    is the base domain or ends with a dot followed by the base domain; it
    answers false on every string without [@].  The variant of appv0.1.py
    does the same with the base domain lowercased. *)
Theorem C1_is_target_domain_scope (base e : string) :
  (∃ b, is_target_domain base e = Some b) ∧
  (is_target_domain base e = Some true ↔ scope_rule base e) ∧
  (contains_char "@"%char e = false → is_target_domain base e = Some false) ∧
  (∃ b, AppV01.is_target_domain e base = Some b) ∧
  (AppV01.is_target_domain e base = Some true ↔ scope_rule (lower base) e) ∧
  (contains_char "@"%char e = false →
   AppV01.is_target_domain e base = Some false).
Proof.
  rewrite AppV01_is_target_domain_eq.
  split_and!;
    auto using is_target_domain_total, is_target_domain_ok,
      is_target_domain_no_at.
Qed.

(** ** The classifier *)

Lemma contains_index sub s :
  contains sub s = true → ∃ i, index sub s = Some i.
Proof.
  induction s as [|c s IH]; cbn [contains index];
    destruct (startswith sub _); eauto; [done|].
  intros [i ->]%IH. by exists (S i).
Qed.

Lemma snippet_of_lines_total lines email :
  ∃ snippet, snippet_of_lines lines email = Some snippet.
Proof.
  induction lines as [|line lines IH]; cbn [snippet_of_lines]; [eauto|].
  destruct (contains email (lower line)) eqn:Hc; [|done].
  destruct (contains_index _ _ Hc) as [i ->]. simpl. eauto.
Qed.

(** [classify_profile] never raises, and its result is made of the parts
    computed by the definitions above. *)
Lemma classify_profile_total text email :
  ∃ snippet,
    classify_profile text email =
    let clean_text := collapse_ws false (lower text) in
    let sen := score_table SENIORITY_KEYWORDS "unknown" clean_text in
    let dep := score_table DEPT_KEYWORDS "General" clean_text in
    Some {| ai_name := infer_name email;
            ai_seniority := sen.1;
            ai_department := dep.1;
            ai_confidence :=
              py_min (confidence_score (infer_name email) sen.1 dep.1
                        sen.2 dep.2) 0.95;
            ai_raw_snippet := snippet |}.
Proof.
  destruct (snippet_of_lines_total
              (split_on (λ c, Ascii.eqb c newline) text) email) as [sn Hsn].
  exists sn. unfold classify_profile, _get_snippet.
  destruct (score_table SENIORITY_KEYWORDS _ _), (score_table DEPT_KEYWORDS _ _).
  by rewrite Hsn.
Qed.

Lemma score_table_snoc table entry default clean :
  score_table (table ++ [entry]) default clean
  = score_step clean (score_table table default clean) entry.
Proof. unfold score_table. by rewrite fold_left_app. Qed.

(** The scoring loop keeps the first entry with the highest score, and the
    default when every score is zero. *)
Lemma score_table_spec clean table default :
  let res := score_table table default clean in
  (res.2 = 0 ∧ res.1 = default ∧
   ∀ j e, table !! j = Some e → keyword_score e.2 clean = 0)
  ∨ (0 < res.2 ∧ ∃ i, first_best clean table i res.1 res.2).
Proof.
  induction table as [|x table IH] using rev_ind; simpl.
  { left. split_and!; [done..|]. by intros j e ?. }
  rewrite score_table_snoc. unfold score_step.
  destruct (score_table table default clean) as [b m]; simpl in *.
  destruct (Nat.ltb_spec m (keyword_score x.2 clean)) as [Hlt|Hge]; simpl.
  - right. split; [lia|]. exists (length table), x.2. split_and!.
    + rewrite lookup_app_r, Nat.sub_diag by done. by destruct x.
    + done.
    + intros j e Hj He. rewrite lookup_app_l in He by done.
      destruct IH as [(-> & _ & Hz)|(_ & i & kws & _ & _ & _ & Hle)].
      * rewrite (Hz _ _ He). lia.
      * specialize (Hle _ _ He). lia.
    + intros j e [[Hj He]|[-> <-]]%lookup_snoc_Some; [|done].
      destruct IH as [(-> & _ & Hz)|(_ & i & kws & _ & _ & _ & Hle)].
      * rewrite (Hz _ _ He). lia.
      * specialize (Hle _ _ He). lia.
  - destruct IH as [(-> & -> & Hz)|(Hpos & i & kws & Hi & Hs & Hfirst & Hle)].
    + left. split_and!; [done..|].
      intros j e [[Hj He]|[-> <-]]%lookup_snoc_Some; [by eapply Hz|lia].
    + right. split; [done|]. exists i, kws. split_and!.
      * rewrite lookup_app_l; [done|]. by eapply lookup_lt_Some.
      * done.
      * intros j e Hj He. eapply Hfirst; [done|].
        rewrite lookup_app_l in He; [done|].
        apply lookup_lt_Some in Hi. lia.
      * intros j e [[Hj He]|[-> <-]]%lookup_snoc_Some; [by eapply Hle|lia].
Qed.

(** Two entries that are both the first best are the same entry. *)
Lemma first_best_unique clean table i j level level' score score' :
  first_best clean table i level score →
  first_best clean table j level' score' →
  i = j ∧ level = level' ∧ score = score'.
Proof.
  intros (kws & Hi & Hs & Hfi & Hle) (kws' & Hj & Hs' & Hfj & Hle').
  assert (i = j) as ->.
  { pose proof (Hle _ _ Hj) as H1. pose proof (Hle' _ _ Hi) as H2.
    simpl in *. destruct (Nat.lt_trichotomy i j) as [Hlt|[->|Hlt]]; [|done|].
    - pose proof (Hfj _ _ Hlt Hi). simpl in *. lia.
    - pose proof (Hfi _ _ Hlt Hj). simpl in *. lia. }
  by simplify_eq.
Qed.

Lemma seniority_level_at i j level kws kws' :
  SENIORITY_KEYWORDS !! i = Some (level, kws) →
  SENIORITY_KEYWORDS !! j = Some (level, kws') → i = j.
Proof.
  intros Hi Hj.
  do 4 (destruct i as [|i];
        [do 4 (destruct j as [|j]; [by simplify_eq/=|]); by simplify_eq/= |]).
  done.
Qed.

Lemma seniority_level_known i kws :
  SENIORITY_KEYWORDS !! i = Some ("unknown", kws) → False.
Proof. do 4 (destruct i as [|i]; [by simplify_eq/=|]). done. Qed.

(** C4, as the source has it: the tiers are scored in the order executive,
    senior, mid, junior; the score of a tier is the number of its keywords
    that occur in the lowercased, whitespace-normalized text, each keyword
    counted once however often it occurs; the first tier with the highest
    score wins, and seniority is unknown if and only if every tier scores
    zero. *)
Theorem C4_seniority_first_highest (text email : string) :
  ∃ r, classify_profile text email = Some r ∧
    let clean_text := collapse_ws false (lower text) in
    map fst SENIORITY_KEYWORDS = ["executive"; "senior"; "mid"; "junior"] ∧
    (∀ kws, keyword_score kws clean_text
            = length (List.filter (λ kw, contains kw clean_text) kws)) ∧
    (ai_seniority r = "unknown" ↔
     ∀ level kws, (level, kws) ∈ SENIORITY_KEYWORDS →
                  keyword_score kws clean_text = 0) ∧
    (∀ i level kws,
       SENIORITY_KEYWORDS !! i = Some (level, kws) →
       (ai_seniority r = level ↔
        0 < keyword_score kws clean_text ∧
        first_best clean_text SENIORITY_KEYWORDS i level
          (keyword_score kws clean_text))).
Proof.
  destruct (classify_profile_total text email) as [sn ->].
  eexists. split; [done|]. cbn zeta. cbn [ai_seniority].
  set (clean := collapse_ws false (lower text)).
  pose proof (score_table_spec clean SENIORITY_KEYWORDS "unknown") as Hspec.
  cbn zeta in Hspec.
  destruct (score_table SENIORITY_KEYWORDS "unknown" clean) as [lvl m].
  simpl in Hspec. cbn [fst].
  split_and!; [done|done| |].
  - split.
    + intros ->. destruct Hspec as [(_ & _ & Hz)|(_ & i & kws & Hi & _)].
      * intros level kws [j Hj]%list_elem_of_lookup. apply (Hz _ _ Hj).
      * by destruct (seniority_level_known _ _ Hi).
    + intros Hz. destruct Hspec as [(_ & -> & _)|(Hm & i & kws & Hi & Hs & _)].
      * done.
      * rewrite (Hz lvl kws) in Hs; [lia|].
        apply list_elem_of_lookup. eauto.
  - intros i level kws Hi. split.
    + intros ->.
      destruct Hspec as [(_ & -> & _)|(Hm & j & kws' & Hj & Hs & Hf & Hle)].
      * by destruct (seniority_level_known _ _ Hi).
      * assert (j = i) as -> by eauto using seniority_level_at.
        rewrite Hi in Hj. injection Hj as <-. subst m.
        split; [done|]. by exists kws.
    + intros [Hpos Hbest].
      destruct Hspec as [(_ & _ & Hz)|(Hm & j & Hj)].
      * pose proof (Hz _ _ Hi) as H0. simpl in H0. lia.
      * by destruct (first_best_unique _ _ _ _ _ _ _ _ Hbest Hj) as (_ & -> & _).
Qed.

(** C4 as stated fails: with the score of a tier read as the count of
    keyword occurrences, two occurrences of "professor" outweigh one of
    "dean", while the source counts each keyword once and keeps the first
    tier. *)
Lemma C4_counterexample :
  ai_seniority <$> classify_profile deans_text "lee@univ.edu" = Some "executive"
  ∧ seniority_by_occurrences deans_text = "senior"
  ∧ ai_seniority <$> classify_profile deans_text "lee@univ.edu"
    ≠ Some (seniority_by_occurrences deans_text).
Proof. vm_compute. by split_and!. Qed.

Lemma infer_name_tokens email :
  infer_name email =
  match name_tokens email with
  | t1 :: t2 :: _ =>
      if (1 <? String.length t1) && (1 <? String.length t2)
      then capitalize t1 +:+ " " +:+ capitalize t2
      else ""
  | _ => ""
  end.
Proof.
  unfold infer_name. fold (name_tokens email).
  destruct (name_tokens email) as [|t1 [|t2 ts]]; [done..|].
  cbn [length firstn forallb map join]. rewrite andb_true_r.
  by destruct (1 <? String.length t1), (1 <? String.length t2).
Qed.

(** C5, as the source has it: the local part is split on [.], [_] and [-];
    when there are at least two tokens and the first two each have a length
    greater than 1, the name is these two tokens, capitalized and joined by
    a blank; otherwise it is empty. *)
Theorem C5_name_from_first_two_tokens (text email : string) :
  ∃ r, classify_profile text email = Some r ∧
    ai_name r =
    match name_tokens email with
    | t1 :: t2 :: _ =>
        if (1 <? String.length t1) && (1 <? String.length t2)
        then capitalize t1 +:+ " " +:+ capitalize t2
        else ""
    | _ => ""
    end.
Proof.
  destruct (classify_profile_total text email) as [sn ->].
  eexists. split; [done|]. apply infer_name_tokens.
Qed.

(** C5 as stated fails: the local part [j.smith.jones] has two tokens
    longer than one character, yet no name is inferred, because the first
    token is a single letter.  Read the other way (every token longer than
    one character) the claim fails too: [john.smith.x] gets a name. *)
Lemma C5_counterexample :
  name_tokens initial_email = ["j"; "smith"; "jones"]
  ∧ ai_name <$> classify_profile "" initial_email = Some ""
  ∧ name_as_claimed initial_email = "J Smith"
  ∧ ai_name <$> classify_profile "" initial_email ≠ Some (name_as_claimed initial_email)
  ∧ name_tokens short_last_email = ["john"; "smith"; "x"]
  ∧ ai_name <$> classify_profile "" short_last_email = Some "John Smith"
  ∧ name_as_claimed_all short_last_email = "".
Proof. vm_compute. by split_and!. Qed.

Lemma confidence_score_steps name seniority department max_score dept_score :
  confidence_score name seniority department max_score dept_score =
  add_if (2 <? max_score + dept_score) 0.2
    (add_if (negb (String.eqb department "General")) 0.15
       (add_if (negb (String.eqb seniority "unknown")) 0.15
          (add_if (negb (String.eqb name "")) 0.2 0.3))).
Proof. reflexivity. Qed.



(** ** Link and document discovery *)

Section discovery.

Context `{!UrlLib}.

(** One raw link that resolves to [full] with host [domain]. *)
Lemma link_step (Q : string → string → Prop)
    (acc acc' res links : list string) (raw : string) :
  (∀ full, full ∈ res ↔ full ∈ acc' ∨ ∃ r, r ∈ links ∧ Q r full) →
  (∀ full, full ∈ acc' ↔ full ∈ acc ∨ Q raw full) →
  ∀ full, full ∈ res ↔ full ∈ acc ∨ ∃ r, r ∈ raw :: links ∧ Q r full.
Proof.
  intros Hres Hacc full. rewrite Hres, Hacc. split.
  - intros [[?|?]|(r & ? & ?)]; [by left|right..].
    + exists raw. split; [left|done].
    + exists r. split; [by right|done].
  - intros [?|(r & [->|?]%elem_of_cons & ?)]; [by left; left|by left; right|].
    right. by exists r.
Qed.

(** The link loop does not change the state, and it appends exactly the
    resolved links that are in scope and not yet visited. *)
Lemma next_links_spec url links acc s s' res :
  next_links url links acc s = (s', Some res) →
  s' = s ∧
  ∀ full, full ∈ res ↔
    full ∈ acc ∨
    ∃ raw, raw ∈ links ∧ resolve url raw = Some full ∧
           url_in_scope (base_domain s) full ∧ full ∉ visited s.
Proof.
  revert acc. induction links as [|raw links IH]; intros acc Hrun.
  { injection Hrun as <- <-. split; [done|]. intros full. split; [auto|].
    intros [?|(raw & []%elem_of_nil & _)]; done. }
  cbn [next_links] in Hrun.
  assert (∀ full domain acc',
    resolve url raw = Some full → netloc full = Some domain →
    acc' = (if in_scope (base_domain s) (lower domain)
               && negb (bool_decide (full ∈ visited s))
            then acc ++ [full] else acc) →
    next_links url links acc' s = (s', Some res) →
    s' = s ∧
    ∀ full, full ∈ res ↔
      full ∈ acc ∨
      ∃ raw0, raw0 ∈ raw :: links ∧ resolve url raw0 = Some full ∧
              url_in_scope (base_domain s) full ∧ full ∉ visited s) as Hstep.
  { intros f d acc' Hf Hd -> [-> Hres]%IH. split; [done|].
    eapply link_step; [exact Hres|]. intros full. rewrite Hf.
    destruct (in_scope _ _) eqn:Hin; simpl.
    - case_bool_decide as Hv; simpl.
      + split; [by left|]. intros [?|(? & _ & ?)]; [done|]. by simplify_eq.
      + rewrite elem_of_app, list_elem_of_singleton. split.
        * intros [? | ->]; [by left|]. right. split_and!; [done| |done].
          by exists d.
        * intros [?|(? & _)]; [by left|]. right. by simplify_eq.
    - split; [by left|]. intros [?|(? & (d' & Hd' & Hin') & _)]; [done|].
      simplify_eq. congruence. }
  destruct (startswith "http://" raw || startswith "https://" raw) eqn:Habs.
  - seg_simpl. destruct (netloc raw) as [d|] eqn:Hd; [|done].
    eapply Hstep; [unfold resolve; by rewrite Habs|done..|].
    by destruct (_ && _).
  - destruct (startswith "/" raw) eqn:Hrel.
    + seg_simpl. destruct (urljoin url raw) as [f|] eqn:Hf; [|done].
      destruct (netloc f) as [d|] eqn:Hd; [|done].
      eapply Hstep; [unfold resolve; by rewrite Habs, Hrel|done..|].
      by destruct (_ && _).
    + apply IH in Hrun as [-> Hres]. split; [done|].
      eapply link_step; [exact Hres|]. intros full.
      unfold resolve. rewrite Habs, Hrel.
      split; [by left|]. intros [?|(? & _)]; done.
Qed.

End discovery.

(** ** The crawl *)

Section crawl_facts.

Context `{!UrlLib}.
Variable cfg : Config.

Implicit Types (s : State) (t : nat) (w : Worker).

Implicit Types (ok : Call → bool).

Lemma later_refl ok s : later ok s s.
Proof. split; try done. by exists []. Qed.

Lemma later_trans ok s1 s2 s3 : later ok s1 s2 → later ok s2 s3 → later ok s1 s3.
Proof.
  intros [] []. split; try congruence; try (by etrans).
  destruct later_calls0 as (n1 & E1 & F1), later_calls1 as (n2 & E2 & F2).
  exists (n2 ++ n1). rewrite E2, E1, (assoc_L (++)). split; [done|].
  by apply Forall_app.
Qed.

Lemma later_weaken ok ok' s s' :
  (∀ c, ok c = true → ok' c = true) → later ok s s' → later ok' s s'.
Proof.
  intros Hok []. split; try done.
  destruct later_calls0 as (new & E & F). exists new. split; [done|].
  eapply Forall_impl; [exact F|]. auto.
Qed.

Lemma later_log ok c s : ok c = true → later ok s (log c s).
Proof. intros Hc. split; try done. exists [c]. split; [done|]. by constructor. Qed.

Lemma later_set_profile ok email p s :
  profiles s !! email = None → later ok s (set_profile email p s).
Proof.
  intros Hnew. split; try done; [|by exists []].
  by apply insert_subseteq.
Qed.

Lemma later_add_document ok full_url s : later ok s (add_document full_url s).
Proof.
  split; try done; [|by exists []].
  apply union_subseteq_r.
Qed.

Lemma later_enqueue ok urls s : later ok s (enqueue urls s).
Proof. split; try done; [|by exists []]. by apply prefix_app_r. Qed.

(** The page loop stores, under keys that were free, records that carry
    their key. *)
Lemma store_page_emails_later html url emails s :
  let s' := (store_page_emails html url emails s).1 in
  later page_call s s' ∧
  ∀ key r, profiles s' !! key = Some r →
           profiles s !! key = Some r ∨ (p_email r = key ∧ key ∈ emails).
Proof.
  revert s. induction emails as [|email emails IH]; intros s; simpl.
  { split; [apply later_refl|auto]. }
  seg_simpl. destruct (profiles s !! email) eqn:Hknown.
  - destruct (IH s) as [Hl Hp]. split; [done|].
    intros key r Hk. apply Hp in Hk as [?|[? ?]]; [by left|right].
    split; [done|]. apply elem_of_cons. by right.
  - destruct (classify_profile html email) as [ai|]; simpl.
    + match goal with |- context [store_page_emails _ _ _ ?s1] =>
        destruct (IH s1) as [Hl Hp] end.
      split.
      * eapply later_trans; [|exact Hl].
        eapply later_trans; [|by apply later_log].
        eapply later_trans; [|by apply later_set_profile].
        by apply later_log.
      * intros key r Hk. rewrite elem_of_cons.
        apply Hp in Hk as [Hk|[? ?]]; [|by auto].
        simpl in Hk. destruct (decide (key = email)) as [->|Hne].
        -- rewrite lookup_insert_eq in Hk. injection Hk as <-. by auto.
        -- rewrite lookup_insert_ne in Hk by done. by left.
    + split; [by apply later_log|]. simpl. auto.
Qed.

(** The document loop stores, under keys that were free, the fixed
    document record, and calls nothing but the dossier writer. *)
Lemma store_doc_emails_later full_url emails s :
  let s' := (store_doc_emails full_url emails s).1 in
  later doc_call s s' ∧
  ∀ key r, profiles s' !! key = Some r →
           profiles s !! key = Some r
           ∨ (r = doc_record key full_url ∧ key ∈ emails).
Proof.
  revert s. induction emails as [|email emails IH]; intros s; simpl.
  { split; [apply later_refl|auto]. }
  seg_simpl. destruct (profiles s !! email) eqn:Hknown.
  - destruct (IH s) as [Hl Hp]. split; [done|].
    intros key r Hk. apply Hp in Hk as [?|[? ?]]; [by left|right].
    split; [done|]. apply elem_of_cons. by right.
  - match goal with |- context [store_doc_emails _ _ ?s1] =>
      destruct (IH s1) as [Hl Hp] end.
    split.
    + eapply later_trans; [|exact Hl].
      eapply later_trans; [|by apply later_log].
      by apply later_set_profile.
    + intros key r Hk. rewrite elem_of_cons.
      apply Hp in Hk as [Hk|[? ?]]; [|by auto].
      simpl in Hk. destruct (decide (key = email)) as [->|Hne].
      * rewrite lookup_insert_eq in Hk. injection Hk as <-. by auto.
      * rewrite lookup_insert_ne in Hk by done. by left.
Qed.

Lemma next_links_state url links acc s : (next_links url links acc s).1 = s.
Proof.
  revert acc. induction links as [|raw links IH]; intros acc; [done|].
  cbn [next_links]. seg_simpl.
  repeat (match goal with
          | |- context [if ?b then _ else _] => destruct b
          | |- context [match ?o with Some _ => _ | None => _ end] =>
              destruct o
          end; try done).
Qed.

Lemma scrape_page_end_state url html s : (scrape_page_end cfg url html s).1 = s.
Proof.
  unfold scrape_page_end. seg_simpl.
  destruct (_ <? _); [apply next_links_state|done].
Qed.

(** The document loop, then the end of the page, up to the next
    suspension. *)
Lemma mine_documents_later url html links s :
  later doc_call s (mine_documents cfg url html links s).1.
Proof.
  revert s. induction links as [|link links IH]; intros s; cbn [mine_documents].
  - seg_simpl. pose proof (scrape_page_end_state url html s) as Hs.
    destruct (scrape_page_end cfg url html s) as [s' [next_urls|]];
      simpl in *; subst s'; [apply later_enqueue|apply later_refl].
  - seg_simpl. destruct (urljoin url link) as [full|]; [|apply later_refl].
    case_bool_decide; [apply IH|]. simpl.
    eapply later_trans; [apply later_add_document|by apply later_log].
Qed.

Lemma mine_documents_profiles url html links s :
  profiles (mine_documents cfg url html links s).1 = profiles s.
Proof.
  revert s. induction links as [|link links IH]; intros s; cbn [mine_documents].
  - seg_simpl. pose proof (scrape_page_end_state url html s) as Hs.
    by destruct (scrape_page_end cfg url html s) as [s' [next_urls|]];
      simpl in *; subst s'.
  - seg_simpl. destruct (urljoin url link) as [full|]; [|done].
    case_bool_decide; [apply IH|done].
Qed.

(** The document loop adds nothing to the document set but the resolved
    links of its list. *)
Lemma mine_documents_only url html links s d :
  d ∈ documents (mine_documents cfg url html links s).1 →
  d ∈ documents s ∨ ∃ link, link ∈ links ∧ urljoin url link = Some d.
Proof.
  revert s. induction links as [|link links IH]; intros s; cbn [mine_documents].
  - seg_simpl. pose proof (scrape_page_end_state url html s) as Hs.
    destruct (scrape_page_end cfg url html s) as [s' [next_urls|]];
      simpl in *; subst s'; auto.
  - seg_simpl. destruct (urljoin url link) as [full|] eqn:Hfull; [|auto].
    case_bool_decide.
    + intros [?|(l & ? & ?)]%IH; [by left|right].
      exists l. split; [by right|done].
    + simpl. intros [->%elem_of_singleton|?]%elem_of_union; [right|by left].
      exists link. split; [left|done].
Qed.

Lemma doc_call_page_call c : doc_call c = true → page_call c = true.
Proof. by destruct c. Qed.

Lemma set_add_lower x emails :
  Forall (λ e, lower e = e) emails →
  Forall (λ e, lower e = e) (set_add (lower x) emails).
Proof.
  intros Hall. unfold set_add. case_bool_decide; [done|].
  apply Forall_app. split; [done|]. constructor; [|done]. apply lower_idemp.
Qed.

(** Every e-mail the extraction loop collects is in lower case. *)
Lemma add_target_emails_lower base std_emails emails :
  Forall (λ e, lower e = e) emails →
  Forall (λ e, lower e = e) (add_target_emails base std_emails emails).1.
Proof.
  revert emails. induction std_emails as [|email rest IH]; intros emails Hall.
  { done. }
  cbn [add_target_emails].
  destruct (is_target_domain base email) as [[]|]; [|by apply IH|done].
  apply IH. by apply set_add_lower.
Qed.

Lemma extract_and_clean_emails_lower base text emails :
  extract_and_clean_emails base text = Some emails →
  Forall (λ e, lower e = e) emails.
Proof.
  unfold extract_and_clean_emails.
  pose proof (add_target_emails_lower base (findall email_pattern text) []
                (Forall_nil_2 _)) as Hall.
  destruct (add_target_emails _ _ _) as [es []]; [done|].
  by intros [= <-].
Qed.

Lemma extract_emails_from_doc_lower base tool_output :
  Forall (λ e, lower e = e) (extract_emails_from_doc base tool_output).
Proof.
  destruct tool_output as [text|]; [|by constructor].
  by apply add_target_emails_lower.
Qed.

(** [scrape_page] after the fetch: new records carry their key, which is
    in lower case. *)
Lemma scrape_page_fetched_later url html s :
  let s' := (scrape_page_fetched cfg url html s).1 in
  later page_call s s' ∧
  ∀ key r, profiles s' !! key = Some r →
           profiles s !! key = Some r ∨ (p_email r = key ∧ lower key = key).
Proof.
  unfold scrape_page_fetched. destruct (String.eqb html ""); simpl.
  { seg_simpl. split; [apply later_enqueue|auto]. }
  seg_simpl.
  destruct (extract_and_clean_emails (base_domain s) html) as [emails|] eqn:He.
  2:{ split; [apply later_refl|auto]. }
  apply extract_and_clean_emails_lower in He.
  destruct (store_page_emails_later html url emails s) as [Hl Hp]. simpl in *.
  destruct (store_page_emails html url emails s) as [s1 [[]|]]; simpl in *.
  - split.
    + eapply later_trans; [exact Hl|].
      eapply later_weaken; [apply doc_call_page_call|].
      apply mine_documents_later.
    + intros key r. rewrite mine_documents_profiles. intros Hk.
      apply Hp in Hk as [?|[? Hin]]; [by left|right]. split; [done|].
      by eapply (proj1 (Forall_forall _ _) He).
  - split; [done|]. intros key r Hk.
    apply Hp in Hk as [?|[? Hin]]; [by left|right]. split; [done|].
    by eapply (proj1 (Forall_forall _ _) He).
Qed.

(** [scrape_page] after a download: new records are document records of
    the downloaded URL, and the classifier is not called. *)
Lemma scrape_page_downloaded_later url html full_url rest doc_path out s :
  let s' :=
    (scrape_page_downloaded cfg url html full_url rest doc_path out s).1 in
  later doc_call s s' ∧
  ∀ key r, profiles s' !! key = Some r →
           profiles s !! key = Some r
           ∨ (r = doc_record key full_url ∧ lower key = key ∧
              doc_path ≠ "" ∧
              key ∈ extract_emails_from_doc (base_domain s) out).
Proof.
  unfold scrape_page_downloaded. seg_simpl.
  destruct (String.eqb_spec doc_path "") as [->|Hpath]; simpl.
  { split; [apply mine_documents_later|].
    intros key r. rewrite mine_documents_profiles. auto. }
  pose proof (extract_emails_from_doc_lower (base_domain s) out) as He.
  destruct (store_doc_emails_later full_url
              (extract_emails_from_doc (base_domain s) out) s) as [Hl Hp].
  simpl in *.
  destruct (store_doc_emails _ _ s) as [s1 [[]|]]; simpl in *.
  - split; [eapply later_trans; [exact Hl|apply mine_documents_later]|].
    intros key r. rewrite mine_documents_profiles. intros Hk.
    apply Hp in Hk as [?|[? Hin]]; [by left|right]. split_and!; try done.
    by eapply (proj1 (Forall_forall _ _) He).
  - split; [done|]. intros key r Hk.
    apply Hp in Hk as [?|[? Hin]]; [by left|right]. split_and!; try done.
    by eapply (proj1 (Forall_forall _ _) He).
Qed.

Lemma resume_eq t (m : Seg Worker) s :
  resume t m s = set_task t (default WDone (m s).2) (m s).1.
Proof. unfold resume. by destruct (m s) as [s1 [w|]]. Qed.

(** The steps of the system: the scheduler, the first segment of a worker,
    and everything a worker does later. *)
Lemma exec_cases s ev s' :
  exec cfg s ev = Some s' →
  (ev = CrawlResumes ∧ returned s = false ∧ s' = crawl_resume cfg s)
  ∨ (∃ t url, ev = WorkerStarts t ∧ tasks s !! t = Some (WStart url) ∧
              s' = resume t (scrape_page_begin cfg url) s)
  ∨ (∃ t w s1,
       ev ≠ CrawlResumes ∧ tasks s !! t = Some w ∧ later page_call s s1 ∧
       (∀ key r, profiles s1 !! key = Some r →
                 profiles s !! key = Some r
                 ∨ (p_email r = key ∧ lower key = key)) ∧
       (s' = discard_task t s1 ∨ ∃ w', s' = set_task t w' s1)).
Proof.
  destruct ev as [|t|t [html|]|t doc_path out|t|t]; simpl.
  - destruct (returned s) eqn:Hr; [done|]. intros [= <-]. by left.
  - destruct (tasks s !! t) as [[]|] eqn:Ht; try done.
    intros [= <-]. right; left. eauto.
  - destruct (tasks s !! t) as [[]|] eqn:Ht; try done.
    intros [= <-]. right; right.
    destruct (scrape_page_fetched_later url html s) as [Hl Hp].
    eexists t, _, _. split_and!; [done|done|exact Hl|exact Hp|].
    right. rewrite resume_eq. eauto.
  - destruct (tasks s !! t) as [[]|] eqn:Ht; try done.
    intros [= <-]. right; right.
    eexists t, _, s. split_and!; [done|done|apply later_refl|auto|eauto].
  - destruct (tasks s !! t) as [[]|] eqn:Ht; try done.
    intros [= <-]. right; right.
    destruct (scrape_page_downloaded_later url html full_url rest doc_path
                out s) as [Hl Hp].
    eexists t, _, _. split_and!; [done|done| | |].
    + eapply later_weaken; [apply doc_call_page_call|exact Hl].
    + intros key r Hk. apply Hp in Hk as [?|(-> & ? & _)]; auto.
    + right. rewrite resume_eq. eauto.
  - destruct (tasks s !! t) as [[]|] eqn:Ht; try done.
    intros [= <-]. right; right.
    eexists t, _, s. split_and!; [done|done|apply later_refl|auto|eauto].
  - destruct (tasks s !! t) as [[]|] eqn:Ht; try done.
    intros [= <-]. right; right.
    eexists t, _, s. split_and!; [done|done|apply later_refl|auto|eauto].
Qed.

Lemma fetched_later ok s s' :
  (∀ c, ok c = true → is_fetch c = false) →
  later ok s s' → fetched s' = fetched s.
Proof.
  intros Hok [_ _ _ _ _ _ _ _ _ _ (new & E & F)]. unfold fetched. rewrite E.
  rewrite omap_app. clear E.
  induction F as [|c new Hc F IH]; [done|]. apply Hok in Hc.
  by destruct c.
Qed.

Lemma page_call_not_fetch c : page_call c = true → is_fetch c = false.
Proof. by destruct c. Qed.

(** The inner loop of [crawl] numbers its tasks from [n] on. *)
Lemma launch_fresh q ts n q' ts' n' :
  launch cfg q ts n = (q', ts', n') →
  (∀ t, n ≤ t → ts !! t = None) →
  n ≤ n' ∧ (∀ t, n' ≤ t → ts' !! t = None).
Proof.
  revert ts n. induction q as [|url q IH]; intros ts n; cbn [launch].
  { intros [= <- <- <-] Hfresh. auto. }
  destruct (size ts <? CONCURRENT cfg); [|intros [= <- <- <-]; auto].
  intros Hl Hfresh. apply IH in Hl as [? ?]; [split; [lia|done]|].
  intros t Ht. rewrite lookup_insert_ne by lia. apply Hfresh. lia.
Qed.

Lemma crawl_inv_exec s ev s' :
  exec cfg s ev = Some s' → crawl_inv cfg s → crawl_inv cfg s'.
Proof.
  intros Hex (Hnd & Hvis & Hlen & Hmax & Hprof & Hret & Hfresh).
  apply exec_cases in Hex
    as [(-> & Hr & ->)|[(t & url & -> & Ht & ->)|(t & w & s1 & _ & Ht & Hl & Hp & Hs')]].
  - unfold crawl_resume.
    destruct (_ && _) eqn:Hcond.
    + destruct (launch cfg (queue s) (tasks s) (created s)) as [[q ts] n] eqn:Hla.
      apply launch_fresh in Hla as [? ?]; [|done].
      split_and!; try done. simpl. by rewrite Hr.
    + split_and!; try done. simpl. intros _.
      apply andb_false_iff in Hcond as [Hcond|Hcond].
      * right. apply orb_false_iff in Hcond as [Hq Hts].
        apply negb_false_iff, bool_decide_eq_true in Hq, Hts. done.
      * left. apply Nat.ltb_ge in Hcond. lia.
  - rewrite resume_eq. unfold scrape_page_begin.
    destruct (bool_decide (url ∈ visited s) || (MAX_PAGES cfg <=? pages s))
      eqn:Hguard; simpl.
    + split_and!; try done.
      * simpl. intros Hr. destruct (Hret Hr) as [?|[_ Hts]]; [by left|].
        rewrite Hts in Ht. done.
      * simpl. intros t' Ht'. destruct (decide (t = t')) as [<-|Hne].
        -- rewrite Hfresh in Ht by done. done.
        -- rewrite lookup_insert_ne by done. by apply Hfresh.
    + apply orb_false_iff in Hguard as [Hv Hp].
      apply bool_decide_eq_false in Hv. apply Nat.leb_gt in Hp.
      assert (url ∉ fetched s) by (intros ?%Hvis; done).
      split_and!; simpl.
      * change (NoDup (url :: fetched s)). by constructor.
      * intros u. change (u ∈ url :: fetched s → u ∈ {[url]} ∪ visited s).
        intros [->|?%Hvis]%elem_of_cons; apply elem_of_union;
          [left; by apply elem_of_singleton|by right].
      * change (S (length (fetched s)) = S (pages s)). by rewrite Hlen.
      * lia.
      * done.
      * intros Hr. destruct (Hret Hr) as [?|[_ Hts]]; [lia|].
        rewrite Hts in Ht. done.
      * intros t' Ht'. destruct (decide (t = t')) as [<-|Hne].
        -- rewrite Hfresh in Ht by done. done.
        -- rewrite lookup_insert_ne by done. by apply Hfresh.
  - pose proof (fetched_later _ _ _ page_call_not_fetch Hl) as Hf.
    destruct Hl as [_ _ Hv' Hp' Ht' Hc' Hr' _ _ _ _].
    assert (profiles_ok s1) as Hprof1.
    { intros key r Hk. apply Hp in Hk as [Hk|?]; [by apply Hprof|done]. }
    assert (returned s1 = true → pages s1 = MAX_PAGES cfg) as Hret1.
    { rewrite Hr', Hp'. intros Hr. destruct (Hret Hr) as [?|[_ Hts]]; [done|].
      rewrite Hts in Ht. done. }
    assert (fetched s' = fetched s1 ∧ visited s' = visited s1 ∧
            pages s' = pages s1 ∧ profiles s' = profiles s1 ∧
            returned s' = returned s1 ∧ created s' = created s1 ∧
            ∀ t', t' ≠ t → tasks s' !! t' = tasks s1 !! t')
      as (E1 & E2 & E3 & E4 & E5 & E6 & E7).
    { destruct Hs' as [->|[w' ->]]; split_and!; try done; simpl; intros t' ?.
      - by rewrite lookup_delete_ne.
      - by rewrite lookup_insert_ne. }
    unfold crawl_inv, profiles_ok. rewrite E1, E2, E3, E4, E5, E6, Hf, Hv', Hp'.
    split_and!; try done.
    + rewrite <- Hp'. auto.
    + rewrite Hc'. intros t' Hle. destruct (decide (t' = t)) as [->|Hne].
      * rewrite Hfresh in Ht by done. done.
      * rewrite E7, Ht' by done. by apply Hfresh.
Qed.

Lemma crawl_inv_begin root subdomains s0 :
  crawl_begin root subdomains = Some s0 → crawl_inv cfg s0.
Proof.
  unfold crawl_begin. intros (si & Hi & Hb)%bind_Some.
  apply bind_Some in Hi as (domain & _ & [= <-]).
  apply bind_Some in Hb as (paths & _ & [= <-]).
  split_and!; try done.
  - constructor.
  - by intros u ?%elem_of_nil.
  - simpl. lia.
Qed.

Lemma run_app s evs1 evs2 :
  run cfg s (evs1 ++ evs2) = s1 ← run cfg s evs1; run cfg s1 evs2.
Proof.
  revert s. induction evs1 as [|ev evs1 IH]; intros s; [done|]. simpl.
  destruct (exec cfg s ev) as [s1|]; [apply IH|done].
Qed.

Lemma crawl_inv_run s evs s' :
  run cfg s evs = Some s' → crawl_inv cfg s → crawl_inv cfg s'.
Proof.
  revert s. induction evs as [|ev evs IH]; intros s; simpl.
  { by intros [= <-]. }
  destruct (exec cfg s ev) as [s1|] eqn:Hex; [|done]. simpl.
  eauto using crawl_inv_exec.
Qed.

Lemma reachable_inv root subdomains s :
  reachable cfg root subdomains s → crawl_inv cfg s.
Proof.
  intros (s0 & evs & Hb & Hrun).
  eauto using crawl_inv_run, crawl_inv_begin.
Qed.

Lemma reachable_run root subdomains s evs s' :
  reachable cfg root subdomains s → run cfg s evs = Some s' →
  reachable cfg root subdomains s'.
Proof.
  intros (s0 & evs0 & Hb & Hrun) Hrun'. exists s0, (evs0 ++ evs).
  split; [done|]. by rewrite run_app, Hrun.
Qed.

(** No step changes a record that is already stored. *)
Lemma exec_profiles s ev s' :
  exec cfg s ev = Some s' → profiles s ⊆ profiles s'.
Proof.
  intros [(-> & Hr & ->)|[(t & url & -> & Ht & ->)|(t & w & s1 & _ & Ht & Hl & Hp & Hs')]]%exec_cases.
  - unfold crawl_resume. destruct (_ && _); [|done].
    by destruct (launch _ _ _ _) as [[q ts] n].
  - rewrite resume_eq. unfold scrape_page_begin.
    by destruct (_ || _).
  - destruct Hl. by destruct Hs' as [->|[w' ->]].
Qed.

Lemma run_profiles s evs s' :
  run cfg s evs = Some s' → profiles s ⊆ profiles s'.
Proof.
  revert s. induction evs as [|ev evs IH]; intros s; simpl.
  { by intros [= <-]. }
  destruct (exec cfg s ev) as [s1|] eqn:Hex; [|done]. simpl. intros Hrun.
  etrans; [by eapply exec_profiles|by apply IH].
Qed.

(** C2: in every state a crawl can reach, whatever the concurrency
    ceiling, no URL has been handed to a fetch twice.  The first segment
    of a worker is one uninterrupted step: when its URL is already visited
    it fetches nothing; otherwise the URL is in the visited set by the time
    the worker is suspended on its fetch. *)
Theorem C2_each_url_fetched_at_most_once root subdomains s :
  reachable cfg root subdomains s →
  NoDup (fetched s) ∧
  ∀ t url,
    tasks s !! t = Some (WStart url) →
    ∃ s', exec cfg s (WorkerStarts t) = Some s' ∧
      (url ∈ visited s →
       fetched s' = fetched s ∧ tasks s' !! t = Some WSleep) ∧
      (url ∉ visited s → pages s < MAX_PAGES cfg →
       url ∈ visited s' ∧ fetched s' = url :: fetched s ∧
       tasks s' !! t = Some (WFetch url)).
Proof.
  intros Hreach. split; [by apply (reachable_inv _ _ _ Hreach)|].
  intros t url Ht. simpl. rewrite Ht. eexists. split; [done|].
  rewrite resume_eq. unfold scrape_page_begin. split.
  - intros Hv. rewrite bool_decide_eq_true_2 by done. simpl.
    split; [done|]. apply lookup_insert_eq.
  - intros Hv Hp. rewrite bool_decide_eq_false_2 by done.
    apply Nat.leb_gt in Hp. rewrite Hp. simpl.
    split_and!; [|done|apply lookup_insert_eq].
    apply elem_of_union. left. by apply elem_of_singleton.
Qed.

(** C7: no run changes a record once it is stored, from any state on; and
    in every state a crawl can reach each record sits under its own
    address, which is in lower case, so that an address has one record. *)
Theorem C7_first_writer_wins s evs s' :
  run cfg s evs = Some s' →
  (∀ email r, profiles s !! email = Some r → profiles s' !! email = Some r) ∧
  (∀ root subdomains, reachable cfg root subdomains s →
     ∀ key r, profiles s' !! key = Some r →
              p_email r = key ∧ lower key = key).
Proof.
  intros Hrun. split.
  - intros email r. apply map_subseteq_spec. by eapply run_profiles.
  - intros root subdomains Hreach.
    by apply (reachable_inv root subdomains), (reachable_run _ _ s evs).
Qed.




(** C10: when a worker resumes after a download, every record it creates
    is the fixed document record: empty name, seniority unknown,
    department General, confidence 0.4, the document URL as source and
    the snippet "From document", for an address extracted from the
    document; and the classifier is not called. *)
Theorem C10_document_records s t doc_path tool_output s' :
  exec cfg s (DocDownloaded t doc_path tool_output) = Some s' →
  ∃ url html full_url rest,
    tasks s !! t = Some (WDownload url html full_url rest) ∧
    (∀ email r,
       profiles s !! email = None → profiles s' !! email = Some r →
       r = {| p_email := email; p_name := ""; p_seniority := "unknown";
              p_department := "General"; p_confidence := 0.4;
              p_source_url := full_url;
              p_context_snippet := "From document" |} ∧
       email ∈ extract_emails_from_doc (base_domain s) tool_output) ∧
    ∃ new, calls s' = new ++ calls s ∧
           Forall (λ c, is_classify c = false) new.
Proof.
  simpl. destruct (tasks s !! t) as [[]|] eqn:Ht; try done.
  intros [= <-]. exists url, html, full_url, rest. split; [done|].
  destruct (scrape_page_downloaded_later url html full_url rest doc_path
              tool_output s) as [Hl Hp].
  rewrite resume_eq. simpl in *. split.
  - intros email r Hnew Hk. apply Hp in Hk as [Hk|(-> & _ & _ & Hin)].
    + congruence.
    + done.
  - destruct Hl as [_ _ _ _ _ _ _ _ _ _ (new & E & F)].
    exists new. split; [done|]. eapply Forall_impl; [exact F|].
    by intros [].
Qed.

End crawl_facts.

(** ** Termination of the crawl *)

Section termination.

Context `{!UrlLib}.
Variable cfg : Config.

Implicit Types (s : State) (t : nat) (w : Worker) (ts : gmap nat Worker).

Lemma total_insert_None f ts t w :
  ts !! t = None → total f (<[t := w]> ts) = f w + total f ts.
Proof.
  intros Ht. unfold total. rewrite map_fold_insert_L; [done| |done].
  intros. lia.
Qed.

Lemma total_delete f ts t w :
  ts !! t = Some w → total f ts = f w + total f (delete t ts).
Proof.
  intros Ht. unfold total. erewrite map_fold_delete_L; [done| |done].
  intros. lia.
Qed.

Lemma total_insert_Some f ts t w w' :
  ts !! t = Some w → total f (<[t := w']> ts) + f w = f w' + total f ts.
Proof.
  intros Ht. rewrite <- insert_delete_eq.
  rewrite total_insert_None by apply lookup_delete_eq.
  rewrite (total_delete f ts t w Ht). lia.
Qed.

Lemma set_loop_id s : set_loop (queue s) (tasks s) (created s) s = s.
Proof. by destruct s. Qed.

(** Each launch trades a frontier entry for a task that has not started. *)
Lemma launch_measure q ts n q' ts' n' :
  launch cfg q ts n = (q', ts', n') →
  (∀ t, n ≤ t → ts !! t = None) →
  total fetching ts' = total fetching ts ∧
  total weight ts' + 4 * length q' + (length q - length q')
  = total weight ts + 4 * length q ∧
  length q' ≤ length q ∧
  (length q' = length q → q' = q ∧ ts' = ts ∧ n' = n).
Proof.
  revert ts n. induction q as [|url q IH]; intros ts n; cbn [launch].
  { intros [= <- <- <-] _. split_and!; [done|simpl; lia|done|done]. }
  destruct (size ts <? CONCURRENT cfg);
    [|intros [= <- <- <-] _; split_and!; [done|lia|done|done]].
  intros Hl Hfresh. apply IH in Hl as (Hf & Hw & Hlen & _).
  2:{ intros t Ht. rewrite lookup_insert_ne by lia. apply Hfresh. lia. }
  rewrite total_insert_None in Hf, Hw by (apply Hfresh; lia).
  simpl in *. split_and!; [lia..|]. lia.
Qed.

Lemma next_links_length url links acc s s' res :
  next_links url links acc s = (s', Some res) →
  length res ≤ length acc + length links.
Proof.
  revert acc. induction links as [|raw links IH]; intros acc.
  { intros [= <- <-]. simpl. lia. }
  cbn [next_links]. seg_simpl.
  repeat (match goal with
          | |- context [if ?b then _ else _] => destruct b
          | |- context [match ?o with Some _ => _ | None => _ end] =>
              destruct o
          end; try done);
    intros Hres%IH; rewrite ?length_app in Hres; simpl in *; lia.
Qed.

Lemma store_doc_emails_queue full_url emails s :
  queue (store_doc_emails full_url emails s).1 = queue s.
Proof.
  revert s. induction emails as [|email emails IH]; intros s; [done|].
  cbn [store_doc_emails]. seg_simpl.
  destruct (profiles s !! email); [apply IH|]. by rewrite IH.
Qed.

Lemma mine_shape_mono url html links links' s s' r :
  length links ≤ length links' →
  mine_shape url html links s s' r → mine_shape url html links' s s' r.
Proof.
  intros Hle. destruct r as [[]|]; simpl; try done.
  intros (-> & -> & ? & ?). split_and!; [done..|lia|done].
Qed.

Lemma mine_documents_shape url html links s :
  mine_shape url html links s
    (mine_documents cfg url html links s).1
    (mine_documents cfg url html links s).2.
Proof.
  revert s. induction links as [|link links IH]; intros s; cbn [mine_documents].
  - seg_simpl. pose proof (scrape_page_end_state cfg url html s) as Hs.
    destruct (scrape_page_end cfg url html s) as [s' [next_urls|]] eqn:He;
      simpl in *; subst s'; [|done].
    exists next_urls. split; [done|].
    unfold scrape_page_end in He. seg_simpl.
    destruct (_ <? _); [|injection He as <-; simpl; lia].
    apply next_links_length in He. simpl in He. lia.
  - seg_simpl. destruct (urljoin url link) as [full|]; [|done].
    case_bool_decide.
    + eapply mine_shape_mono; [|apply IH]. simpl. lia.
    + simpl. split_and!; [done..|lia|done].
Qed.

Lemma launch_length q ts n q' ts' n' :
  launch cfg q ts n = (q', ts', n') → length q' ≤ length q.
Proof.
  revert ts n. induction q as [|url q IH]; intros ts n; cbn [launch].
  { by intros [= <- <- <-]. }
  destruct (size ts <? CONCURRENT cfg); [|by intros [= <- <- <-]].
  intros Hl%IH. simpl. lia.
Qed.

(** What [scrape_page] leaves behind when it resumes after a download. *)
Lemma scrape_page_downloaded_shape url html full_url rest doc_path out s :
  let res := scrape_page_downloaded cfg url html full_url rest doc_path out s in
  tasks res.1 = tasks s ∧ pages res.1 = pages s ∧
  returned res.1 = returned s ∧
  mine_shape url html rest s res.1 res.2.
Proof.
  destruct (scrape_page_downloaded_later cfg url html full_url rest doc_path
              out s) as [[_ _ _ Hp Ht _ Hr _ _ _ _] _].
  cbn zeta. split_and!; [done..|].
  unfold scrape_page_downloaded. seg_simpl.
  assert (∀ sa r, queue sa = queue s →
            mine_shape url html rest sa
              (mine_documents cfg url html rest sa).1
              (mine_documents cfg url html rest sa).2 →
            r = (mine_documents cfg url html rest sa) →
            mine_shape url html rest s r.1 r.2) as Hconv.
  { intros sa r Hq Hm ->. unfold mine_shape in *. rewrite <- Hq.
    exact Hm. }
  destruct (negb (String.eqb doc_path "")).
  - pose proof (store_doc_emails_queue full_url
                  (extract_emails_from_doc (base_domain s) out) s) as Hq.
    destruct (store_doc_emails _ _ s) as [sa [[]|]]; simpl in *; [|done].
    eapply Hconv; [exact Hq|apply mine_documents_shape|done].
  - eapply Hconv; [done|apply mine_documents_shape|done].
Qed.

(** After its fetch a worker is never left waiting for a fetch. *)
Lemma scrape_page_fetched_shape url html s w :
  (scrape_page_fetched cfg url html s).2 = Some w → fetching w = 0.
Proof.
  unfold scrape_page_fetched. destruct (String.eqb html "").
  { seg_simpl. by intros [= <-]. }
  seg_simpl. destruct (extract_and_clean_emails _ _) as [emails|]; [|done].
  destruct (store_page_emails html url emails s) as [s1 [[]|]]; [|done].
  pose proof (mine_documents_shape url html (findall doc_pattern html) s1) as Hm.
  intros Hw. rewrite Hw in Hm. by destruct w.
Qed.

(** Every step either leaves the state as it is, or uses up a fetch, or
    uses up some of the other work. *)
Lemma measure_step s ev s' :
  exec cfg s ev = Some s' →
  (∀ t, created s ≤ t → tasks s !! t = None) →
  s' = s
  ∨ fetch_budget cfg s' < fetch_budget cfg s
  ∨ (fetch_budget cfg s' = fetch_budget cfg s ∧ work_left s' < work_left s).
Proof.
  intros Hex Hfresh. unfold fetch_budget, work_left.
  destruct ev as [|t|t [html|]|t doc_path out|t|t]; simpl in Hex.
  - destruct (returned s) eqn:Hr; [done|]. injection Hex as <-.
    unfold crawl_resume. destruct (_ && _).
    + destruct (launch cfg (queue s) (tasks s) (created s))
        as [[q ts] n] eqn:Hla.
      destruct (launch_measure _ _ _ _ _ _ Hla Hfresh) as (Hf & Hw & Hle & Hid).
      destruct (decide (length q = length (queue s))) as [Heq|Hne].
      * left. destruct (Hid Heq) as (-> & -> & ->). apply set_loop_id.
      * right; right. simpl. rewrite ?Hr. lia.
    + right; right. simpl. rewrite ?Hr. lia.
  - destruct (tasks s !! t) as [[]|] eqn:Ht; try done. injection Hex as <-.
    rewrite resume_eq. unfold scrape_page_begin.
    pose proof (total_insert_Some fetching (tasks s) t _ WSleep Ht) as Hf1.
    pose proof (total_insert_Some weight (tasks s) t _ WSleep Ht) as Hw1.
    pose proof (total_insert_Some fetching (tasks s) t _ (WFetch url) Ht) as Hf2.
    destruct (bool_decide (url ∈ visited s) || (MAX_PAGES cfg <=? pages s))
      eqn:Hguard; simpl in *.
    + right; right. lia.
    + apply orb_false_iff in Hguard as [_ Hp]. apply Nat.leb_gt in Hp.
      right; left. lia.
  - destruct (tasks s !! t) as [[]|] eqn:Ht; try done. injection Hex as <-.
    rewrite resume_eq.
    destruct (scrape_page_fetched_later cfg url html s)
      as [[_ _ _ Hp Ht' _ _ _ _ _ _] _].
    pose proof (scrape_page_fetched_shape url html s) as Hshape.
    destruct (scrape_page_fetched cfg url html s) as [s1 r]; simpl in *.
    assert (fetching (default WDone r) = 0) as Hw.
    { destruct r as [w|]; [by apply Hshape|done]. }
    rewrite Ht', Hp.
    pose proof (total_insert_Some fetching (tasks s) t _ (default WDone r) Ht).
    simpl in *. right; left. lia.
  - destruct (tasks s !! t) as [[]|] eqn:Ht; try done. injection Hex as <-.
    pose proof (total_insert_Some fetching (tasks s) t _ WDone Ht).
    simpl in *. right; left. lia.
  - destruct (tasks s !! t) as [[]|] eqn:Ht; try done. injection Hex as <-.
    rewrite resume_eq.
    destruct (scrape_page_downloaded_shape url html full_url rest doc_path
                out s) as (Ht' & Hp & Hr & Hshape).
    destruct (scrape_page_downloaded cfg url html full_url rest doc_path out s)
      as [s1 r]; simpl in *.
    rewrite Ht', Hp, Hr.
    pose proof (total_insert_Some fetching (tasks s) t _ (default WDone r) Ht)
      as Hf.
    pose proof (total_insert_Some weight (tasks s) t _ (default WDone r) Ht)
      as Hw.
    right; right.
    destruct r as [[]|]; simpl in *; try done.
    + destruct Hshape as (-> & -> & Hlen & ->). lia.
    + destruct Hshape as (next & -> & Hlen). rewrite length_app. lia.
    + rewrite Hshape. lia.
  - destruct (tasks s !! t) as [[]|] eqn:Ht; try done. injection Hex as <-.
    pose proof (total_insert_Some fetching (tasks s) t _ WDone Ht).
    pose proof (total_insert_Some weight (tasks s) t _ WDone Ht).
    simpl in *. right; right. lia.
  - destruct (tasks s !! t) as [[]|] eqn:Ht; try done. injection Hex as <-.
    pose proof (total_delete fetching (tasks s) t _ Ht).
    pose proof (total_delete weight (tasks s) t _ Ht).
    simpl in *. right; right. lia.
Qed.

(** There is no infinite sequence of steps that change the state. *)
Lemma moves_acc s :
  crawl_inv cfg s → Acc (λ s2 s1, moves cfg s1 s2) s.
Proof.
  assert (∀ a b s, crawl_inv cfg s → fetch_budget cfg s = a →
                   work_left s = b → Acc (λ s2 s1, moves cfg s1 s2) s) as Hacc.
  { clear s. induction a as [a IHa] using lt_wf_ind.
    induction b as [b IHb] using lt_wf_ind. intros s Hinv <- <-.
    constructor. intros s' (ev & Hex & Hne).
    pose proof (crawl_inv_exec cfg _ _ _ Hex Hinv) as Hinv'.
    destruct (measure_step _ _ _ Hex) as [?|[Hlt|[Heq Hlt]]].
    - apply Hinv.
    - done.
    - by eapply IHa.
    - by eapply IHb. }
  intros Hinv. by eapply Hacc.
Qed.

(** As long as [crawl] has not returned, some step changes the state. *)
Lemma moves_progress s :
  0 < CONCURRENT cfg → returned s = false → ∃ s', moves cfg s s'.
Proof.
  intros Hconc Hr. destruct (decide (tasks s = ∅)) as [Hts|Hts].
  - exists (crawl_resume cfg s), CrawlResumes. simpl. rewrite Hr.
    split; [done|]. unfold crawl_resume. destruct (_ && _) eqn:Hcond.
    + apply andb_true_iff in Hcond as [Hq _]. rewrite Hts in Hq.
      rewrite (bool_decide_eq_true_2 (∅ = ∅)), orb_false_r in Hq by done.
      apply negb_true_iff, bool_decide_eq_false in Hq.
      destruct (queue s) as [|url q] eqn:Eq; [done|]. rewrite Hts.
      cbn [launch]. rewrite map_size_empty.
      apply Nat.ltb_lt in Hconc. rewrite Hconc.
      destruct (launch cfg q _ _) as [[q' ts'] n'] eqn:Hla.
      apply launch_length in Hla. intros Heq.
      apply (f_equal (λ x, length (queue x))) in Heq. simpl in Heq.
      rewrite Eq in Heq. simpl in Heq. lia.
    + intros Heq. apply (f_equal returned) in Heq. simpl in Heq. congruence.
  - apply map_choose in Hts as (t & w & Ht).
    assert (∀ s1 w', w' ≠ w → set_task t w' s1 ≠ s) as Hset.
    { intros s1 w' Hne Heq. apply (f_equal (λ x, tasks x !! t)) in Heq.
      simpl in Heq. rewrite lookup_insert_eq, Ht in Heq. congruence. }
    destruct w as [url|url|url html full_url rest| |].
    + eexists _, (WorkerStarts t). simpl. rewrite Ht. split; [done|].
      rewrite resume_eq. apply Hset. unfold scrape_page_begin.
      by destruct (_ || _).
    + eexists _, (PageFetched t None). simpl. rewrite Ht. split; [done|].
      by apply Hset.
    + eexists _, (DocDownloaded t "" None). simpl. rewrite Ht.
      split; [done|]. rewrite resume_eq. apply Hset.
      destruct (scrape_page_downloaded_shape url html full_url rest "" None s)
        as (_ & _ & _ & Hshape).
      destruct (scrape_page_downloaded cfg url html full_url rest "" None s)
        as [s1 [[]|]]; simpl in *; try done.
      destruct Hshape as (_ & _ & Hlen & _). intros [= _ _ _ ->]. lia.
    + eexists _, (WorkerWakes t). simpl. rewrite Ht. split; [done|].
      by apply Hset.
    + eexists _, (TaskDiscarded t). simpl. rewrite Ht. split; [done|].
      intros Heq. apply (f_equal (λ x, tasks x !! t)) in Heq.
      simpl in Heq. rewrite lookup_delete_eq, Ht in Heq. congruence.
Qed.

(** Hence [crawl] can always be run to its return. *)
Lemma crawl_returns s :
  0 < CONCURRENT cfg → crawl_inv cfg s →
  ∃ evs s', run cfg s evs = Some s' ∧ returned s' = true.
Proof.
  intros Hconc Hinv. pose proof (moves_acc s Hinv) as Hacc.
  induction Hacc as [s _ IH].
  destruct (returned s) eqn:Hr; [by exists [], s|].
  destruct (moves_progress s Hconc Hr) as (s1 & ev & Hex & Hne).
  destruct (IH s1) as (evs & s' & Hrun & Hret).
  - by exists ev.
  - by eapply crawl_inv_exec.
  - exists (ev :: evs), s'. simpl. by rewrite Hex.
Qed.

(** At the ceiling no step starts a fetch. *)
Lemma exec_at_ceiling s ev s' :
  exec cfg s ev = Some s' → MAX_PAGES cfg ≤ pages s →
  fetched s' = fetched s ∧ pages s' = pages s.
Proof.
  intros [(-> & Hr & ->)|[(t & url & -> & Ht & ->)|(t & w & s1 & _ & Ht & Hl & _ & Hs')]]%exec_cases Hmax.
  - unfold crawl_resume. destruct (_ && _); [|done].
    by destruct (launch _ _ _ _) as [[q ts] n].
  - rewrite resume_eq. unfold scrape_page_begin.
    apply Nat.leb_le in Hmax. by rewrite Hmax, orb_true_r.
  - pose proof (fetched_later _ _ _ page_call_not_fetch Hl) as Hf.
    destruct Hl as [_ _ _ Hp _ _ _ _ _ _ _].
    by destruct Hs' as [->|[w' ->]].
Qed.

End termination.

(** ** The theorems at concrete inputs *)

Lemma crawl_run_reachable `{!UrlLib} cfg root subdomains evs s :
  crawl_run cfg root subdomains evs = Some s →
  reachable cfg root subdomains s.
Proof. intros (s0 & Hb & Hrun)%bind_Some. by exists s0, evs. Qed.

Lemma crawl_run_snoc `{!UrlLib} cfg root subdomains evs ev s s' :
  crawl_run cfg root subdomains evs = Some s →
  crawl_run cfg root subdomains (evs ++ [ev]) = Some s' →
  exec cfg s ev = Some s'.
Proof.
  unfold crawl_run. intros (s0 & Hb & Hrun)%bind_Some. rewrite Hb. simpl.
  rewrite run_app, Hrun. simpl. by destruct (exec cfg s ev).
Qed.

Lemma run_one `{!UrlLib} cfg s ev : run cfg s [ev] = exec cfg s ev.
Proof. simpl. by destruct (exec cfg s ev). Qed.

(** The state a concrete run ends in, named without writing it out. *)
Ltac run_to s E :=
  match goal with
  | |- ∃ _, ?r = Some _ ∧ _ =>
      let H := fresh in
      assert (is_Some r) as H by (apply (bool_decide_unpack _); by_compute);
      destruct H as [s E]; exists s; split; [exact E|]
  end.

(** What evaluation says about the state a concrete run ends in. *)
Ltac observe E f v H :=
  match type of E with
  | ?r = Some ?s =>
      assert (f <$> r = Some v) as H by by_compute;
      rewrite E in H; injection H as H
  end.



Lemma C1_witness :
  is_target_domain "univ.edu" "Bob@Admin.Univ.EDU" = Some true ∧
  is_target_domain "univ.edu" "bob.univ.edu" = Some false.
Proof.
  destruct (C1_is_target_domain_scope "univ.edu" "Bob@Admin.Univ.EDU")
    as (_ & Hin & _).
  destruct (C1_is_target_domain_scope "univ.edu" "bob.univ.edu")
    as (_ & _ & Hout & _).
  split.
  - apply Hin. exists "Bob", "Admin.Univ.EDU". split_and!; [done..|].
    right. by exists "admin".
  - by apply Hout.
Defined.

Lemma C2_witness :
  ∃ s, crawl_run five_pages univ_root univ_subdomains ceiling_events = Some s ∧
       NoDup (fetched s).
Proof.
  run_to s E.
  apply (C2_each_url_fetched_at_most_once five_pages univ_root univ_subdomains).
  exact (crawl_run_reachable _ _ _ _ _ E).
Defined.

Lemma C7_witness :
  ∃ s,
    crawl_run source_config univ_root univ_subdomains staff_events = Some s ∧
    ∃ s',
      crawl_run source_config univ_root univ_subdomains
        (staff_events ++ [staff_download]) = Some s' ∧
      ∃ r, profiles s !! smith_email = Some r ∧
           p_name r = "John Smith" ∧
           profiles s' !! smith_email = Some r.
Proof.
  run_to s E. run_to s' E'.
  observe E (λ s, p_name <$> profiles s !! smith_email) (Some "John Smith") Hr.
  destruct (profiles s !! smith_email) as [r|] eqn:Hs; [|discriminate Hr].
  injection Hr as Hr. exists r. split_and!; [reflexivity|exact Hr|].
  pose proof (crawl_run_snoc _ _ _ _ _ _ _ E E') as Hex.
  apply (C7_first_writer_wins source_config s [staff_download] s');
    [|exact Hs].
  rewrite run_one. exact Hex.
Defined.


Lemma C10_witness :
  ∃ s,
    crawl_run source_config univ_root univ_subdomains staff_events = Some s ∧
    ∃ s',
      crawl_run source_config univ_root univ_subdomains
        (staff_events ++ [staff_download]) = Some s' ∧
      profiles s !! roe_email = None ∧
      profiles s' !! roe_email = Some (doc_record roe_email staff_list_url).
Proof.
  run_to s E. run_to s' E'.
  observe E (λ s, profiles s !! roe_email) (@None Profile) Hnew.
  observe E (λ s, tasks s !! 0)
    (Some (WDownload univ_root staff_page staff_list_url [])) Ht.
  observe E' (λ s, bool_decide (is_Some (profiles s !! roe_email))) true Hsome.
  apply bool_decide_eq_true in Hsome as [r Hr].
  split; [exact Hnew|].
  pose proof (crawl_run_snoc _ _ _ _ _ _ _ E E') as Hex.
  destruct (C10_document_records source_config _ _ _ _ _ Hex)
    as (url & html & full_url & rest & Ht' & Hrec & _).
  rewrite Ht in Ht'. injection Ht' as <- <- <- <-.
  rewrite Hr. f_equal. exact (proj1 (Hrec roe_email r Hnew Hr)).
Defined.

(** * Further properties of the source *)

(** ** More on strings *)

Lemma contains_contains_char sub s c :
  contains sub s = true → contains_char c sub = true →
  contains_char c s = true.
Proof.
  intros (a & b & ->)%contains_spec Hc.
  by rewrite !contains_char_app, Hc, orb_true_r.
Qed.

Lemma lower_char_not_upper c : is_upper (lower_char c) = false.
Proof. by destruct c as [[] [] [] [] [] [] [] []]. Qed.

(** A lowercased string has no upper-case letter. *)
Lemma lower_no_upper c s : is_upper c = true → contains_char c (lower s) = false.
Proof.
  intros Hc. induction s as [|d s IH]; [done|]. simpl. rewrite IH, orb_false_r.
  apply Ascii.eqb_neq. intros Heq.
  pose proof (lower_char_not_upper d) as Hd. congruence.
Qed.

Lemma length_app s t : String.length (s +:+ t) = String.length s + String.length t.
Proof. induction s as [|c s IH]; [done|]. rewrite app_cons. simpl. by rewrite IH. Qed.

Lemma length_lower s : String.length (lower s) = String.length s.
Proof. induction s as [|c s IH]; [done|]. simpl. by rewrite IH. Qed.

Lemma app_inv_length a b a' b' :
  a +:+ b = a' +:+ b' → String.length a = String.length a' → a = a' ∧ b = b'.
Proof.
  revert a'. induction a as [|c a IH]; intros [|c' a']; simpl; try done.
  rewrite !app_cons. intros [= -> Heq] [= Hlen].
  by destruct (IH _ Heq Hlen) as [-> ->].
Qed.

Lemma app_inv_tail_length a b a' b' :
  a +:+ b = a' +:+ b' → String.length b = String.length b' → a = a' ∧ b = b'.
Proof.
  intros Heq Hlen. apply app_inv_length; [done|].
  apply (f_equal String.length) in Heq. rewrite !length_app in Heq. lia.
Qed.

(** ** The fetch of appv0.1.py *)

(** X1: in appv0.1.py the static page is fetched again with the browser
    exactly when it is empty or contains [<noscript>].  The third test of
    the condition, ["enable JavaScript" in html.lower()], never holds: the
    lowercased page has no capital letter, so a page that asks to enable
    JavaScript is not fetched again for that reason. *)
Theorem X1_static_fetch_escalation (html : string) :
  contains "enable JavaScript" (lower html) = false ∧
  (EliteHarvester.static_insufficient html = true ↔
   html = "" ∨ contains "<noscript>" html = true).
Proof.
  assert (contains "enable JavaScript" (lower html) = false) as Hdead.
  { destruct (contains _ _) eqn:Hc; [|done].
    pose proof (contains_contains_char _ _ "J"%char Hc eq_refl) as HJ.
    by rewrite lower_no_upper in HJ. }
  split; [done|]. unfold EliteHarvester.static_insufficient.
  rewrite Hdead, orb_false_r, orb_true_iff, String.eqb_eq. done.
Qed.

(** ** The reports *)

Lemma replace_char_app old new s t :
  replace_char old new (s +:+ t)
  = replace_char old new s +:+ replace_char old new t.
Proof.
  induction s as [|c s IH]; [done|]. rewrite app_cons. simpl.
  destruct (Ascii.eqb c old); rewrite IH; [|done]. by rewrite app_assoc.
Qed.

Lemma safe_email_app s t : safe_email (s +:+ t) = safe_email s +:+ safe_email t.
Proof. unfold safe_email. by rewrite !replace_char_app. Qed.

Lemma replace_char_gone old new s :
  contains_char old new = false →
  contains_char old (replace_char old new s) = false.
Proof.
  intros Hnew. induction s as [|c s IH]; [done|]. simpl.
  destruct (Ascii.eqb c old) eqn:Hc.
  - by rewrite contains_char_app, Hnew, IH.
  - simpl. by rewrite Hc, IH.
Qed.

Lemma replace_char_keeps c old new s :
  contains_char c new = false → contains_char c s = false →
  contains_char c (replace_char old new s) = false.
Proof.
  intros Hnew. induction s as [|d s IH]; [done|]. simpl.
  intros [Hd Hs]%orb_false_iff. destruct (Ascii.eqb d old).
  - by rewrite contains_char_app, Hnew, IH.
  - simpl. by rewrite Hd, IH.
Qed.

(** X2: the file name [_write_dossier] derives from an address has no
    [@] and no dot, and the derivation is not injective: an address with a
    dot and the same address with an underscore in its place get the same
    file, as do an address and the text with [_at_] in place of its [@]. *)
Theorem X2_safe_email_collisions (email : string) :
  contains_char "@"%char (safe_email email) = false ∧
  contains_char "."%char (safe_email email) = false ∧
  (∀ a b, safe_email (a +:+ "." +:+ b) = safe_email (a +:+ "_" +:+ b)) ∧
  (∀ a b, safe_email (a +:+ "@" +:+ b) = safe_email (a +:+ "_at_" +:+ b)).
Proof.
  split_and!.
  - unfold safe_email. apply replace_char_keeps; [done|].
    by apply replace_char_gone.
  - unfold safe_email. by apply replace_char_gone.
  - intros a b. by rewrite !safe_email_app.
  - intros a b. by rewrite !safe_email_app.
Qed.

Lemma page_confidence_band (named ranked placed rich : bool) :
  confidence_band (page_confidence named ranked placed rich) =
  (let n := signal_count [named; ranked; placed; rich] in
   if 3 <=? n then High else if 2 <=? n then Medium else Low).
Proof. by destruct named, ranked, placed, rich; vm_compute. Qed.

(** X3: the rating written for a record depends only on how many of the
    four signals of the classifier hold (a name was inferred, the
    seniority is known, the department is known, the two winning scores
    add up to more than 2): the stored, rounded confidence rates high with
    three signals or more, medium with exactly two, low otherwise; a
    document record always rates low. *)
Theorem X3_confidence_band_by_signals (text email : string) :
  (∃ r, classify_profile text email = Some r ∧
     let clean_text := collapse_ws false (lower text) in
     let max_score := (score_table SENIORITY_KEYWORDS "unknown" clean_text).2 in
     let dept_score := (score_table DEPT_KEYWORDS "General" clean_text).2 in
     let n := signal_count [negb (String.eqb (ai_name r) "");
                            negb (String.eqb (ai_seniority r) "unknown");
                            negb (String.eqb (ai_department r) "General");
                            2 <? max_score + dept_score] in
     confidence_band (round2 (ai_confidence r)) =
     if 3 <=? n then High else if 2 <=? n then Medium else Low) ∧
  (∀ full_url, confidence_band (p_confidence (doc_record email full_url)) = Low).
Proof.
  split; [|done].
  destruct (classify_profile_total text email) as [sn ->].
  eexists. split; [done|]. cbn zeta.
  cbn [ai_confidence ai_name ai_seniority ai_department].
  rewrite confidence_score_steps. apply page_confidence_band.
Qed.

(** ** The e-mail pattern *)

Lemma all_chars_app p s t :
  all_chars p (s +:+ t) = all_chars p s && all_chars p t.
Proof.
  induction s as [|c s IH]; [done|]. rewrite app_cons. simpl.
  by rewrite IH, andb_assoc.
Qed.

Lemma all_chars_absent p c s :
  p c = false → all_chars p s = true → contains_char c s = false.
Proof.
  intros Hc. induction s as [|d s IH]; [done|]. simpl.
  intros [Hd Hs]%andb_true_iff. rewrite (IH Hs), orb_false_r.
  apply Ascii.eqb_neq. congruence.
Qed.

Lemma span_spec p s :
  s = (span p s).1 +:+ (span p s).2 ∧ all_chars p (span p s).1 = true.
Proof.
  induction s as [|c s [IH1 IH2]]; [done|]. cbn [span].
  destruct (p c) eqn:Hc; [|done]. destruct (span p s) as [a b].
  cbn [fst snd all_chars] in *. rewrite Hc, IH2, app_cons. by rewrite <- IH1.
Qed.

Lemma substring_prefix a b :
  String.substring 0 (String.length a) (a +:+ b) = a.
Proof.
  induction a as [|c a IH]; [by destruct b|].
  rewrite app_cons. cbn [String.length String.substring]. by rewrite IH.
Qed.

Lemma startswith_app a b : startswith a (a +:+ b) = true.
Proof. apply startswith_spec. by exists b. Qed.

Lemma tld_len_spec n prev s r :
  tld_len n prev s = Some r →
  ∃ t rest, s = t +:+ rest ∧ all_chars class_tld t = true ∧
            r = n + String.length t ∧ 2 ≤ r.
Proof.
  revert n prev. induction s as [|c s IH]; intros n prev; cbn [tld_len].
  - destruct (_ && _) eqn:Hn; [|done]. intros [= <-].
    apply andb_true_iff in Hn as [Hn%Nat.leb_le _].
    exists "", "". split_and!; [done..|simpl; lia|done].
  - assert ((if (2 <=? n) && word_boundary (is_word prev) (String c s)
             then Some n else None) = Some r →
            ∃ t rest, String c s = t +:+ rest ∧ all_chars class_tld t = true ∧
                      r = n + String.length t ∧ 2 ≤ r) as Hhere.
    { destruct (_ && _) eqn:Hn; [|done]. intros [= <-].
      apply andb_true_iff in Hn as [Hn%Nat.leb_le _].
      exists "", (String c s). split_and!; [done..|simpl; lia|done]. }
    destruct (class_tld c) eqn:Hc; [|done].
    destruct (tld_len (S n) c s) as [r'|] eqn:Hr; [|done].
    intros [= <-]. apply IH in Hr as (t & rest & -> & Ht & -> & Hle).
    exists (String c t), rest. split_and!; [done|simpl; by rewrite Hc|simpl; lia|done].
Qed.

Lemma tld_at_spec s r :
  tld_at s = Some r →
  ∃ t rest, s = t +:+ rest ∧ all_chars class_tld t = true ∧
            r = String.length t ∧ 2 ≤ r.
Proof.
  destruct s as [|c s]; [done|]. simpl. destruct (class_tld c) eqn:Hc; [|done].
  intros (t & rest & -> & Ht & -> & Hle)%tld_len_spec.
  exists (String c t), rest. split_and!; [done|simpl; by rewrite Hc|done|done].
Qed.

Lemma domain_len_spec m s e d rest0 :
  domain_len m s = Some e →
  s = d +:+ rest0 → String.length d = m → all_chars class_domain d = true →
  ∃ d1 t rest,
    s = d1 +:+ "." +:+ t +:+ rest ∧ all_chars class_domain d1 = true ∧
    all_chars class_tld t = true ∧ 2 ≤ String.length t ∧
    e = String.length d1 + 1 + String.length t.
Proof.
  revert s e d. induction m as [|m IH]; intros s e d; [done|].
  destruct s as [|c s]; [done|]. cbn [domain_len].
  destruct d as [|c' d]; [done|]. rewrite app_cons.
  intros He [= <- ->] [= Hlen] [Hc Hd]%andb_true_iff.
  destruct (domain_len m (d +:+ rest0)) as [e'|] eqn:He'.
  - injection He as <-.
    destruct (IH _ _ _ He' eq_refl Hlen Hd) as (d1 & t & rest & Hs & H1 & H2 & H3 & ->).
    exists (String c d1), t, rest.
    split_and!; [by rewrite app_cons, <- Hs|simpl; by rewrite Hc|done|done|simpl; lia].
  - destruct (Ascii.eqb_spec c "."%char) as [->|]; [|done].
    destruct (tld_at (d +:+ rest0)) as [r|] eqn:Hr; [|done].
    injection He as <-.
    apply tld_at_spec in Hr as (t & rest & Hs & Ht & -> & Hle).
    exists "", t, rest. split_and!; [by rewrite Hs|done|done|done|done].
Qed.

(** What the pattern matches at one position is an address, and the text
    starts with it. *)
Lemma email_pattern_shape prev s g len :
  email_pattern prev s = Some (g, len) →
  address_shape g ∧ startswith g s = true ∧ len = String.length g.
Proof.
  unfold email_pattern. destruct (word_boundary prev s); [|done].
  destruct (span_spec class_local s) as [Hs Hloc].
  destruct (span class_local s) as [loc r1]. cbn [fst snd] in *.
  destruct loc as [|l0 loc]; [done|]. destruct r1 as [|c r2]; [done|].
  destruct (Ascii.eqb_spec c "@"%char) as [->|]; [|done].
  destruct (span_spec class_domain r2) as [Hr2 Hdom].
  destruct (span class_domain r2) as [dom b]. cbn [fst snd] in *.
  destruct dom as [|d0 dom]; [done|]. destruct r2 as [|d0' r2']; [done|].
  rewrite app_cons in Hr2. injection Hr2 as -> Hr2'.
  destruct (domain_len _ _) as [e|] eqn:He; [|done].
  cbn [all_chars] in Hdom. apply andb_true_iff in Hdom as [Hd0 Hdom].
  destruct (domain_len_spec _ _ _ _ _ He Hr2' eq_refl Hdom)
    as (d1 & t & rest & Hsplit & Hd1 & Ht & Hlen & ->).
  intros [= <- <-].
  set (g := String l0 loc +:+ "@" +:+ String d0 d1 +:+ "." +:+ t).
  assert (s = g +:+ rest) as Hg.
  { rewrite Hs, Hsplit. unfold g. by rewrite !app_assoc. }
  assert (S (String.length loc + 2 + (String.length d1 + 1 + String.length t))
          = String.length g) as Hl.
  { unfold g. rewrite !length_app. simpl. lia. }
  rewrite Hl, Hg, substring_prefix.
  split_and!; [|apply startswith_app|done].
  exists (String l0 loc), (String d0 d1), t.
  split_and!; [done|done|done|done|done|simpl; by rewrite Hd0|done].
Qed.

Lemma scan_elem m skip prev s g :
  g ∈ scan m skip prev s →
  ∃ prev' a s' len, s = a +:+ s' ∧ m prev' s' = Some (g, len).
Proof.
  revert skip prev. induction s as [|c s IH]; intros skip prev; simpl.
  { by intros ?%elem_of_nil. }
  assert (∀ k p, g ∈ scan m k p s →
            ∃ prev' a s' len,
              String c s = a +:+ s' ∧ m prev' s' = Some (g, len)) as Hrest.
  { intros k p (prev' & a & s' & len & -> & Hm)%IH.
    by exists prev', (String c a), s', len. }
  destruct skip as [|k]; [|apply Hrest].
  destruct (m prev (String c s)) as [[g' len]|] eqn:Hm; [|apply Hrest].
  intros [->|?]%elem_of_cons; [|by eapply Hrest].
  by exists prev, "", (String c s), len.
Qed.

(** An address has one [@]: its parts are those of the shape. *)
Lemma address_shape_parts g :
  address_shape g →
  ∃ loc host, g = loc +:+ String "@"%char host ∧ loc ≠ "" ∧
    contains_char "@"%char loc = false ∧
    contains_char "@"%char host = false.
Proof.
  intros (loc & dom & tld & -> & ? & _ & _ & Hloc & Hdom & Htld).
  exists loc, (dom +:+ "." +:+ tld). split_and!; [done|done| |].
  - by apply (all_chars_absent class_local).
  - rewrite !contains_char_app.
    rewrite (all_chars_absent class_domain "@"%char dom) by done.
    by rewrite (all_chars_absent class_tld "@"%char tld).
Qed.

(** ** E-mail extraction *)

(** The scope test does not look at the case of the address. *)
Lemma is_target_domain_lower base e :
  is_target_domain base (lower e) = is_target_domain base e.
Proof. unfold is_target_domain. by rewrite contains_char_lower, lower_idemp. Qed.

Lemma set_add_spec x emails :
  NoDup emails →
  NoDup (set_add x emails) ∧ ∀ e, e ∈ set_add x emails ↔ e ∈ emails ∨ e = x.
Proof.
  intros Hnd. unfold set_add. case_bool_decide as Hx.
  - split; [done|]. intros e. split; [auto|]. by intros [?| ->].
  - split.
    + apply NoDup_app. split_and!; [done| |apply NoDup_singleton].
      intros e He ->%list_elem_of_singleton. done.
    + intros e. by rewrite elem_of_app, list_elem_of_singleton.
Qed.

(** The extraction loop never raises; it collects, without duplicates,
    the lowercased matches that pass the scope test. *)
Lemma add_target_emails_spec base std_emails emails :
  NoDup emails →
  let res := add_target_emails base std_emails emails in
  res.2 = false ∧ NoDup res.1 ∧
  ∀ e, e ∈ res.1 ↔
       e ∈ emails ∨
       ∃ m, m ∈ std_emails ∧ is_target_domain base m = Some true ∧ e = lower m.
Proof.
  revert emails. induction std_emails as [|email rest IH]; intros emails Hnd.
  { simpl. split_and!; [done..|]. intros e. split; [auto|].
    intros [?|(m & []%elem_of_nil & _)]. done. }
  cbn [add_target_emails].
  destruct (is_target_domain_total base email) as [b Hb]. rewrite Hb.
  destruct b.
  - destruct (set_add_spec (lower email) emails Hnd) as [Hnd' Hin'].
    destruct (IH _ Hnd') as (Hr & Hn & Hin). cbn zeta in *.
    split_and!; [done..|]. intros e. rewrite Hin, Hin'. split.
    + intros [[?| ->]|(m & ? & ? & ->)]; [by left|right..].
      * exists email. split_and!; [left|done|done].
      * exists m. split_and!; [by right|done|done].
    + intros [?|(m & [->|?]%elem_of_cons & ? & ->)];
        [by left; left|by left; right|right]. by exists m.
  - destruct (IH _ Hnd) as (Hr & Hn & Hin). cbn zeta in *.
    split_and!; [done..|]. intros e. rewrite Hin. split.
    + intros [?|(m & ? & ? & ->)]; [by left|right].
      exists m. split_and!; [by right|done|done].
    + intros [?|(m & [->|?]%elem_of_cons & ? & ->)]; [by left|congruence|right].
      by exists m.
Qed.

Lemma findall_address text m :
  m ∈ findall email_pattern text →
  address_shape m ∧ contains m text = true.
Proof.
  intros (prev & a & s' & len & -> & Hm)%scan_elem.
  apply email_pattern_shape in Hm as (Hshape & (t & ->)%startswith_spec & _).
  split; [done|]. apply contains_spec. by exists a, t.
Qed.

Lemma split_on_head is_sep loc c rest :
  is_sep c = true → (∀ d, contains_char d loc = true → is_sep d = false) →
  hd "" (split_on is_sep (loc +:+ String c rest)) = loc.
Proof.
  intros Hc. induction loc as [|d loc IH]; intros Hloc.
  - rewrite app_nil_l. simpl. by rewrite Hc.
  - rewrite app_cons. cbn [split_on].
    rewrite (Hloc d) by (simpl; by rewrite Ascii.eqb_refl).
    assert (hd "" (split_on is_sep (loc +:+ String c rest)) = loc) as Hhd.
    { apply IH. intros d' Hd'. apply Hloc. simpl. by rewrite Hd', orb_true_r. }
    destruct (split_on is_sep _) as [|t ts]; simpl in *; by subst.
Qed.

Lemma lower_nonempty s : s ≠ "" → lower s ≠ "".
Proof. by destruct s. Qed.

(** X5: [extract_and_clean_emails] never raises, and
    [extract_emails_from_doc] collects the same addresses from the text of
    a document (none when the extraction tool fails).  The result has no
    duplicates and is exactly the set of the lowercased matches of the
    pattern that pass the scope test.  Each address in it is in lower
    case and has one [@], a non-empty local part and a host that is the
    base domain or a subdomain of it; the local part is what the
    classifier splits into name tokens. *)
Theorem X5_extraction_result (base text : string) :
  ∃ emails,
    extract_and_clean_emails base text = Some emails ∧
    extract_emails_from_doc base (Some text) = emails ∧
    extract_emails_from_doc base None = [] ∧
    NoDup emails ∧
    (∀ e, e ∈ emails ↔
          ∃ m, m ∈ findall email_pattern text ∧
               is_target_domain base m = Some true ∧ e = lower m) ∧
    (∀ e, e ∈ emails →
          lower e = e ∧
          ∃ loc host,
            e = loc +:+ String "@"%char host ∧ loc ≠ "" ∧
            contains_char "@"%char loc = false ∧
            contains_char "@"%char host = false ∧
            in_scope base host = true ∧
            name_tokens e = split_on (one_of "._-") loc).
Proof.
  pose proof (add_target_emails_spec base (findall email_pattern text) []
                (NoDup_nil_2)) as Hspec.
  unfold extract_and_clean_emails, extract_emails_from_doc.
  destruct (add_target_emails _ _ _) as [emails raised]. cbn zeta in Hspec.
  simpl in Hspec. destruct Hspec as (-> & Hnd & Hin).
  exists emails. split_and!; [done..| |].
  - intros e. rewrite Hin. split; [|auto]. by intros [[]%elem_of_nil|?].
  - intros e [[]%elem_of_nil|(m & Hm & Hscope & ->)]%Hin.
    split; [apply lower_idemp|].
    apply findall_address in Hm as [Hshape _].
    apply address_shape_parts in Hshape
      as (loc & host & -> & Hloc0 & Hloc & Hhost).
    rewrite is_target_domain_split in Hscope by done.
    injection Hscope as Hscope.
    exists (lower loc), (lower host). rewrite lower_app. simpl.
    change (lower_char "@"%char) with "@"%char.
    split_and!; [done|by apply lower_nonempty|by rewrite contains_char_lower..
                |done|].
    unfold name_tokens. rewrite split_on_head; [done|done|].
    intros d Hd. apply Ascii.eqb_neq. intros ->.
    rewrite contains_char_lower in Hd. congruence.
Qed.

(** X4: every match of the e-mail pattern is a piece of the text of the
    form local part, [@], domain, dot, top-level part, where the local
    part and the domain are not empty, the top-level part has at least two
    characters, and each part is made of the characters of its class; in
    particular it has exactly one [@]. *)
Theorem X4_addresses_found_have_shape (text m : string) :
  m ∈ findall email_pattern text →
  contains m text = true ∧ address_shape m ∧
  ∃ loc host, m = loc +:+ String "@"%char host ∧ loc ≠ "" ∧
    contains_char "@"%char loc = false ∧
    contains_char "@"%char host = false.
Proof.
  intros [Hshape Hsub]%findall_address.
  split_and!; [done|done|]. by apply address_shape_parts.
Qed.

(** ** Subdomain discovery *)

Lemma crt_names_spec base data acc u :
  u ∈ crt_names base data acc ↔
  u ∈ acc ∨ ∃ name_value, crt_entry data name_value ∧ crt_url base name_value u.
Proof.
  revert acc. induction data as [|[name_value|] data IH]; intros acc.
  - simpl. split; [auto|]. by intros [?|(nv & (i & Hi & _) & _)].
  - assert (∀ nv, crt_entry (Some name_value :: data) nv ↔
                  nv = name_value ∨ crt_entry data nv) as Hentry.
    { intros nv. split.
      - intros ([|i] & Hi & Hj); [left; by simplify_eq/=|right].
        exists i. split; [done|]. intros j Hlt. apply (Hj (S j)). lia.
      - intros [->|(i & Hi & Hj)].
        + exists 0. split; [done|]. lia.
        + exists (S i). split; [done|]. intros [|j] Hlt; [done|].
          apply Hj. lia. }
    cbn [crt_names]. set (name := strip (lower name_value)).
    destruct (negb (String.eqb name "") && endswith base name
              && negb (contains_char "*"%char name)) eqn:Hcond.
    + apply andb_true_iff in Hcond as [[Hne He]%andb_true_iff Hstar].
      apply negb_true_iff in Hne, Hstar. apply String.eqb_neq in Hne.
      rewrite IH, elem_of_union, elem_of_singleton. split.
      * intros [[->|?]|(nv & ? & ?)]; [right|by left|right].
        -- exists name_value. split; [apply Hentry; by left|done].
        -- exists nv. split; [apply Hentry; by right|done].
      * intros [?|(nv & [->|?]%Hentry & Hurl)]; [by left; right| |right; eauto].
        left; left. by destruct Hurl as (_ & _ & _ & ->).
    + rewrite IH. split.
      * intros [?|(nv & ? & ?)]; [by left|right].
        exists nv. split; [apply Hentry; by right|done].
      * intros [?|(nv & [->|?]%Hentry & Hurl)]; [by left| |right; eauto].
        destruct Hurl as (Hne & He & Hstar & _). fold name in Hne, He, Hstar.
        apply String.eqb_neq in Hne. by rewrite Hne, He, Hstar in Hcond.
  - simpl. split; [auto|]. intros [?|(nv & (i & Hi & Hj) & _)]; [done|].
    destruct i as [|i]; [done|]. destruct (Hj 0); [lia|done].
Qed.

Lemma foldl_union_spec (f : string → string) (l : list string)
    (init : gset string) u :
  u ∈ foldl (λ acc x, {[ f x ]} ∪ acc) init l ↔
  u ∈ init ∨ ∃ x, x ∈ l ∧ u = f x.
Proof.
  revert init. induction l as [|x l IH]; intros init; simpl.
  { split; [auto|]. by intros [?|(x & ?%elem_of_nil & _)]. }
  rewrite IH, elem_of_union, elem_of_singleton. split.
  - intros [[->|?]|(y & ? & ->)]; [right|by left|right].
    + exists x. split; [left|done].
    + exists y. split; [by right|done].
  - intros [?|(y & [->|?]%elem_of_cons & ->)]; [by left; right|by left; left|].
    right. by exists y.
Qed.

Lemma discovered_spec base data u :
  u ∈ discovered base data ↔
  (∃ sub, sub ∈ tactical_subs ∧ u = "https://" +:+ sub +:+ "." +:+ base)
  ∨ ∃ name_value, crt_entry data name_value ∧ crt_url base name_value u.
Proof.
  unfold discovered.
  rewrite (foldl_union_spec (λ sub, "https://" +:+ sub +:+ "." +:+ base)).
  rewrite crt_names_spec. split.
  - intros [[[]%elem_of_empty|?]|?]; auto.
  - intros [?|?]; auto.
Qed.

Lemma tactical_subdomains_NoDup base : NoDup (tactical_subdomains base).
Proof.
  unfold tactical_subdomains. apply NoDup_fmap_2.
  - intros x y Heq.
    apply (app_inv_length "https://" _ "https://") in Heq as [_ Heq]; [|done].
    by apply app_inv_tail_length in Heq as [-> _].
  - apply (bool_decide_unpack _). by_compute.
Qed.

Lemma discovered_size base data : 23 ≤ size (discovered base data).
Proof.
  change 23 with (length (tactical_subdomains base)).
  rewrite <- (size_list_to_set (C := gset string))
    by apply tactical_subdomains_NoDup.
  apply subseteq_size. intros u Hu%elem_of_list_to_set.
  apply discovered_spec. left.
  apply list_elem_of_fmap in Hu as (sub & -> & Hsub). by exists sub.
Qed.

(** X6: [discover_subdomains] always returns; its result has no
    duplicates and between 23 and [MAX_SUBDOMAINS] entries.  Each entry is
    [https://] followed either by one of the 23 fixed guesses, a dot and
    the base domain, or by a name of the certificate service, lowercased
    and stripped, that is not empty, ends with the base domain and has no
    [*] (a name read before any entry raises).  When at most
    [MAX_SUBDOMAINS] URLs were collected the result is all of them;
    otherwise the cut may drop any of them, fixed guesses included. *)
Theorem X6_discover_subdomains_result (base : string)
    (data : list (option string)) :
  (∃ result, discover_subdomains base data result) ∧
  ∀ result, discover_subdomains base data result →
    NoDup result ∧
    23 ≤ length result ∧ length result ≤ MAX_SUBDOMAINS ∧
    (∀ u, u ∈ result →
       (∃ sub, sub ∈ tactical_subs ∧ u = "https://" +:+ sub +:+ "." +:+ base)
       ∨ ∃ name_value, crt_entry data name_value ∧ crt_url base name_value u) ∧
    (size (discovered base data) ≤ MAX_SUBDOMAINS →
     ∀ u, u ∈ result ↔ u ∈ discovered base data).
Proof.
  split.
  { exists (take MAX_SUBDOMAINS (elements (discovered base data))).
    by exists (elements (discovered base data)). }
  intros result (listing & Hperm & ->).
  assert (NoDup listing) as Hnd.
  { rewrite Hperm. apply NoDup_elements. }
  assert (length listing = size (discovered base data)) as Hlen.
  { by rewrite Hperm. }
  pose proof (discovered_size base data) as Hsize.
  split_and!.
  - rewrite <- (take_drop MAX_SUBDOMAINS listing) in Hnd.
    by apply NoDup_app in Hnd as [? _].
  - rewrite length_take. unfold MAX_SUBDOMAINS. lia.
  - rewrite length_take. lia.
  - intros u (i & Hu%list_elem_of_lookup_2 & _)%elem_of_take.
    rewrite Hperm in Hu.
    by apply elem_of_elements, discovered_spec in Hu.
  - intros Hle u. rewrite take_ge by lia. by rewrite Hperm, elem_of_elements.
Qed.

(** ** What a crawl fetches, downloads and stores *)

Section harvest.

Context `{!UrlLib}.
Variable cfg : Config.

Implicit Types (s : State) (t : nat) (w : Worker).

Lemma stored_refl P s : stored P s s.
Proof.
  exists []. split_and!; [done|constructor| |].
  - by intros key r ?%elem_of_nil.
  - intros key r. split; [auto|]. by intros [?%elem_of_nil|?].
Qed.

(** One record stored, then the rest. *)
Lemma stored_step P s email data s' s1 :
  profiles s !! email = None → P email data →
  profiles s' = <[email := data]> (profiles s) →
  dossiers s' = (email, data) :: dossiers s →
  stored P s' s1 → stored P s s1.
Proof.
  intros Hnew HP Hp Hd (news & Hds & Hnd & Hnews & Hprof).
  exists (news ++ [(email, data)]). split_and!.
  - by rewrite Hds, Hd, <- (assoc_L (++)).
  - rewrite fmap_app. apply NoDup_app. split_and!; [done| |apply NoDup_singleton].
    intros key ([k r] & -> & Hin)%list_elem_of_fmap Hkey.
    cbn in Hkey. apply list_elem_of_singleton in Hkey as ->.
    apply Hnews in Hin as [Hfree _].
    by rewrite Hp, lookup_insert_eq in Hfree.
  - intros key r [Hin|[= -> ->]%list_elem_of_singleton]%elem_of_app; [|done].
    apply Hnews in Hin as [Hfree ?]. split; [|done].
    rewrite Hp in Hfree. by apply lookup_insert_None in Hfree as [? _].
  - intros key r. rewrite Hprof, Hp, elem_of_app, list_elem_of_singleton.
    rewrite lookup_insert_Some. split.
    + intros [?|[[<- <-]|[_ ?]]]; auto.
    + intros [[?|[= -> ->]]|Hk]; [auto|auto|].
      right; right. split; [|done]. intros <-. congruence.
Qed.

(** The same records, seen from states with the same records and
    dossiers. *)
Lemma stored_same P s s' s1 s1' :
  profiles s' = profiles s → dossiers s' = dossiers s →
  profiles s1' = profiles s1 → dossiers s1' = dossiers s1 →
  stored P s' s1 → stored P s s1'.
Proof.
  intros Hp Hd Hp1 Hd1 (news & ? & ? & Hnews & Hprof). exists news.
  rewrite Hd1, Hp1, <- Hd. split_and!; [done..| |].
  - intros key r. rewrite <- Hp. apply Hnews.
  - intros key r. rewrite <- Hp. apply Hprof.
Qed.

(** The confidence of a classified page record is one of the sixteen. *)
Lemma classified_confidence text email ai :
  classify_profile text email = Some ai →
  ∃ named ranked placed rich,
    round2 (ai_confidence ai) = page_confidence named ranked placed rich.
Proof.
  destruct (classify_profile_total text email) as [sn ->]. intros [= <-].
  cbn zeta. cbn [ai_confidence]. rewrite confidence_score_steps. by eexists _, _, _, _.
Qed.

(** The page loop. *)
Lemma store_page_emails_stored base html url emails s :
  Forall (λ e, lower e = e ∧ is_target_domain base e = Some true) emails →
  let s1 := (store_page_emails html url emails s).1 in
  stored (new_record (WFetch url) base) s s1 ∧
  queue s1 = queue s ∧ documents s1 = documents s ∧
  downloaded s1 = downloaded s.
Proof.
  revert s. induction emails as [|email emails IH]; intros s Hall; simpl.
  { split_and!; [apply stored_refl|done..]. }
  apply Forall_cons in Hall as [[Hlow Hscope] Hall].
  seg_simpl. destruct (profiles s !! email) eqn:Hknown; [by apply IH|].
  destruct (classify_profile html email) as [ai|] eqn:Hai; simpl.
  - match goal with |- context [set_profile email ?d _] => set (data := d) end.
    match goal with |- context [store_page_emails _ _ _ ?sa] =>
      destruct (IH sa Hall) as (Hst & Hq & Hd & Hdl) end.
    split_and!; [|done..].
    refine (stored_step _ s email data _ _ Hknown _ _ _ Hst); [|done..].
    do 4 (split; [done|]). cbn [p_confidence data].
    by eapply classified_confidence.
  - split_and!; [|done..].
    eapply stored_same; [..|apply stored_refl]; done.
Qed.

(** The document loop. *)
Lemma store_doc_emails_stored base url html full_url rest emails s :
  Forall (λ e, lower e = e ∧ is_target_domain base e = Some true) emails →
  let s1 := (store_doc_emails full_url emails s).1 in
  stored (new_record (WDownload url html full_url rest) base) s s1 ∧
  queue s1 = queue s ∧ documents s1 = documents s ∧
  downloaded s1 = downloaded s.
Proof.
  revert s. induction emails as [|email emails IH]; intros s Hall; simpl.
  { split_and!; [apply stored_refl|done..]. }
  apply Forall_cons in Hall as [[Hlow Hscope] Hall].
  seg_simpl. destruct (profiles s !! email) eqn:Hknown; [by apply IH|].
  match goal with |- context [set_profile email ?d _] => set (data := d) end.
  match goal with |- context [store_doc_emails _ _ ?sa] =>
    destruct (IH sa Hall) as (Hst & Hq & Hd & Hdl) end.
  split_and!; [|done..].
  refine (stored_step _ s email data _ _ Hknown _ _ _ Hst); [|done..].
  by split_and!.
Qed.

(** The document loop and the end of the page. *)
Lemma mine_documents_advanced w url html links s :
  page_of w = Some url →
  let res := mine_documents cfg url html links s in
  advanced w s res.1 res.2 ∧ dossiers res.1 = dossiers s.
Proof.
  intros Hw. revert s.
  induction links as [|link links IH]; intros s; cbn [mine_documents].
  - seg_simpl. pose proof (scrape_page_end_state cfg url html s) as Hs.
    destruct (scrape_page_end cfg url html s) as [s' [next_urls|]] eqn:He;
      simpl in *; subst s'.
    + split; [|done]. split_and!; [done..|]. exists next_urls. split; [done|].
      unfold scrape_page_end in He. seg_simpl.
      destruct (_ <? _).
      * apply next_links_spec in He as [_ Hres]. intros u Hu.
        apply Hres in Hu as [[]%elem_of_nil|(raw & _ & _ & ? & ?)]. done.
      * injection He as <-. by intros u ?%elem_of_nil.
    + split; [|done]. split_and!; [done..|]. exists [].
      split; [by rewrite (right_id_L [] (++))|]. by intros u ?%elem_of_nil.
  - seg_simpl. destruct (urljoin url link) as [full|]; simpl.
    + case_bool_decide as Hknown; [apply IH|]. simpl. by split_and!.
    + split; [|done]. split_and!; [done..|]. exists [].
      split; [by rewrite (right_id_L [] (++))|]. by intros u ?%elem_of_nil.
Qed.

Lemma advanced_same w s s' s1 r :
  queue s' = queue s → documents s' = documents s →
  downloaded s' = downloaded s → base_domain s' = base_domain s →
  visited s' = visited s →
  advanced w s' s1 r → advanced w s s1 r.
Proof.
  intros Hq Hd Hdl Hb Hv. unfold advanced. by rewrite Hq, Hd, Hdl, Hb, Hv.
Qed.

Lemma worked_refl w s : worked w s s None.
Proof.
  split; [apply later_refl| |apply stored_refl].
  split_and!; [done..|]. exists []. split; [by rewrite (right_id_L [] (++))|].
  by intros u ?%elem_of_nil.
Qed.

Lemma extract_and_clean_emails_scope base text emails :
  extract_and_clean_emails base text = Some emails →
  Forall (λ e, lower e = e ∧ is_target_domain base e = Some true) emails.
Proof.
  unfold extract_and_clean_emails.
  pose proof (add_target_emails_spec base (findall email_pattern text) []
                NoDup_nil_2) as (_ & _ & Hin).
  destruct (add_target_emails _ _ _) as [es []]; [done|]. intros [= <-].
  apply Forall_forall. intros e [[]%elem_of_nil|(m & _ & Hm & ->)]%Hin.
  split; [apply lower_idemp|]. by rewrite is_target_domain_lower.
Qed.

Lemma extract_emails_from_doc_scope base out :
  Forall (λ e, lower e = e ∧ is_target_domain base e = Some true)
         (extract_emails_from_doc base out).
Proof.
  destruct out as [text|]; [|constructor]. simpl.
  pose proof (add_target_emails_spec base (findall email_pattern text) []
                NoDup_nil_2) as (_ & _ & Hin).
  apply Forall_forall. intros e [[]%elem_of_nil|(m & _ & Hm & ->)]%Hin.
  split; [apply lower_idemp|]. by rewrite is_target_domain_lower.
Qed.

(** [scrape_page] resumed with its page. *)
Lemma scrape_page_fetched_worked url html s :
  let res := scrape_page_fetched cfg url html s in
  worked (WFetch url) s res.1 res.2.
Proof.
  cbn zeta. split; [apply scrape_page_fetched_later| |].
  - unfold scrape_page_fetched. destruct (String.eqb html ""); simpl.
    { seg_simpl. split_and!; [done..|]. exists []. split; [done|].
      by intros u ?%elem_of_nil. }
    seg_simpl.
    destruct (extract_and_clean_emails (base_domain s) html)
      as [emails|] eqn:He; [|apply worked_refl].
    apply extract_and_clean_emails_scope in He.
    destruct (store_page_emails_stored _ html url emails s He)
      as (_ & Hq & Hd & Hdl).
    destruct (store_page_emails_later html url emails s) as [[] _].
    destruct (store_page_emails html url emails s) as [sa [[]|]]; simpl in *.
    + eapply advanced_same; [done..|].
      by apply mine_documents_advanced.
    + split_and!; [done..|]. exists []. split; [by rewrite (right_id_L [] (++))|].
      by intros u ?%elem_of_nil.
  - unfold scrape_page_fetched. destruct (String.eqb html ""); simpl.
    { seg_simpl. eapply stored_same; [..|apply stored_refl]; done. }
    seg_simpl.
    destruct (extract_and_clean_emails (base_domain s) html)
      as [emails|] eqn:He; [|apply stored_refl].
    apply extract_and_clean_emails_scope in He.
    destruct (store_page_emails_stored _ html url emails s He) as (Hst & _).
    destruct (store_page_emails html url emails s) as [sa [[]|]];
      simpl in *; [|done].
    eapply stored_same; [done|done| | |exact Hst].
    + apply mine_documents_profiles.
    + by apply (mine_documents_advanced (WFetch url)).
Qed.

(** [scrape_page] resumed after a download. *)
Lemma scrape_page_downloaded_worked url html full_url rest doc_path out s :
  let res :=
    scrape_page_downloaded cfg url html full_url rest doc_path out s in
  worked (WDownload url html full_url rest) s res.1 res.2.
Proof.
  cbn zeta. split.
  - eapply later_weaken; [apply doc_call_page_call|].
    apply scrape_page_downloaded_later.
  - unfold scrape_page_downloaded. seg_simpl.
    destruct (negb (String.eqb doc_path "")); simpl;
      [|by apply mine_documents_advanced].
    pose proof (extract_emails_from_doc_scope (base_domain s) out) as He.
    destruct (store_doc_emails_stored _ url html full_url rest _ s He)
      as (_ & Hq & Hd & Hdl).
    destruct (store_doc_emails_later full_url
                (extract_emails_from_doc (base_domain s) out) s) as [[] _].
    destruct (store_doc_emails _ _ s) as [sa [[]|]]; simpl in *.
    + eapply advanced_same; [done..|]. by apply mine_documents_advanced.
    + split_and!; [done..|]. exists []. split; [by rewrite (right_id_L [] (++))|].
      by intros u ?%elem_of_nil.
  - unfold scrape_page_downloaded. seg_simpl.
    destruct (negb (String.eqb doc_path "")); simpl.
    + pose proof (extract_emails_from_doc_scope (base_domain s) out) as He.
      destruct (store_doc_emails_stored _ url html full_url rest _ s He)
        as (Hst & _).
      destruct (store_doc_emails _ _ s) as [sa [[]|]]; simpl in *; [|done].
      eapply stored_same; [done|done| | |exact Hst].
      * apply mine_documents_profiles.
      * by apply (mine_documents_advanced (WDownload url html full_url rest)).
    + eapply stored_same; [done|done| | |apply stored_refl].
      * apply mine_documents_profiles.
      * by apply (mine_documents_advanced (WDownload url html full_url rest)).
Qed.

End harvest.

Section harvest_invariant.

Context `{!UrlLib}.
Variable cfg : Config.

Implicit Types (s : State) (t : nat) (w : Worker).

(** The steps of the system, with what a worker does after its first
    segment spelled out. *)
Lemma exec_worked s ev s' :
  exec cfg s ev = Some s' →
  (ev = CrawlResumes ∧ returned s = false ∧ s' = crawl_resume cfg s)
  ∨ (∃ t url, ev = WorkerStarts t ∧ tasks s !! t = Some (WStart url) ∧
              s' = resume t (scrape_page_begin cfg url) s)
  ∨ (∃ t w s1 r,
       tasks s !! t = Some w ∧ worked w s s1 r ∧
       (s' = discard_task t s1 ∨ s' = set_task t (default WDone r) s1)).
Proof.
  destruct ev as [|t|t [html|]|t doc_path out|t|t]; simpl.
  - destruct (returned s) eqn:Hr; [done|]. intros [= <-]. by left.
  - destruct (tasks s !! t) as [[]|] eqn:Ht; try done.
    intros [= <-]. right; left. eauto.
  - destruct (tasks s !! t) as [[]|] eqn:Ht; try done.
    intros [= <-]. right; right. rewrite resume_eq.
    eexists t, _, _, _. split_and!; [done| |by right].
    apply scrape_page_fetched_worked.
  - destruct (tasks s !! t) as [[]|] eqn:Ht; try done.
    intros [= <-]. right; right.
    eexists t, _, s, None. split_and!; [done|apply worked_refl|by right].
  - destruct (tasks s !! t) as [[]|] eqn:Ht; try done.
    intros [= <-]. right; right. rewrite resume_eq.
    eexists t, _, _, _. split_and!; [done| |by right].
    apply scrape_page_downloaded_worked.
  - destruct (tasks s !! t) as [[]|] eqn:Ht; try done.
    intros [= <-]. right; right.
    eexists t, _, s, None. split_and!; [done|apply worked_refl|by right].
  - destruct (tasks s !! t) as [[]|] eqn:Ht; try done.
    intros [= <-]. right; right.
    eexists t, _, s, None. split_and!; [done|apply worked_refl|by left].
Qed.

(** The inner loop of [crawl] takes its URLs from the frontier and keeps
    the number of tasks within the ceiling. *)
Lemma launch_spec q ts n q' ts' n' :
  launch cfg q ts n = (q', ts', n') →
  (size ts ≤ CONCURRENT cfg → size ts' ≤ CONCURRENT cfg) ∧
  (∀ u, u ∈ q' → u ∈ q) ∧
  (∀ t w, ts' !! t = Some w → ts !! t = Some w ∨ ∃ u, w = WStart u ∧ u ∈ q).
Proof.
  revert ts n. induction q as [|url q IH]; intros ts n; cbn [launch].
  { intros [= <- <- <-]. auto. }
  destruct (Nat.ltb_spec (size ts) (CONCURRENT cfg)) as [Hlt|Hge];
    [|intros [= <- <- <-]; auto].
  intros (Hsize & Hq & Hts)%IH. split_and!.
  - intros _. apply Hsize. rewrite map_size_insert.
    destruct (ts !! n); simpl; lia.
  - intros u ?%Hq. by right.
  - intros t w [[[-> <-]|[_ ?]]%lookup_insert_Some|(u & -> & ?)]%Hts.
    + right. exists url. split; [done|left].
    + by left.
    + right. exists u. split; [done|by right].
Qed.

Lemma worker_ok_mono seeds base s s' w :
  (∀ u, u ∈ fetched s → u ∈ fetched s') →
  (∀ u, u ∈ downloaded s → u ∈ downloaded s') →
  worker_ok seeds base s w → worker_ok seeds base s' w.
Proof.
  intros Hf Hd. destruct w; simpl; [done|auto| |done..].
  intros [? ?]. auto.
Qed.

Lemma record_ok_mono base s s' key r :
  (∀ u, u ∈ fetched s → u ∈ fetched s') →
  (∀ u, u ∈ downloaded s → u ∈ downloaded s') →
  record_ok base s key r → record_ok base s' key r.
Proof.
  intros Hf Hd (? & ? & [?|[? ?]]); (split_and!; [done..|]); auto.
Qed.

(** A step of a worker after its first segment keeps the invariant. *)
Lemma harvest_inv_worked seeds base t w s s1 r s' :
  harvest_inv cfg seeds base s → tasks s !! t = Some w → worked w s s1 r →
  calls s' = calls s1 → profiles s' = profiles s1 → queue s' = queue s1 →
  documents s' = documents s1 → visited s' = visited s1 →
  base_domain s' = base_domain s1 →
  size (tasks s') ≤ size (tasks s) →
  (∀ t' w', tasks s' !! t' = Some w' →
            tasks s !! t' = Some w' ∨ w' = default WDone r) →
  harvest_inv cfg seeds base s'.
Proof.
  intros [Hbase Hsize Hvis Hdocs Hdl Hqueue Hfet Hwork Hprof Hdos1 Hdos]
    Ht [Hl Ha Hs] Hc Hp Hq Hd Hv Hb Hsz Hts.
  pose proof (fetched_later _ _ _ page_call_not_fetch Hl) as Hf.
  assert (fetched s' = fetched s) as Hf'.
  { unfold fetched in *. by rewrite Hc. }
  assert (downloaded s' = downloaded s1) as Hdl'.
  { unfold downloaded. by rewrite Hc. }
  assert (dossiers s' = dossiers s1) as Hdos'.
  { unfold dossiers. by rewrite Hc. }
  assert (∀ u, u ∈ downloaded s → u ∈ downloaded s') as Hmono.
  { intros u Hu. rewrite Hdl'.
    destruct r as [[]|]; simpl in Ha; try done.
    - destruct Ha as (_ & _ & _ & -> & _). by right.
    - destruct Ha as (_ & -> & _). done.
    - destruct Ha as (_ & -> & _). done. }
  assert (∀ u, u ∈ fetched s → u ∈ fetched s') as Hmonof.
  { intros u. by rewrite Hf'. }
  destruct Hl as [_ Hlb Hlv _ _ _ _ _ _ _ _].
  split.
  - by rewrite Hb, Hlb.
  - lia.
  - intros u. by rewrite Hv, Hlv, Hf'.
  - intros u. rewrite Hd, Hdl'.
    destruct r as [[]|]; simpl in Ha; try done.
    + destruct Ha as (_ & _ & -> & -> & _).
      rewrite elem_of_union, elem_of_singleton, elem_of_cons, Hdocs. done.
    + destruct Ha as (-> & -> & _). apply Hdocs.
    + destruct Ha as (-> & -> & _). apply Hdocs.
  - rewrite Hdl'. destruct r as [[]|]; simpl in Ha; try done.
    + destruct Ha as (_ & Hnew & _ & -> & _). constructor; [|done].
      by rewrite <- Hdocs.
    + by destruct Ha as (_ & -> & _).
    + by destruct Ha as (_ & -> & _).
  - intros u. rewrite Hq.
    destruct r as [[]|]; simpl in Ha; try done.
    + destruct Ha as (_ & _ & _ & _ & ->). apply Hqueue.
    + destruct Ha as (_ & _ & next & -> & Hnext).
      intros [?|[? _]%Hnext]%elem_of_app; [by apply Hqueue|].
      right. by rewrite <- Hbase.
    + destruct Ha as (_ & _ & next & -> & Hnext).
      intros [?|[? _]%Hnext]%elem_of_app; [by apply Hqueue|].
      right. by rewrite <- Hbase.
  - intros u. rewrite Hf'. apply Hfet.
  - intros t' w' [Hold| ->]%Hts.
    + eapply worker_ok_mono; [done..|]. by eapply Hwork.
    + destruct r as [[]|]; simpl in *; try done.
      destruct Ha as (Hpage & _ & _ & Hnew & _).
      rewrite Hf', Hdl', Hnew. split; [|left].
      specialize (Hwork _ _ Ht).
      destruct w; simpl in *; simplify_eq; [done|by destruct Hwork].
  - intros key r0. rewrite Hp.
    destruct Hs as (news & _ & _ & Hnews & Hiff).
    intros [Hin|Hold]%Hiff.
    + apply Hnews in Hin as (_ & _ & _ & Hscope & Hrec).
      specialize (Hwork _ _ Ht). rewrite Hbase in Hscope.
      destruct w; simpl in *; try done.
      * destruct Hrec as (Hsrc & Hconf). split_and!; [done|by right|].
        left. rewrite Hsrc. by apply Hmonof.
      * subst r0. split_and!; [done|by left|].
        right. split; [|done]. apply Hmono, Hwork.
    + eapply record_ok_mono; [done..|]. by apply Hprof.
  - rewrite Hdos'. destruct Hs as (news & -> & Hnd & Hnews & _).
    rewrite fmap_app. apply NoDup_app. split_and!; [done| |done].
    intros key ([k r1] & -> & Hin)%list_elem_of_fmap
      ([k' r2] & Hk & Hin')%list_elem_of_fmap.
    simpl in Hk. subst k'. apply Hnews in Hin as [Hfree _].
    apply Hdos in Hin'. congruence.
  - intros key r0. rewrite Hdos', Hp.
    destruct Hs as (news & -> & _ & _ & Hiff).
    by rewrite Hiff, elem_of_app, Hdos.
Qed.

Lemma harvest_inv_exec seeds base s ev s' :
  exec cfg s ev = Some s' →
  harvest_inv cfg seeds base s → harvest_inv cfg seeds base s'.
Proof.
  intros [(-> & Hr & ->)|[(t & url & -> & Ht & ->)
                         |(t & w & s1 & r & Ht & Hw & Hs')]]%exec_worked Hinv.
  - unfold crawl_resume. destruct (_ && _); [|by destruct Hinv].
    destruct (launch cfg (queue s) (tasks s) (created s)) as [[q ts] n] eqn:Hla.
    apply launch_spec in Hla as (Hsize & Hq & Hts).
    destruct Hinv. split; try done; simpl.
    + by apply Hsize.
    + intros u ?%Hq. auto.
    + intros t w [?|(u & -> & ?)]%Hts; [by eapply hv_workers0|].
      by apply hv_queue0.
  - rewrite resume_eq. unfold scrape_page_begin.
    destruct (bool_decide (url ∈ visited s) || (MAX_PAGES cfg <=? pages s));
      simpl.
    + destruct Hinv. split; try done; simpl.
      * by rewrite map_size_insert_Some.
      * intros t' w [[_ <-]|[_ ?]]%lookup_insert_Some; [done|].
        by eapply hv_workers0.
    + destruct Hinv. split; try done; simpl.
      * by rewrite map_size_insert_Some.
      * intros u. change (fetched _) with (url :: fetched s).
        by rewrite elem_of_union, elem_of_singleton, elem_of_cons, hv_visited0.
      * intros u. change (fetched _) with (url :: fetched s).
        intros [->|?]%elem_of_cons; [|auto]. by apply (hv_workers0 _ _ Ht).
      * intros t' w [[_ <-]|[_ Ht']]%lookup_insert_Some; [by left|].
        eapply worker_ok_mono; [| |by eapply hv_workers0]; [|done].
        intros u ?. by right.
      * intros key r Hk. eapply record_ok_mono; [| |by apply hv_profiles0]; [|done].
        intros u ?. by right.
  - pose proof Hw as [[_ _ _ _ Htasks _ _ _ _ _ _] _ _].
    destruct Hs' as [-> | ->].
    + eapply harvest_inv_worked; try done; simpl.
      * rewrite Htasks. apply map_subseteq_size, delete_subseteq.
      * intros t' w' [_ ?]%lookup_delete_Some. left. by rewrite <- Htasks.
    + eapply harvest_inv_worked; try done; simpl.
      * rewrite Htasks. by rewrite map_size_insert_Some.
      * intros t' w' [[_ <-]|[_ ?]]%lookup_insert_Some; [by right|left].
        by rewrite <- Htasks.
Qed.

(** A state in which nothing has been done yet. *)
Lemma harvest_inv_initial s0 :
  calls s0 = [] → profiles s0 = ∅ → tasks s0 = ∅ → visited s0 = ∅ →
  documents s0 = ∅ →
  harvest_inv cfg (queue s0) (base_domain s0) s0.
Proof.
  intros Hc Hp Ht Hv Hd.
  assert (fetched s0 = []) as Hf by (unfold fetched; by rewrite Hc).
  assert (downloaded s0 = []) as Hdl by (unfold downloaded; by rewrite Hc).
  assert (dossiers s0 = []) as Hdos by (unfold dossiers; by rewrite Hc).
  split.
  - done.
  - rewrite Ht, map_size_empty. lia.
  - intros u. by rewrite Hv, Hf, elem_of_nil, elem_of_empty.
  - intros u. by rewrite Hd, Hdl, elem_of_nil, elem_of_empty.
  - rewrite Hdl. constructor.
  - intros u ?. by left.
  - intros u. rewrite Hf. by intros ?%elem_of_nil.
  - intros t w. by rewrite Ht, lookup_empty.
  - intros key r. by rewrite Hp, lookup_empty.
  - rewrite Hdos. constructor.
  - intros key r. rewrite Hdos, Hp, lookup_empty, elem_of_nil. done.
Qed.

Lemma harvest_inv_begin root subdomains s0 :
  crawl_begin root subdomains = Some s0 →
  harvest_inv cfg (queue s0) (base_domain s0) s0.
Proof.
  unfold crawl_begin. intros (si & Hi & Hb)%bind_Some.
  apply bind_Some in Hi as (domain & _ & [= <-]).
  apply bind_Some in Hb as (paths & _ & [= <-]).
  by apply harvest_inv_initial.
Qed.

Lemma harvest_inv_run seeds base s evs s' :
  run cfg s evs = Some s' →
  harvest_inv cfg seeds base s → harvest_inv cfg seeds base s'.
Proof.
  revert s. induction evs as [|ev evs IH]; intros s; simpl.
  { by intros [= <-]. }
  destruct (exec cfg s ev) as [s1|] eqn:Hex; [|done]. simpl.
  eauto using harvest_inv_exec.
Qed.

End harvest_invariant.

Section harvest_theorems.

Context `{!UrlLib}.
Variable cfg : Config.

Implicit Types (s : State) (t : nat) (w : Worker).

Lemma reachable_harvest root subdomains s :
  reachable cfg root subdomains s →
  ∃ s0, crawl_begin root subdomains = Some s0 ∧
        harvest_inv cfg (queue s0) (base_domain s0) s.
Proof.
  intros (s0 & evs & Hb & Hrun). exists s0. split; [done|].
  eauto using harvest_inv_run, harvest_inv_begin.
Qed.

Lemma stored_confidence_bounds c :
  stored_confidence c →
  (0.3 <=? c)%float = true ∧ (c <=? 0.95)%float = true.
Proof.
  intros [->|(b1 & b2 & b3 & b4 & ->)]; [done|].
  by destruct b1, b2, b3, b4; vm_compute.
Qed.

(** A stored confidence falls in exactly one of the three classes of
    [finalize]. *)
Lemma stored_confidence_class c :
  stored_confidence c →
  Nat.b2n (0.8 <=? c)%float
  + Nat.b2n ((0.6 <=? c)%float && (c <? 0.8)%float)
  + Nat.b2n (c <? 0.6)%float = 1.
Proof.
  intros [->|(b1 & b2 & b3 & b4 & ->)]; [done|].
  by destruct b1, b2, b3, b4; vm_compute.
Qed.

Lemma filter_classes {A} (f g h : A → bool) (l : list A) :
  Forall (λ x, Nat.b2n (f x) + Nat.b2n (g x) + Nat.b2n (h x) = 1) l →
  length (List.filter f l) + length (List.filter g l)
  + length (List.filter h l) = length l.
Proof.
  induction 1 as [|x l Hx _ IH]; [done|]. simpl.
  destruct (f x), (g x), (h x); simpl in *; lia.
Qed.

(** X7: a crawl never changes its base domain, and every URL it has
    fetched, holds on its frontier or has given to a task that has not
    started is one of its start URLs (the root, the discovered subdomains
    and the sensitive paths) or has a host in scope. *)
Theorem X7_crawl_stays_in_scope root subdomains s :
  reachable cfg root subdomains s →
  ∃ s0, crawl_begin root subdomains = Some s0 ∧
    base_domain s = base_domain s0 ∧
    ∀ u, (u ∈ fetched s ∨ u ∈ queue s ∨ ∃ t, tasks s !! t = Some (WStart u)) →
         u ∈ queue s0 ∨ url_in_scope (base_domain s) u.
Proof.
  intros (s0 & Hb & Hinv)%reachable_harvest. exists s0.
  destruct Hinv. split_and!; [done..|]. rewrite hv_base0.
  intros u [?|[?|[t Ht]]].
  - by apply hv_fetched0.
  - by apply hv_queue0.
  - apply (hv_workers0 _ _ Ht).
Qed.

(** X8: in every state a crawl can reach no document URL has been handed
    to [download_document] twice, the document set is exactly the set of
    the URLs handed to it, and so the number of documents that [finalize]
    reports is the number of downloads attempted, whether they succeeded
    or not. *)
Theorem X8_documents_downloaded_once root subdomains s :
  reachable cfg root subdomains s →
  NoDup (downloaded s) ∧
  (∀ u, u ∈ documents s ↔ u ∈ downloaded s) ∧
  size (documents s) = length (downloaded s).
Proof.
  intros (s0 & Hb & Hinv)%reachable_harvest. destruct Hinv.
  split_and!; [done..|].
  rewrite <- (size_list_to_set (C := gset string)) by done.
  f_equal. apply set_eq. intros u. by rewrite elem_of_list_to_set.
Qed.

(** X9: in every state a crawl can reach, the task set of [crawl],
    finished tasks that are not yet discarded included, has at most
    [CONCURRENT] members. *)
Theorem X9_tasks_within_concurrency root subdomains s :
  reachable cfg root subdomains s → size (tasks s) ≤ CONCURRENT cfg.
Proof. intros (s0 & Hb & Hinv)%reachable_harvest. by destruct Hinv. Qed.

(** X10: in every state a crawl can reach the visited set is exactly the
    set of the URLs handed to the fetch, and the page counter is its
    size. *)
Theorem X10_visited_are_the_fetched root subdomains s :
  reachable cfg root subdomains s →
  (∀ u, u ∈ visited s ↔ u ∈ fetched s) ∧ size (visited s) = pages s.
Proof.
  intros Hreach.
  destruct (reachable_inv cfg _ _ _ Hreach) as (Hnd & _ & Hlen & _).
  apply reachable_harvest in Hreach as (s0 & Hb & Hinv). destruct Hinv.
  split; [done|]. rewrite <- Hlen.
  rewrite <- (size_list_to_set (C := gset string)) by done.
  f_equal. apply set_eq. intros u. by rewrite elem_of_list_to_set.
Qed.

(** X11: every record of a state a crawl can reach sits under an address
    that passes the scope test for the base domain, has a confidence
    between 0.3 and 0.95, and names as its source either a page that was
    fetched or a document that was handed to the downloader, in which
    case it is the fixed document record. *)
Theorem X11_records_in_scope_with_source root subdomains s key r :
  reachable cfg root subdomains s →
  profiles s !! key = Some r →
  is_target_domain (base_domain s) key = Some true ∧
  (0.3 <=? p_confidence r)%float = true ∧
  (p_confidence r <=? 0.95)%float = true ∧
  (p_source_url r ∈ fetched s
   ∨ (p_source_url r ∈ downloaded s ∧ r = doc_record key (p_source_url r))).
Proof.
  intros (s0 & Hb & Hinv)%reachable_harvest Hk. destruct Hinv.
  destruct (hv_profiles0 _ _ Hk) as (Hscope & Hconf & Hsrc).
  apply stored_confidence_bounds in Hconf as [? ?].
  rewrite hv_base0. by split_and!.
Qed.

(** X12: the three counts of the confidence breakdown of [finalize] add
    up to the number of profiles: every record a crawl stores falls in
    exactly one of the classes high, medium and low. *)
Theorem X12_finalize_breakdown root subdomains s :
  reachable cfg root subdomains s →
  high s + medium s + low s = size (profiles s).
Proof.
  intros (s0 & Hb & Hinv)%reachable_harvest. destruct Hinv.
  unfold high, medium, low.
  rewrite filter_classes.
  - unfold profile_values. by rewrite length_fmap, length_map_to_list.
  - apply Forall_forall. intros p ([key r] & -> & Hin)%list_elem_of_fmap.
    apply elem_of_map_to_list in Hin. simpl.
    apply stored_confidence_class. by apply (hv_profiles0 _ _ Hin).
Qed.

(** X13: in every state a crawl can reach, one dossier was written for
    each record and none besides: no address has two dossiers, the data
    of a dossier is the record stored under its address, and the number
    of dossiers written is the number of profiles. *)
Theorem X13_one_dossier_per_record root subdomains s :
  reachable cfg root subdomains s →
  NoDup ((dossiers s).*1) ∧
  (∀ key r, (key, r) ∈ dossiers s ↔ profiles s !! key = Some r) ∧
  length (dossiers s) = size (profiles s).
Proof.
  intros (s0 & Hb & Hinv)%reachable_harvest. destruct Hinv.
  split_and!; [done..|].
  rewrite <- length_map_to_list. apply Permutation_length.
  apply NoDup_Permutation.
  - by eapply NoDup_fmap_1.
  - apply NoDup_map_to_list.
  - intros [key r]. by rewrite elem_of_map_to_list.
Qed.

End harvest_theorems.

(** ** The department *)

Lemma table_level_at (table : list (string * list string)) i j level kws kws' :
  NoDup table.*1 →
  table !! i = Some (level, kws) → table !! j = Some (level, kws') → i = j.
Proof.
  intros Hnd Hi Hj. eapply NoDup_lookup; [exact Hnd|..].
  - by rewrite list_lookup_fmap, Hi.
  - by rewrite list_lookup_fmap, Hj.
Qed.

Lemma dept_names_NoDup : NoDup DEPT_KEYWORDS.*1.
Proof. apply (bool_decide_unpack _). by_compute. Qed.

Lemma dept_level_known i kws : DEPT_KEYWORDS !! i = Some ("General", kws) → False.
Proof. do 5 (destruct i as [|i]; [by simplify_eq/=|]). done. Qed.

(** X14: the department is chosen like the seniority: the departments are
    scored in the order of the table by the number of their keywords that
    occur in the cleaned text, the first one with the highest score wins,
    and the department is General if and only if every department scores
    zero.  When the two winning scores add up to more than 2, the
    seniority or the department is known, so the fourth signal of the
    confidence never comes alone. *)
Theorem X14_department_first_highest (text email : string) :
  ∃ r, classify_profile text email = Some r ∧
    let clean_text := collapse_ws false (lower text) in
    (ai_department r = "General" ↔
     ∀ dept kws, (dept, kws) ∈ DEPT_KEYWORDS →
                 keyword_score kws clean_text = 0) ∧
    (∀ i dept kws,
       DEPT_KEYWORDS !! i = Some (dept, kws) →
       (ai_department r = dept ↔
        0 < keyword_score kws clean_text ∧
        first_best clean_text DEPT_KEYWORDS i dept
          (keyword_score kws clean_text))) ∧
    (2 < (score_table SENIORITY_KEYWORDS "unknown" clean_text).2
         + (score_table DEPT_KEYWORDS "General" clean_text).2 →
     ai_seniority r ≠ "unknown" ∨ ai_department r ≠ "General").
Proof.
  destruct (classify_profile_total text email) as [sn ->].
  eexists. split; [done|]. cbn zeta. cbn [ai_department ai_seniority].
  set (clean := collapse_ws false (lower text)).
  pose proof (score_table_spec clean DEPT_KEYWORDS "General") as Hspec.
  pose proof (score_table_spec clean SENIORITY_KEYWORDS "unknown") as Hsen.
  cbn zeta in Hspec, Hsen.
  destruct (score_table DEPT_KEYWORDS "General" clean) as [dep m].
  destruct (score_table SENIORITY_KEYWORDS "unknown" clean) as [lvl n].
  simpl in Hspec, Hsen. cbn [fst snd].
  split_and!.
  - split.
    + intros ->. destruct Hspec as [(_ & _ & Hz)|(_ & i & kws & Hi & _)].
      * intros dept kws [j Hj]%list_elem_of_lookup. apply (Hz _ _ Hj).
      * by destruct (dept_level_known _ _ Hi).
    + intros Hz. destruct Hspec as [(_ & -> & _)|(Hm & i & kws & Hi & Hs & _)].
      * done.
      * rewrite (Hz dep kws) in Hs; [lia|].
        apply list_elem_of_lookup. eauto.
  - intros i dept kws Hi. split.
    + intros ->.
      destruct Hspec as [(_ & -> & _)|(Hm & j & kws' & Hj & Hs & Hf & Hle)].
      * by destruct (dept_level_known _ _ Hi).
      * assert (j = i) as ->
          by (eapply table_level_at; [apply dept_names_NoDup|done..]).
        rewrite Hi in Hj. injection Hj as <-. subst m.
        split; [done|]. by exists kws.
    + intros [Hpos Hbest].
      destruct Hspec as [(_ & _ & Hz)|(Hm & j & Hj)].
      * pose proof (Hz _ _ Hi) as H0. simpl in H0. lia.
      * by destruct (first_best_unique _ _ _ _ _ _ _ _ Hbest Hj) as (_ & -> & _).
  - intros Hrich.
    destruct Hsen as [(-> & _)|(_ & i & kws & Hi & _)].
    + destruct Hspec as [(-> & _)|(_ & j & kws & Hj & _)]; [lia|].
      right. intros ->. by destruct (dept_level_known _ _ Hj).
    + left. intros ->. by destruct (seniority_level_known _ _ Hi).
Qed.

(** ** The context snippet *)

Lemma is_space_lower_char c : is_space (lower_char c) = is_space c.
Proof. by destruct c as [[] [] [] [] [] [] [] []]. Qed.

Lemma all_chars_impl (p q : ascii → bool) s :
  (∀ c, p c = true → q c = true) → all_chars p s = true → all_chars q s = true.
Proof.
  intros Hpq. induction s as [|c s IH]; [done|]. simpl.
  intros [Hc Hs]%andb_true_iff. by rewrite (Hpq _ Hc), IH.
Qed.

Lemma all_chars_lower p s :
  (∀ c, p (lower_char c) = p c) → all_chars p (lower s) = all_chars p s.
Proof. intros Hp. induction s as [|c s IH]; [done|]. simpl. by rewrite Hp, IH. Qed.

Lemma length_substring_le n m s : String.length (String.substring n m s) ≤ m.
Proof.
  revert n m. induction s as [|c s IH]; intros [|n] [|m]; simpl;
    first [lia | apply IH | (specialize (IH 0 m); lia)].
Qed.

Lemma length_lstrip_le s : String.length (lstrip s) ≤ String.length s.
Proof.
  induction s as [|c s IH]; [done|]. simpl. destruct (is_space c); simpl; lia.
Qed.

Lemma length_rstrip_le s : String.length (rstrip s) ≤ String.length s.
Proof.
  induction s as [|c s IH]; [done|]. simpl.
  destruct (rstrip s); [destruct (is_space c)|]; simpl in *; lia.
Qed.

Lemma rstrip_idemp s : rstrip (rstrip s) = rstrip s.
Proof.
  induction s as [|c s IH]; [done|]. simpl.
  destruct (rstrip s) as [|d r] eqn:Hr.
  - destruct (is_space c) eqn:Hc; [done|]. simpl. by rewrite Hc.
  - cbn [rstrip]. cbn [rstrip] in IH. by rewrite IH.
Qed.

(** What [lstrip] leaves does not start with white space. *)
Lemma lstrip_head s : lstrip (lstrip s) = lstrip s.
Proof.
  induction s as [|c s IH]; [done|]. simpl.
  destruct (is_space c) eqn:Hc; [done|]. simpl. by rewrite Hc.
Qed.

Lemma lstrip_rstrip s : lstrip s = s → lstrip (rstrip s) = rstrip s.
Proof.
  destruct s as [|c s]; [done|]. simpl.
  destruct (is_space c) eqn:Hc.
  - intros Heq. pose proof (length_lstrip_le s) as Hle.
    rewrite Heq in Hle. simpl in Hle. lia.
  - intros _. destruct (rstrip s); simpl; by rewrite Hc.
Qed.

(** The result of [strip] has no white space at either end. *)
Lemma strip_idemp s : strip (strip s) = strip s.
Proof.
  unfold strip. rewrite (lstrip_rstrip (lstrip s)) by apply lstrip_head.
  apply rstrip_idemp.
Qed.

Lemma length_strip_le s : String.length (strip s) ≤ String.length s.
Proof.
  unfold strip. pose proof (length_rstrip_le (lstrip s)).
  pose proof (length_lstrip_le s). lia.
Qed.

Lemma lower_substring n m s :
  lower (String.substring n m s) = String.substring n m (lower s).
Proof.
  revert n m. induction s as [|c s IH]; intros [|n] [|m]; simpl;
    first [done | apply IH | by rewrite IH].
Qed.

Lemma lower_lstrip s : lower (lstrip s) = lstrip (lower s).
Proof.
  induction s as [|c s IH]; [done|]. simpl. rewrite is_space_lower_char.
  by destruct (is_space c).
Qed.

Lemma lower_rstrip s : lower (rstrip s) = rstrip (lower s).
Proof.
  induction s as [|c s IH]; [done|]. simpl. rewrite <- IH, is_space_lower_char.
  destruct (rstrip s); [by destruct (is_space c)|done].
Qed.

Lemma lower_strip s : lower (strip s) = strip (lower s).
Proof. unfold strip. by rewrite lower_rstrip, lower_lstrip. Qed.

Lemma index_spec sub s i :
  index sub s = Some i →
  ∃ a b, s = a +:+ sub +:+ b ∧ String.length a = i.
Proof.
  revert i. induction s as [|c s IH]; intros i; cbn [index].
  - destruct (startswith sub "") eqn:Hs; [|done]. intros [= <-].
    apply startswith_spec in Hs as [t Ht]. by exists "", t.
  - destruct (startswith sub (String c s)) eqn:Hs.
    + intros [= <-]. apply startswith_spec in Hs as [t Ht]. by exists "", t.
    + destruct (index sub s) as [j|] eqn:Hj; [|done]. intros [= <-].
      destruct (IH _ eq_refl) as (a & b & -> & <-).
      by exists (String c a), b.
Qed.

Lemma split_at n a :
  n ≤ String.length a →
  ∃ a1 a2, a = a1 +:+ a2 ∧ String.length a1 = n.
Proof.
  revert a. induction n as [|n IH]; intros a Hn; [by exists "", a|].
  destruct a as [|c a]; simpl in *; [lia|].
  destruct (IH a) as (a1 & a2 & -> & <-); [lia|].
  by exists (String c a1), a2.
Qed.

Lemma substring_skip a k t :
  String.substring (String.length a) k (a +:+ t) = String.substring 0 k t.
Proof. induction a as [|c a IH]; [done|]. by rewrite app_cons. Qed.

Lemma substring_take p k t :
  String.length p ≤ k →
  String.substring 0 k (p +:+ t)
  = p +:+ String.substring 0 (k - String.length p) t.
Proof.
  revert k. induction p as [|c p IH]; intros k Hk.
  { by rewrite Nat.sub_0_r. }
  destruct k as [|k]; simpl in *; [lia|]. rewrite app_cons.
  cbn [String.substring]. rewrite IH by lia. done.
Qed.

(** The window of 200 characters that starts at most 100 characters
    before an occurrence of at most 100 characters contains it. *)
Lemma window_keeps a m b :
  String.length m ≤ 100 →
  ∃ x y, String.substring (String.length a - 100) 200 (a +:+ m +:+ b)
         = x +:+ m +:+ y.
Proof.
  intros Hm.
  destruct (split_at (String.length a - 100) a) as (a1 & a2 & -> & Hlen);
    [lia|].
  rewrite <- Hlen, app_assoc, substring_skip.
  rewrite length_app in Hlen.
  rewrite <- (app_assoc a2 m b), substring_take by (rewrite length_app; lia).
  rewrite app_assoc. eauto.
Qed.

Lemma lstrip_keeps x m y :
  all_chars (λ c, negb (is_space c)) m = true → m ≠ "" →
  ∃ x', lstrip (x +:+ m +:+ y) = x' +:+ m +:+ y.
Proof.
  intros Hm Hne. induction x as [|c x [x' IH]].
  - exists "". destruct m as [|c m]; [done|]. simpl in *.
    apply andb_true_iff in Hm as [Hc%negb_true_iff _]. by rewrite Hc.
  - rewrite app_cons. cbn [lstrip]. destruct (is_space c); [by exists x'|].
    by exists (String c x).
Qed.

Lemma rstrip_app x t : rstrip t ≠ "" → rstrip (x +:+ t) = x +:+ rstrip t.
Proof.
  intros Ht. induction x as [|c x IH]; [done|].
  rewrite !app_cons. cbn [rstrip].
  rewrite IH. destruct (x +:+ rstrip t) as [|d r] eqn:Hx; [|done].
  destruct x; [|done]. by rewrite app_nil_l in Hx.
Qed.

Lemma rstrip_keeps m y :
  all_chars (λ c, negb (is_space c)) m = true → m ≠ "" →
  ∃ y', rstrip (m +:+ y) = m +:+ y'.
Proof.
  induction m as [|c m IH]; [done|]. intros [Hc%negb_true_iff Hm]%andb_true_iff _.
  rewrite app_cons. cbn [rstrip]. destruct m as [|d m].
  - rewrite app_nil_l. destruct (rstrip y) as [|e r].
    + rewrite Hc. by exists "".
    + by exists (String e r).
  - destruct (IH Hm) as [y' ->]; [done|]. rewrite app_cons. by exists y'.
Qed.

Lemma strip_keeps x m y :
  all_chars (λ c, negb (is_space c)) m = true → m ≠ "" →
  ∃ x' y', strip (x +:+ m +:+ y) = x' +:+ m +:+ y'.
Proof.
  intros Hm Hne. unfold strip.
  destruct (lstrip_keeps x m y Hm Hne) as [x' ->].
  destruct (rstrip_keeps m y Hm Hne) as [y' Hy].
  exists x', y'. rewrite rstrip_app; rewrite Hy; [done|].
  destruct m; [done|]. by rewrite app_cons.
Qed.

(** The snippet cut around the first occurrence of [email] in a line shows
    it, when it has no white space and at most 100 characters. *)
Lemma snippet_shows line email i :
  index email (lower line) = Some i →
  all_chars (λ c, negb (is_space c)) email = true → email ≠ "" →
  String.length email ≤ 100 →
  contains email (lower (strip (slice (i - 100) 200 line))) = true.
Proof.
  intros (a & b & Hline & <-)%index_spec Hns Hne Hlen.
  unfold slice. rewrite lower_strip, lower_substring, Hline.
  destruct (window_keeps a email b Hlen) as (x & y & ->).
  destruct (strip_keeps x email y Hns Hne) as (x' & y' & ->).
  apply contains_spec. eauto.
Qed.

Lemma contains_lower m s :
  contains m s = true → contains (lower m) (lower s) = true.
Proof.
  intros (a & b & ->)%contains_spec. apply contains_spec.
  exists (lower a), (lower b). by rewrite !lower_app.
Qed.

Lemma contains_cons m c s : contains m s = true → contains m (String c s) = true.
Proof. intros H. cbn [contains]. by rewrite H, orb_true_r. Qed.

Lemma split_on_prefix is_sep m b :
  all_chars (λ c, negb (is_sep c)) m = true →
  ∃ t ts, split_on is_sep (m +:+ b) = (m +:+ t) :: ts.
Proof.
  induction m as [|c m IH].
  - intros _. rewrite app_nil_l. destruct b as [|c b]; [by exists "", []|].
    cbn [split_on]. destruct (is_sep c); [by exists "", (split_on is_sep b)|].
    destruct (split_on is_sep b) as [|t ts]; [by exists (String c ""), []|].
    by exists (String c t), ts.
  - cbn [all_chars]. intros [Hc%negb_true_iff Hm]%andb_true_iff.
    rewrite app_cons. cbn [split_on]. rewrite Hc.
    destruct (IH Hm) as (t & ts & ->). by exists t, ts.
Qed.

(** A text that shows [m], which has no separator, shows it on one of its
    lines. *)
Lemma split_on_contains is_sep m text :
  all_chars (λ c, negb (is_sep c)) m = true →
  contains m text = true →
  ∃ line, line ∈ split_on is_sep text ∧ contains m line = true.
Proof.
  intros Hm. induction text as [|c s IH]; cbn [contains].
  - rewrite orb_false_r. intros [t Ht]%startswith_spec.
    exists "". split; [simpl; left|]. apply contains_spec. exists "", "".
    destruct m; [done|]. by rewrite app_cons in Ht.
  - intros [Hs|Hc]%orb_true_iff.
    + apply startswith_spec in Hs as [b ->].
      destruct (split_on_prefix is_sep m b Hm) as (t & ts & ->).
      exists (m +:+ t). split; [left|]. apply contains_spec. by exists "", t.
    + destruct (IH Hc) as (line & Hin & Hline). cbn [split_on].
      destruct (is_sep c).
      * exists line. split; [by right|done].
      * destruct (split_on is_sep s) as [|t ts]; [by apply elem_of_nil in Hin|].
        apply elem_of_cons in Hin as [->|Hin].
        -- exists (String c t). split; [left|by apply contains_cons].
        -- exists line. split; [by right|done].
Qed.

(** The loop of [_get_snippet]: its result is cut to 200 characters and
    stripped, and it is cut around the address when a line shows it. *)
Lemma snippet_of_lines_spec lines email :
  ∃ sn, snippet_of_lines lines email = Some sn ∧
    String.length sn ≤ 200 ∧ strip sn = sn ∧
    ((∀ line, line ∈ lines → contains email (lower line) = false) →
     sn = "Context not found") ∧
    ((∃ line, line ∈ lines ∧ contains email (lower line) = true) →
     ∃ line i, line ∈ lines ∧ index email (lower line) = Some i ∧
               sn = strip (slice (i - 100) 200 line)).
Proof.
  induction lines as [|line lines IH]; cbn [snippet_of_lines].
  { eexists. split; [done|]. split_and!; [simpl; lia|done|done|].
    by intros (line & ?%elem_of_nil & _). }
  destruct (contains email (lower line)) eqn:Hc.
  - destruct (contains_index _ _ Hc) as [i Hi]. rewrite Hi. simpl.
    eexists. split; [done|]. split_and!.
    + etrans; [apply length_strip_le|]. apply length_substring_le.
    + apply strip_idemp.
    + intros Hnone. rewrite Hnone in Hc; [done|left].
    + intros _. exists line, i. split_and!; [left|done|done].
  - destruct IH as (sn & -> & Hlen & Hstrip & Hnone & Hsome).
    exists sn. split; [done|]. split_and!; [done..| |].
    + intros Hall. apply Hnone. intros l Hl. apply Hall. by right.
    + intros (l & [->|Hl]%elem_of_cons & Hl'); [congruence|].
      destruct Hsome as (l' & i & ? & ? & ?); [by exists l|].
      exists l', i. split_and!; [by right|done..].
Qed.

Lemma address_no_space m :
  address_shape m → all_chars (λ c, negb (is_space c)) m = true ∧ m ≠ "".
Proof.
  intros (loc & dom & tld & -> & Hne & _ & _ & Hloc & Hdom & Htld). split.
  - rewrite !all_chars_app.
    rewrite (all_chars_impl class_local _ loc), (all_chars_impl class_domain _ dom),
      (all_chars_impl class_tld _ tld); try done.
    all: by intros [[] [] [] [] [] [] [] []].
  - by destruct loc.
Qed.

(** X15: [_get_snippet] never raises; its result has at most 200
    characters and no white space at either end, and the cell that
    [export_to_excel] makes of it has at most 103.  It is "Context not
    found" when no line shows the address.  On a text of the ASCII
    range, when the address is the lowercased form of a match of the
    e-mail pattern in the text and has at most 100 characters, some line
    shows it and the snippet, compared in lower case, contains it.  (The
    window is cut out of the line at an index found in the lowercased
    line; the two agree on ASCII text only.) *)
Theorem X15_snippet_shows_address (text email : string) :
  ∃ sn, _get_snippet text email = Some sn ∧
    String.length sn ≤ 200 ∧ strip sn = sn ∧
    String.length (excel_snippet sn) ≤ 103 ∧
    ((∀ line, line ∈ split_on (λ c, Ascii.eqb c newline) text →
              contains email (lower line) = false) →
     sn = "Context not found") ∧
    (ascii_text text = true →
     ∀ m, m ∈ findall email_pattern text → email = lower m →
          String.length m ≤ 100 →
          contains email (lower sn) = true).
Proof.
  unfold _get_snippet.
  destruct (snippet_of_lines_spec
              (split_on (λ c, Ascii.eqb c newline) text) email)
    as (sn & Hsn & Hlen & Hstrip & Hnone & Hsome).
  exists sn. split_and!; [done..| |done|].
  - unfold excel_snippet.
    destruct (Nat.ltb_spec 100 (String.length sn)); [|lia].
    rewrite length_app. unfold slice.
    pose proof (length_substring_le 0 100 sn). simpl. lia.
  - intros _ m [Hshape Hsub]%findall_address -> Hm.
    apply address_no_space in Hshape as [Hns Hne].
    destruct (split_on_contains (λ c, Ascii.eqb c newline) m text)
      as (line & Hin & Hline); [|done|].
    { eapply all_chars_impl; [|exact Hns].
      by intros [[] [] [] [] [] [] [] []]. }
    destruct Hsome as (l & i & _ & Hi & ->).
    { exists line. split; [done|]. by apply contains_lower. }
    apply snippet_shows; [done| | |by rewrite length_lower].
    + by rewrite all_chars_lower by (intros c; by rewrite is_space_lower_char).
    + by apply lower_nonempty.
Qed.

(** ** The start of a crawl *)

Lemma lower_drop n s : lower (drop n s) = drop n (lower s).
Proof.
  revert s. induction n as [|n IH]; intros [|c s]; simpl;
    first [done | apply IH].
Qed.

Lemma rstrip_char_spec c s :
  ∃ tail, s = rstrip_char c s +:+ tail ∧
    all_chars (λ d, Ascii.eqb d c) tail = true ∧
    endswith (String c "") (rstrip_char c s) = false.
Proof.
  induction s as [|d s (tail & Hs & Htail & Hend)]; [by exists ""|].
  cbn [rstrip_char]. destruct (rstrip_char c s) as [|e r] eqn:Hr.
  - rewrite app_nil_l in Hs. subst tail.
    destruct (Ascii.eqb d c) eqn:Hd.
    + exists (String d s). split_and!; [done|simpl; by rewrite Hd|done].
    + exists s. split_and!; [done|done|].
      cbn. by rewrite Hd.
  - exists tail. split_and!; [by rewrite app_cons, <- Hs|done|].
    change (endswith (String c "") (String d (String e r)))
      with (String.eqb (String d (String e r)) (String c "")
            || endswith (String c "") (String e r)).
    rewrite Hend, orb_false_r. apply String.eqb_neq. intros [= _ ?].
Qed.

Section start.

Context `{!UrlLib}.

(** X16: [__init__] leaves a base domain in lower case, for which the
    host of the root URL is in scope (it is the host, or the host without
    its leading [www.]), and a root URL that is the given one without its
    trailing slashes.  With such a base domain the scope test of an
    address only depends on the lowercased host after its last [@]. *)
Theorem X16_init_normalizes (root : string) (s : State) :
  init root = Some s →
  lower (base_domain s) = base_domain s ∧
  url_in_scope (base_domain s) root ∧
  (∃ tail, root = root_url s +:+ tail ∧
     all_chars (λ c, Ascii.eqb c "/"%char) tail = true) ∧
  endswith "/" (root_url s) = false ∧
  (∀ e, is_target_domain (base_domain s) e = Some true ↔
        ∃ loc host, e = loc +:+ String "@"%char host ∧
          contains_char "@"%char host = false ∧
          in_scope (base_domain s) (lower host) = true).
Proof.
  unfold init. intros (domain & Hd & Heq)%bind_Some. cbv zeta in Heq.
  set (base := if startswith "www." (lower domain)
               then drop 4 (lower domain) else lower domain) in Heq.
  assert (lower base = base ∧ in_scope base (lower domain) = true)
    as [Hlow Hin].
  { unfold base. destruct (startswith "www." (lower domain)) eqn:Hw.
    - split; [by rewrite lower_drop, lower_idemp|].
      apply startswith_spec in Hw as [t ->]. apply in_scope_spec.
      right. by exists "www".
    - split; [apply lower_idemp|]. apply in_scope_spec. by left. }
  clearbody base. injection Heq as <-. cbn [base_domain root_url].
  destruct (rstrip_char_spec "/"%char root) as (tail & Htail & Hall & Hend).
  split_and!.
  - done.
  - by exists domain.
  - by exists tail.
  - done.
  - intros e. rewrite is_target_domain_ok. unfold scope_rule.
    by setoid_rewrite in_scope_spec.
Qed.

End start.

Lemma strip_fixed_app p t :
  lstrip p = p → p ≠ "" → rstrip p = p → strip t = t → strip (p +:+ t) = p +:+ t.
Proof.
  intros Hl Hne Hr Ht. unfold strip in *.
  assert (lstrip (p +:+ t) = p +:+ t) as ->.
  { destruct p as [|c p]; [done|]. rewrite app_cons. simpl in *.
    destruct (is_space c); [|done].
    pose proof (length_lstrip_le p) as Hle. rewrite Hl in Hle. simpl in Hle. lia. }
  destruct t as [|d t].
  - by rewrite app_nil_r.
  - assert (rstrip (String d t) = String d t) as Hrt.
    { rewrite <- Ht. apply rstrip_idemp. }
    rewrite rstrip_app; by rewrite Hrt.
Qed.

(** X17: the target that [main] hands to the crawler always starts with
    [http://] or [https://] and has no white space at either end; it is
    the stripped input with [https://] in front when that input has no
    such prefix (the test is case-sensitive), and normalizing a target
    again changes nothing. *)
Theorem X17_main_target_has_scheme (input : string) :
  (startswith "http://" (main_target input) = true
   ∨ startswith "https://" (main_target input) = true) ∧
  strip (main_target input) = main_target input ∧
  main_target (main_target input) = main_target input ∧
  (startswith "http://" (strip input) = false →
   startswith "https://" (strip input) = false →
   main_target input = "https://" +:+ strip input).
Proof.
  assert (strip (main_target input) = main_target input) as Hstrip.
  { unfold main_target. cbn zeta.
    destruct (negb _); [|apply strip_idemp].
    apply strip_fixed_app; [done..|apply strip_idemp]. }
  assert (startswith "http://" (main_target input) = true
          ∨ startswith "https://" (main_target input) = true) as Hscheme.
  { unfold main_target. cbn zeta.
    destruct (startswith "http://" (strip input)) eqn:H1; [by left|].
    destruct (startswith "https://" (strip input)) eqn:H2; [by right|].
    right. apply startswith_app. }
  split_and!; [done|done| |].
  - unfold main_target at 1. cbn zeta. rewrite Hstrip.
    by destruct Hscheme as [-> | ->]; rewrite ?orb_true_r.
  - intros H1 H2. unfold main_target. cbn zeta. by rewrite H1, H2.
Qed.

(** ** The e-mail extraction of appv0.1.py *)

Lemma add_emails_eq base found emails :
  Deobfuscation.add_emails base found emails
  = add_target_emails (lower base) found emails.
Proof.
  revert emails. induction found as [|email rest IH]; intros emails; [done|].
  cbn [Deobfuscation.add_emails add_target_emails].
  rewrite AppV01_is_target_domain_eq.
  by destruct (is_target_domain (lower base) email) as [[]|]; rewrite ?IH.
Qed.

Lemma add_emails_spec base found emails :
  NoDup emails →
  let res := Deobfuscation.add_emails (lower base) found emails in
  res.2 = false ∧ NoDup res.1 ∧
  ∀ e, e ∈ res.1 ↔
       e ∈ emails ∨
       ∃ m, m ∈ found ∧ is_target_domain (lower base) m = Some true ∧
            e = lower m.
Proof. rewrite add_emails_eq, lower_idemp. apply add_target_emails_spec. Qed.

Lemma nonempty_length s : (0 <? String.length s) = true → s ≠ "".
Proof. by destruct s. Qed.

Lemma spelled_spec sep prev s g len :
  Deobfuscation.spelled sep prev s = Some (g, len) → spelled_shape g.
Proof.
  unfold Deobfuscation.spelled.
  destruct (span_spec Deobfuscation.class_name s) as [_ Hloc].
  destruct (span Deobfuscation.class_name s) as [loc r].
  destruct (0 <? String.length loc) eqn:Hl; [|done].
  destruct (sep r) as [n1|]; [|done]. cbn [mbind option_bind].
  match goal with |- context [startswith "at" ?x] =>
    destruct (startswith "at" x) end; [|done].
  match goal with |- context [sep ?x] =>
    destruct (sep x) as [n2|] end; [|done]. cbn [mbind option_bind].
  match goal with |- context [span Deobfuscation.class_host ?x] =>
    destruct (span_spec Deobfuscation.class_host x) as [_ Hdom];
    destruct (span Deobfuscation.class_host x) as [dom r'] end.
  destruct (0 <? String.length dom) eqn:Hd; [|done].
  destruct (sep r') as [n3|]; [|done]. cbn [mbind option_bind].
  match goal with |- context [startswith "dot" ?x] =>
    destruct (startswith "dot" x) end; [|done].
  match goal with |- context [sep ?x] =>
    destruct (sep x) as [n4|] end; [|done]. cbn [mbind option_bind].
  match goal with |- context [span is_alpha ?x] =>
    destruct (span_spec is_alpha x) as [_ Htld];
    destruct (span is_alpha x) as [tld r''] end.
  cbn [fst] in *.
  destruct (Nat.leb_spec 2 (String.length tld)); [|done].
  intros [= <- _]. exists loc, dom, tld.
  split_and!; [done|by apply nonempty_length..|done|done|done|done].
Qed.

(** The extraction of appv0.1.py never raises, and collects the lowercased
    addresses in scope from its three sources. *)
Lemma deobfuscating_extraction_spec (text base : string) :
  ∃ emails,
    Deobfuscation.extract_and_clean_emails text base = Some emails ∧
    NoDup emails ∧
    (∀ e, e ∈ emails ↔
       ∃ m, is_target_domain (lower base) m = Some true ∧ e = lower m ∧
         (m ∈ findall email_pattern text
          ∨ ((contains "[at]" text = true ∨ contains "(at)" text = true) ∧
             m ∈ findall email_pattern (Deobfuscation.normalize text))
          ∨ m ∈ findall (Deobfuscation.spelled Deobfuscation.blanks) text
          ∨ m ∈ findall (Deobfuscation.spelled Deobfuscation.one_blank) text)) ∧
    (∀ found, extract_and_clean_emails (lower base) text = Some found →
              ∀ e, e ∈ found → e ∈ emails).
Proof.
  unfold Deobfuscation.extract_and_clean_emails. cbn zeta.
  pose proof (add_emails_spec base (findall email_pattern text) []
                NoDup_nil_2) as H1.
  destruct (Deobfuscation.add_emails (lower base) (findall email_pattern text) [])
    as [es1 r1] eqn:E1.
  cbn zeta in H1. cbn [fst snd] in H1. destruct H1 as (-> & Hnd1 & Hin1).
  set (b := lower base) in *.
  set (pass := contains "[at]" text || contains "(at)" text).
  assert (∃ es2,
    (if pass
     then Deobfuscation.add_emails b
            (findall email_pattern (Deobfuscation.normalize text)) es1
     else (es1, false)) = (es2, false) ∧ NoDup es2 ∧
    ∀ e, e ∈ es2 ↔
         e ∈ es1 ∨
         (pass = true ∧
          ∃ m, m ∈ findall email_pattern (Deobfuscation.normalize text) ∧
               is_target_domain b m = Some true ∧ e = lower m))
    as (es2 & -> & Hnd2 & Hin2).
  { destruct pass.
    - pose proof (add_emails_spec base
                    (findall email_pattern (Deobfuscation.normalize text))
                    es1 Hnd1) as H2. fold b in H2.
      destruct (Deobfuscation.add_emails b _ es1) as [es2 r2].
      cbn zeta in H2. cbn [fst snd] in H2. destruct H2 as (-> & Hnd2 & Hin2).
      exists es2. split_and!; [done..|]. intros e. rewrite Hin2.
      split; [intros [?|?]; auto|]. intros [?|[_ ?]]; auto.
    - exists es1. split_and!; [done..|]. intros e. split; [auto|].
      by intros [?|[? _]]. }
  pose proof (add_emails_spec base
                (findall (Deobfuscation.spelled Deobfuscation.blanks) text)
                es2 Hnd2) as H3. fold b in H3.
  destruct (Deobfuscation.add_emails b _ es2) as [es3 r3].
  cbn zeta in H3. cbn [fst snd] in H3. destruct H3 as (-> & Hnd3 & Hin3).
  pose proof (add_emails_spec base
                (findall (Deobfuscation.spelled Deobfuscation.one_blank) text)
                es3 Hnd3) as H4. fold b in H4.
  destruct (Deobfuscation.add_emails b _ es3) as [es4 r4].
  cbn zeta in H4. cbn [fst snd] in H4. destruct H4 as (-> & Hnd4 & Hin4).
  assert (∀ e, e ∈ es4 ↔
    ∃ m, is_target_domain b m = Some true ∧ e = lower m ∧
      (m ∈ findall email_pattern text
       ∨ ((contains "[at]" text = true ∨ contains "(at)" text = true) ∧
          m ∈ findall email_pattern (Deobfuscation.normalize text))
       ∨ m ∈ findall (Deobfuscation.spelled Deobfuscation.blanks) text
       ∨ m ∈ findall (Deobfuscation.spelled Deobfuscation.one_blank) text))
    as Hin.
  { intros e. rewrite Hin4, Hin3, Hin2, Hin1.
    unfold pass. rewrite orb_true_iff. split.
    - intros [[[[[]%elem_of_nil|(m & ? & ? & ?)]
                |(? & m & ? & ? & ?)]|(m & ? & ? & ?)]|(m & ? & ? & ?)];
        exists m; (split_and!; [done..|]); auto.
    - intros (m & ? & ? & [?|[[? ?]|[?|?]]]).
      + left; left; left; right. by exists m.
      + left; left; right. split; [done|]. by exists m.
      + left; right. by exists m.
      + right. by exists m. }
  exists es4. split_and!; [done|done|exact Hin|].
  intros found Hfound e He. apply Hin.
  unfold extract_and_clean_emails in Hfound.
  unfold b in E1. rewrite add_emails_eq, lower_idemp in E1. fold b in E1.
  rewrite E1 in Hfound. injection Hfound as <-.
  apply Hin1 in He as [[]%elem_of_nil|(m & ? & ? & ->)].
  exists m. split_and!; [done..|]. by left.
Qed.

Lemma deobfuscating_extraction_scope text base emails e :
  Deobfuscation.extract_and_clean_emails text base = Some emails →
  e ∈ emails →
  lower e = e ∧ is_target_domain (lower base) e = Some true.
Proof.
  destruct (deobfuscating_extraction_spec text base)
    as (es & -> & _ & Hin & _).
  intros [= <-] (m & Hm & -> & _)%Hin. split; [apply lower_idemp|].
  by rewrite is_target_domain_lower.
Qed.

(** X18: [extract_and_clean_emails] of appv0.1.py never raises.  Its
    result has no duplicates and is exactly the set of the lowercased
    addresses that pass the scope test among: the matches of the e-mail
    pattern in the text; those in the normalized text, but only when the
    text contains [[at]] or [(at)] in exactly this spelling; and the
    addresses made of the matches of the two spelled-out patterns.  So it
    contains every address that the extraction of advanced_email_v3.py
    finds for the lowercased base domain.  An address made of a
    spelled-out match is name, [@], host, [.], top-level part, with a name
    over [[a-z0-9._-]], a host over [[a-z0-9.-]] and an alphabetic
    top-level part of at least two letters, without regard to case; the
    host may contain dots, as in [john at mail.duet dot pk], which yields
    [john@mail.duet.pk].  The example of the comment in the source yields
    no address, because the substitutions leave the blanks around the
    brackets in place; written without blanks it yields the address. *)
Theorem X18_deobfuscating_extraction (text base : string) :
  ∃ emails,
    Deobfuscation.extract_and_clean_emails text base = Some emails ∧
    NoDup emails ∧
    (∀ e, e ∈ emails ↔
       ∃ m, is_target_domain (lower base) m = Some true ∧ e = lower m ∧
         (m ∈ findall email_pattern text
          ∨ ((contains "[at]" text = true ∨ contains "(at)" text = true) ∧
             m ∈ findall email_pattern (Deobfuscation.normalize text))
          ∨ m ∈ findall (Deobfuscation.spelled Deobfuscation.blanks) text
          ∨ m ∈ findall (Deobfuscation.spelled Deobfuscation.one_blank) text)) ∧
    (∀ e, e ∈ emails →
          lower e = e ∧ is_target_domain (lower base) e = Some true) ∧
    (∀ found, extract_and_clean_emails (lower base) text = Some found →
              ∀ e, e ∈ found → e ∈ emails) ∧
    (∀ sep m, m ∈ findall (Deobfuscation.spelled sep) text → spelled_shape m) ∧
    Deobfuscation.extract_and_clean_emails spaced_example "duet.edu.pk"
    = Some [] ∧
    Deobfuscation.extract_and_clean_emails dense_example "duet.edu.pk"
    = Some ["john@duet.edu.pk"] ∧
    Deobfuscation.extract_and_clean_emails spelled_example "duet.pk"
    = Some ["john@mail.duet.pk"].
Proof.
  destruct (deobfuscating_extraction_spec text base)
    as (emails & Hex & Hnd & Hin & Hsup).
  exists emails. split_and!; [done|done|exact Hin| |exact Hsup| |by_compute..].
  - intros e He. by eapply deobfuscating_extraction_scope.
  - intros sep m (prev & a & s' & len & _ & Hm)%scan_elem.
    by eapply spelled_spec.
Qed.

(** ** Fetching *)

Lemma fetch_attempts_spec n a outcome log :
  let res := Fetch.fetch_attempts n a outcome log in
  ∃ k, k ≤ n ∧ (∀ j, j < k → outcome (a + j) = Fetch.Page None true) ∧
    slept res.2 = slept log + 2 * k ∧
    launch_calls res.2 = launch_calls log ∧
    match res.1 with
    | Some html =>
        close_failed res.2 = close_failed log ∧
        ((k = n ∧ html = "" ∧
          opened res.2 = opened log + n ∧ closed res.2 = closed log + n)
         ∨ (k < n ∧ outcome (a + k) = Fetch.Page (Some html) true ∧
            opened res.2 = opened log + S k ∧
            closed res.2 = closed log + S k))
    | None =>
        k < n ∧
        ((outcome (a + k) = Fetch.NoContext ∧
          opened res.2 = opened log + k ∧ closed res.2 = closed log + k ∧
          close_failed res.2 = close_failed log)
         ∨ (outcome (a + k) = Fetch.NoPage ∧
            opened res.2 = opened log + S k ∧ closed res.2 = closed log + k ∧
            close_failed res.2 = close_failed log)
         ∨ ((∃ content, outcome (a + k) = Fetch.Page content false) ∧
            opened res.2 = opened log + S k ∧ closed res.2 = closed log + k ∧
            close_failed res.2 = S (close_failed log)))
    end.
Proof.
  revert a log. induction n as [|n IH]; intros a log; cbn zeta.
  { exists 0. cbn [Fetch.fetch_attempts fst snd].
    split_and!; try lia. left. split_and!; first [done | lia]. }
  cbn [Fetch.fetch_attempts].
  destruct (outcome a) as [| |[html|] []] eqn:Ha.
  - exists 0. replace (a + 0) with a by lia. cbn [fst snd].
    split_and!; try lia. left. split_and!; first [done | lia].
  - exists 0. replace (a + 0) with a by lia. cbn [fst snd].
    unfold opened, closed, close_failed, launch_calls, slept. simpl.
    split_and!; try lia. right; left. split_and!; first [done | lia].
  - exists 0. replace (a + 0) with a by lia.
    unfold opened, closed, close_failed, launch_calls, slept. simpl.
    split_and!; try lia. right. split_and!; first [done | lia].
  - exists 0. replace (a + 0) with a by lia. cbn [fst snd].
    unfold opened, closed, close_failed, launch_calls, slept. simpl.
    split_and!; try lia. right; right.
    split_and!; first [by eexists | lia].
  - specialize (IH (S a)
                  (Fetch.Sleep 2 :: Fetch.CloseContext :: Fetch.OpenContext
                   :: log)).
    cbn zeta in IH. destruct IH as (k & Hk & Hall & Hs & Hl & Hres).
    exists (S k). split_and!.
    + lia.
    + intros [|j] Hj; [by rewrite Nat.add_0_r|].
      replace (a + S j) with (S a + j) by lia. apply Hall. lia.
    + rewrite Hs. unfold slept. simpl. lia.
    + rewrite Hl. unfold launch_calls. by simpl.
    + replace (a + S k) with (S a + k) by lia.
      destruct (Fetch.fetch_attempts n (S a) outcome _) as [[html|] log'];
        unfold opened, closed, close_failed in *; simpl in *.
      * destruct Hres as (? & [(-> & -> & ? & ?)|(? & ? & ? & ?)]);
          (split; [lia|]); [left|right]; split_and!; first [done | lia].
      * destruct Hres as (? & [(? & ? & ? & ?)|[(? & ? & ? & ?)|(? & ? & ? & ?)]]);
          (split; [lia|]); [left|right; left|right; right];
          split_and!; first [done | lia].
  - exists 0. replace (a + 0) with a by lia. cbn [fst snd].
    unfold opened, closed, close_failed, launch_calls, slept. simpl.
    split_and!; try lia. right; right.
    split_and!; first [by eexists | lia].
Qed.

Lemma static_attempts_spec n a reply slept0 :
  let res := Fetch.static_attempts n a reply slept0 in
  ∃ k, k ≤ n ∧ (∀ j, j < k → ∀ text, reply (a + j) ≠ Fetch.Ok text) ∧
    slept0 ≤ res.2 ∧ res.2 ≤ slept0 + 5 * k ∧
    ((k = n ∧ res.1 = "") ∨ (k < n ∧ reply (a + k) = Fetch.Ok res.1)).
Proof.
  revert a slept0. induction n as [|n IH]; intros a slept0; cbn zeta.
  { exists 0. simpl. split_and!; [done|lia|lia|lia|]. by left. }
  cbn [Fetch.static_attempts].
  assert (∀ s1, slept0 ≤ s1 → s1 ≤ slept0 + 5 →
            (∀ text, reply a ≠ Fetch.Ok text) →
            let res := Fetch.static_attempts n (S a) reply s1 in
            ∃ k, k ≤ S n ∧
              (∀ j, j < k → ∀ text, reply (a + j) ≠ Fetch.Ok text) ∧
              slept0 ≤ res.2 ∧ res.2 ≤ slept0 + 5 * k ∧
              ((k = S n ∧ res.1 = "")
               ∨ (k < S n ∧ reply (a + k) = Fetch.Ok res.1))) as Hnext.
  { intros s1 Hlo Hhi Ha. cbn zeta.
    destruct (IH (S a) s1) as (k & Hk & Hall & H1 & H2 & Hres).
    exists (S k). split_and!; [lia| |lia|lia|].
    - intros [|j] Hj; [by rewrite Nat.add_0_r|].
      replace (a + S j) with (S a + j) by lia. apply Hall. lia.
    - replace (a + S k) with (S a + k) by lia.
      destruct Hres as [[-> ?]|[? ?]]; [left|right]; split; first [done|lia]. }
  destruct (reply a) as [text| | |] eqn:Ha.
  - exists 0. replace (a + 0) with a by lia. cbn [fst snd].
    split_and!; try lia. right. split; [lia|done].
  - apply Hnext; [lia|lia|done].
  - apply Hnext; [lia|lia|done].
  - apply Hnext; [lia|lia|done].
Qed.

(** X19: [fetch_with_evasion] opens at most two contexts, sleeps at most
    four seconds and calls [init_browser] only when [self.browser] is not
    set.  When it returns, [close()] was called on every context it opened
    and returned each time, and the result is the content of the first
    attempt, or that of the second one after the first navigation failed,
    or the empty string after both failed (having slept twice).  It raises
    in four cases and no other: [init_browser] raises, with no context
    opened; [new_context] raises, with every context closed;
    [add_init_script] or [new_page] raises, outside the [try], and then
    one context is left open without [close()] being called; or
    [context.close()] raises in the [finally] clause, and then the
    exception replaces the result, so that a content that was obtained is
    lost. *)
Theorem X19_fetch_contexts_and_result (browser launch : bool)
    (outcome : nat → Fetch.Attempt) :
  let res := Fetch.fetch_with_evasion browser launch outcome in
  opened res.2 ≤ 2 ∧ slept res.2 ≤ 4 ∧
  launch_calls res.2 = (if browser then 0 else 1) ∧
  (∀ html, res.1 = Some html →
     (browser = true ∨ launch = true) ∧
     opened res.2 = closed res.2 ∧ close_failed res.2 = 0 ∧
     (outcome 0 = Fetch.Page (Some html) true
      ∨ (outcome 0 = Fetch.Page None true ∧
         outcome 1 = Fetch.Page (Some html) true)
      ∨ (outcome 0 = Fetch.Page None true ∧
         outcome 1 = Fetch.Page None true ∧
         html = "" ∧ slept res.2 = 4))) ∧
  (res.1 = None →
     (browser = false ∧ launch = false ∧ opened res.2 = 0)
     ∨ (opened res.2 = closed res.2 ∧ close_failed res.2 = 0 ∧
        ∃ k, k < 2 ∧ outcome k = Fetch.NoContext)
     ∨ (opened res.2 = S (closed res.2) ∧ close_failed res.2 = 0 ∧
        ∃ k, k < 2 ∧ outcome k = Fetch.NoPage)
     ∨ (opened res.2 = S (closed res.2) ∧ close_failed res.2 = 1 ∧
        ∃ k content, k < 2 ∧ outcome k = Fetch.Page content false)) ∧
  (∀ content, outcome 0 = Fetch.Page content false → res.1 = None).
Proof.
  cbn zeta.
  assert (∀ log0, opened log0 = 0 → closed log0 = 0 → close_failed log0 = 0 →
            slept log0 = 0 →
            let res := Fetch.fetch_attempts 2 0 outcome log0 in
            opened res.2 ≤ 2 ∧ slept res.2 ≤ 4 ∧
            launch_calls res.2 = launch_calls log0 ∧
            (∀ html, res.1 = Some html →
               opened res.2 = closed res.2 ∧ close_failed res.2 = 0 ∧
               (outcome 0 = Fetch.Page (Some html) true
                ∨ (outcome 0 = Fetch.Page None true ∧
                   outcome 1 = Fetch.Page (Some html) true)
                ∨ (outcome 0 = Fetch.Page None true ∧
                   outcome 1 = Fetch.Page None true ∧
                   html = "" ∧ slept res.2 = 4))) ∧
            (res.1 = None →
               (opened res.2 = closed res.2 ∧ close_failed res.2 = 0 ∧
                ∃ k, k < 2 ∧ outcome k = Fetch.NoContext)
               ∨ (opened res.2 = S (closed res.2) ∧ close_failed res.2 = 0 ∧
                  ∃ k, k < 2 ∧ outcome k = Fetch.NoPage)
               ∨ (opened res.2 = S (closed res.2) ∧ close_failed res.2 = 1 ∧
                  ∃ k content, k < 2 ∧ outcome k = Fetch.Page content false)) ∧
            (∀ content, outcome 0 = Fetch.Page content false → res.1 = None))
    as Hloop.
  { intros log0 Ho Hc Hf Hsl. cbn zeta.
    destruct (fetch_attempts_spec 2 0 outcome log0)
      as (k & Hk & Hall & Hs & Hl & Hres).
    cbn zeta in *. split_and!.
    - destruct (Fetch.fetch_attempts 2 0 outcome log0) as [[html|] log];
        cbn [fst snd] in *.
      + destruct Hres as (_ & [(_ & _ & ? & _)|(? & _ & ? & _)]); lia.
      + destruct Hres as (? & [(_ & ? & _)|[(_ & ? & _)|(_ & ? & _)]]); lia.
    - lia.
    - exact Hl.
    - intros html Hr. rewrite Hr in Hres.
      destruct Hres as (Hfail & [(-> & -> & ? & ?)|(? & Hout & ? & ?)]).
      + split_and!; [lia|lia|]. right; right.
        split_and!; [apply (Hall 0); lia|apply (Hall 1); lia|done|lia].
      + split_and!; [lia|lia|]. destruct k as [|[|k]]; [by left| |lia].
        right; left. split; [apply (Hall 0); lia|done].
    - intros Hr. rewrite Hr in Hres.
      destruct Hres
        as (? & [(? & ? & ? & ?)|[(? & ? & ? & ?)|([c ?] & ? & ? & ?)]]).
      + left. split_and!; [lia|lia|]. by exists k.
      + right; left. split_and!; [lia|lia|]. by exists k.
      + right; right. split_and!; [lia|lia|]. by exists k, c.
    - intros content Hout. cbn [Fetch.fetch_attempts]. rewrite Hout.
      by destruct content. }
  unfold Fetch.fetch_with_evasion. destruct browser.
  - destruct (Hloop [] eq_refl eq_refl eq_refl eq_refl)
      as (Ho & Hs & Hl & Hret & Hraise & Hlost).
    split_and!; [done|done|exact Hl| | |done].
    + intros html Hr. split; [by left|]. by apply Hret.
    + intros Hr. right. by apply Hraise.
  - destruct launch.
    + destruct (Hloop [Fetch.InitBrowser] eq_refl eq_refl eq_refl eq_refl)
        as (Ho & Hs & Hl & Hret & Hraise & Hlost).
      split_and!; [done|done|exact Hl| | |done].
      * intros html Hr. split; [by right|]. by apply Hret.
      * intros Hr. right. by apply Hraise.
    + cbn [fst snd].
      split_and!; [unfold opened; simpl; lia|unfold slept; simpl; lia
                  |done|done| |done].
      intros _. by left.
Qed.

(** X20: [fetch_static] of appv0.1.py never raises and sleeps at most 15
    seconds; it returns the text of the first reply with status 200 among
    its three attempts, and the empty string when there is none. *)
Theorem X20_fetch_static_first_ok (reply : nat → Fetch.Reply) :
  let res := Fetch.fetch_static reply in
  res.2 ≤ 15 ∧
  ((res.1 = "" ∧ ∀ j, j < 3 → ∀ text, reply j ≠ Fetch.Ok text)
   ∨ ∃ k, k < 3 ∧ reply k = Fetch.Ok res.1 ∧
          ∀ j, j < k → ∀ text, reply j ≠ Fetch.Ok text).
Proof.
  cbn zeta. unfold Fetch.fetch_static.
  destruct (static_attempts_spec 3 0 reply 0) as (k & Hk & Hall & _ & Hs & Hres).
  cbn zeta in *. split; [lia|].
  destruct Hres as [[-> ?]|[? ?]]; [left|right].
  - split; [done|]. intros j Hj. by apply (Hall j).
  - exists k. split_and!; [done..|]. intros j Hj. by apply (Hall j).
Qed.

(** ** The browser *)

Section browser.

Import Browser.

Implicit Types (s : State) (t : nat) (p : Phase).

Lemma tally_insert_None {A} (f : A → nat) (m : gmap nat A) t x :
  m !! t = None → tally f (<[t := x]> m) = f x + tally f m.
Proof.
  intros Ht. unfold tally. rewrite map_fold_insert_L; [done| |done].
  intros. lia.
Qed.

Lemma tally_insert_Some {A} (f : A → nat) (m : gmap nat A) t x y :
  m !! t = Some x → tally f (<[t := y]> m) + f x = f y + tally f m.
Proof.
  intros Ht. rewrite <- insert_delete_eq.
  rewrite tally_insert_None by apply lookup_delete_eq.
  rewrite <- (insert_id m t x Ht) at 2. rewrite <- insert_delete_eq.
  rewrite tally_insert_None by apply lookup_delete_eq. lia.
Qed.

Lemma tally_one {A} (m : gmap nat A) : tally (λ _, 1) m = size m.
Proof.
  induction m as [|t x m Ht IH] using map_ind; [done|].
  rewrite tally_insert_None, map_size_insert_None by done. by rewrite IH.
Qed.

Lemma browser_run_app s evs1 evs2 :
  run s (evs1 ++ evs2) = s1 ← run s evs1; run s1 evs2.
Proof.
  revert s. induction evs1 as [|ev evs1 IH]; intros s; [done|]. simpl.
  destruct (exec s ev) as [s1|]; [apply IH|done].
Qed.

(** Each launch belongs to a caller, and [self.browser] refers to a
    browser that was launched. *)
Lemma browser_inv_exec s ev s' :
  exec s ev = Some s' →
  launched s + tally starting (callers s) ≤ size (callers s) →
  (∀ id, browser s = Some id → id < launched s) →
  (∀ t id, callers s !! t = Some (Launching id) → id < launched s) →
  launched s' + tally starting (callers s') ≤ size (callers s') ∧
  (∀ id, browser s' = Some id → id < launched s') ∧
  (∀ t id, callers s' !! t = Some (Launching id) → id < launched s').
Proof.
  intros Hex Hcount Hb Hl. destruct ev as [t|t|t]; simpl in Hex.
  - destruct (callers s !! t) eqn:Ht; [done|]. injection Hex as <-. simpl.
    rewrite tally_insert_None, map_size_insert_None by done.
    split_and!; [destruct (browser s); simpl; lia|done|].
    intros t' id [[_ Hp]|[_ ?]]%lookup_insert_Some; [|by eapply Hl].
    by destruct (browser s).
  - destruct (callers s !! t) as [[]|] eqn:Ht; try done.
    injection Hex as <-. simpl.
    pose proof (tally_insert_Some starting (callers s) t _
                  (Launching (launched s)) Ht) as Hs.
    rewrite map_size_insert_Some by done. simpl in Hs.
    split_and!; [lia| |].
    + intros id ?%Hb. lia.
    + intros t' id [[_ [= <-]]|[_ ?%Hl]]%lookup_insert_Some; lia.
  - destruct (callers s !! t) as [[]|] eqn:Ht; try done.
    injection Hex as <-. simpl.
    pose proof (tally_insert_Some starting (callers s) t _ Ready Ht) as Hs.
    rewrite map_size_insert_Some by done. simpl in Hs.
    split_and!; [lia| |].
    + intros ? [= <-]. by eapply Hl.
    + intros t' id' [[_ ?]|[_ ?]]%lookup_insert_Some; [done|by eapply Hl].
Qed.

Lemma browser_inv_run s evs s' :
  run s evs = Some s' →
  launched s + tally starting (callers s) ≤ size (callers s) →
  (∀ id, browser s = Some id → id < launched s) →
  (∀ t id, callers s !! t = Some (Launching id) → id < launched s) →
  launched s' ≤ size (callers s') ∧
  (∀ id, browser s' = Some id → id < launched s').
Proof.
  revert s. induction evs as [|ev evs IH]; intros s; simpl.
  { intros [= <-] ? ? ?. split; [lia|done]. }
  destruct (exec s ev) as [s1|] eqn:Hex; [|done]. simpl.
  intros Hrun H1 H2 H3.
  destruct (browser_inv_exec _ _ _ Hex H1 H2 H3) as (? & ? & ?). eauto.
Qed.

(** Once the browser is there and nobody is on the way to launching one,
    no other browser is launched. *)
Lemma settled_run s evs s' :
  run s evs = Some s' →
  is_Some (browser s) →
  (∀ t p, callers s !! t = Some p → p = Ready) →
  launched s' = launched s ∧ is_Some (browser s') ∧
  (∀ t p, callers s' !! t = Some p → p = Ready).
Proof.
  revert s. induction evs as [|ev evs IH]; intros s; simpl.
  { by intros [= <-]. }
  destruct (exec s ev) as [s1|] eqn:Hex; [|done]. simpl.
  intros Hrun [id Hb] Hready.
  assert (launched s1 = launched s ∧ is_Some (browser s1) ∧
          ∀ t p, callers s1 !! t = Some p → p = Ready) as (E & Hb1 & Hr1).
  { destruct ev as [t|t|t]; simpl in Hex.
    - destruct (callers s !! t) eqn:Ht; [done|]. injection Hex as <-. simpl.
      rewrite Hb. split_and!; [done|by eexists|].
      intros t' p [[_ <-]|[_ ?]]%lookup_insert_Some; [done|by eapply Hready].
    - destruct (callers s !! t) as [p|] eqn:Ht; [|done].
      by rewrite (Hready _ _ Ht) in Hex.
    - destruct (callers s !! t) as [p|] eqn:Ht; [|done].
      by rewrite (Hready _ _ Ht) in Hex. }
  destruct (IH _ Hrun Hb1 Hr1) as (? & ? & ?). split_and!; [congruence|done..].
Qed.

Lemma first_callers_size n (m : gmap nat Phase) :
  (∀ t, t < n → m !! t = Some Starting) → (∀ t, n ≤ t → m !! t = None) →
  size m = n.
Proof.
  revert m. induction n as [|n IH]; intros m Hin Hout.
  - apply map_size_empty_iff, map_eq. intros t. rewrite lookup_empty.
    apply Hout. lia.
  - rewrite <- (insert_delete_id m n Starting) by (apply Hin; lia).
    rewrite map_size_insert_None by apply lookup_delete_eq. f_equal.
    apply IH.
    + intros t Ht. rewrite lookup_delete_ne by lia. apply Hin. lia.
    + intros t Ht. destruct (decide (t = n)) as [->|Hne].
      * apply lookup_delete_eq.
      * rewrite lookup_delete_ne by done. apply Hout. lia.
Qed.

(** The calls of a crowd: everybody finds no browser. *)
Lemma crowd_calls n :
  ∃ s, run init (map Calls (seq 0 n)) = Some s ∧
    browser s = None ∧ launched s = 0 ∧
    (∀ t, t < n → callers s !! t = Some Starting) ∧
    (∀ t, n ≤ t → callers s !! t = None).
Proof.
  induction n as [|n (s & Hrun & Hb & Hl & Hin & Hout)].
  { exists init. by split_and!; [done..|lia|]. }
  rewrite seq_S, map_app, browser_run_app, Hrun. simpl.
  rewrite Hout by lia. simpl. eexists. split; [done|]. simpl. rewrite Hb.
  split_and!; [done..| |].
  - intros t Ht. destruct (decide (t = n)) as [->|Hne].
    + apply lookup_insert_eq.
    + rewrite lookup_insert_ne by done. apply Hin. lia.
  - intros t Ht. rewrite lookup_insert_ne by lia. apply Hout. lia.
Qed.

(** Then everybody launches a browser. *)
Lemma crowd_starts n k :
  k ≤ n →
  ∃ s, run init (map Calls (seq 0 n) ++ map Started (seq 0 k)) = Some s ∧
    browser s = None ∧ launched s = k ∧
    (∀ t, t < k → callers s !! t = Some (Launching t)) ∧
    (∀ t, k ≤ t → t < n → callers s !! t = Some Starting) ∧
    size (callers s) = n.
Proof.
  induction k as [|k IH]; intros Hk.
  { destruct (crowd_calls n) as (s & Hrun & Hb & Hl & Hin & Hout).
    exists s. change (map Started (seq 0 0)) with (@nil Event).
    rewrite (right_id_L [] (++)). split_and!; [done..|lia|auto|].
    by apply first_callers_size. }
  destruct IH as (s & Hrun & Hb & Hl & Hdone & Htodo & Hsize); [lia|].
  rewrite seq_S, map_app, (assoc_L (++)), browser_run_app, Hrun. simpl.
  rewrite Htodo by lia. simpl. eexists. split; [done|]. simpl.
  split_and!; [done|lia| | |].
  - intros t Ht. destruct (decide (t = k)) as [->|Hne].
    + by rewrite lookup_insert_eq, Hl.
    + rewrite lookup_insert_ne by done. apply Hdone. lia.
  - intros t Ht1 Ht2. rewrite lookup_insert_ne by lia. apply Htodo; lia.
  - rewrite map_size_insert_Some; [done|]. rewrite Htodo by lia. by eexists.
Qed.

(** Then each launch ends and is assigned to [self.browser]. *)
Lemma crowd_launches n k :
  k ≤ n →
  ∃ s, run init (map Calls (seq 0 n) ++ map Started (seq 0 n)
                 ++ map Launched (seq 0 k)) = Some s ∧
    launched s = n ∧ size (callers s) = n ∧
    (browser s = match k with 0 => None | S k' => Some k' end) ∧
    (∀ t, t < k → callers s !! t = Some Ready) ∧
    (∀ t, k ≤ t → t < n → callers s !! t = Some (Launching t)).
Proof.
  induction k as [|k IH]; intros Hk.
  { destruct (crowd_starts n n) as (s & Hrun & Hb & Hl & Hdone & _ & Hsize);
      [done|].
    exists s. change (map Launched (seq 0 0)) with (@nil Event).
    rewrite (right_id_L [] (++)). split_and!; [done..|lia|auto]. }
  destruct IH as (s & Hrun & Hl & Hsize & Hb & Hdone & Htodo); [lia|].
  rewrite seq_S, map_app, !(assoc_L (++)), browser_run_app.
  rewrite <- (assoc_L (++)), Hrun. simpl.
  rewrite Htodo by lia. simpl. eexists. split; [done|]. simpl.
  split_and!; [done| |done| |].
  - rewrite map_size_insert_Some; [done|]. rewrite Htodo by lia. by eexists.
  - intros t Ht. destruct (decide (t = k)) as [->|Hne].
    + apply lookup_insert_eq.
    + rewrite lookup_insert_ne by done. apply Hdone. lia.
  - intros t Ht1 Ht2. rewrite lookup_insert_ne by lia. apply Htodo; lia.
Qed.

(** X21: the test [if not self.browser] does not make the launch of the
    browser happen once.  In every run, no more browsers are launched
    than there are callers, [self.browser] refers to a browser that was
    launched, and once it is set with no caller on the way to a launch no
    other browser is ever launched.  But the callers that arrive before
    the first launch ends each launch one: for every [n] there is a run
    of [n + 1] callers in which [n + 1] browsers are launched, of which
    [close] closes the last one only. *)
Theorem X21_browser_launched_per_early_caller :
  (∀ evs s, run init evs = Some s →
     launched s ≤ size (callers s) ∧
     (∀ id, browser s = Some id → id < launched s) ∧
     (∀ evs' s', run s evs' = Some s' →
        is_Some (browser s) →
        (∀ t p, callers s !! t = Some p → p = Ready) →
        launched s' = launched s)) ∧
  (∀ n, ∃ s, run init (crowd (S n)) = Some s ∧
     size (callers s) = S n ∧ launched s = S n ∧
     closed_by_close s = [n]).
Proof.
  split.
  - intros evs s Hrun.
    destruct (browser_inv_run init evs s Hrun) as [Hle Hb]; [|done..|].
    { unfold tally. simpl. rewrite map_fold_empty, map_size_empty. lia. }
    split_and!; [done..|].
    intros evs' s' Hrun' ? ?. by destruct (settled_run _ _ _ Hrun') as (? & _).
  - intros n.
    destruct (crowd_launches (S n) (S n)) as (s & Hrun & Hl & Hsize & Hb & _);
      [done|].
    exists s. unfold crowd, closed_by_close. by rewrite Hb.
Qed.

End browser.

(** ** The crawl of appv0.1.py *)

Section elite.

Context `{!UrlLib}.
Variable cfg : Config.

Implicit Types (s : Elite.State) (t : nat) (w : Elite.Worker).

Lemma scraped_refl s : scraped s s.
Proof.
  split; try done; [auto|]. exists []. split; [by rewrite (right_id_L [] (++))|].
  by intros u ?%elem_of_nil.
Qed.

Lemma scraped_trans s1 s2 s3 : scraped s1 s2 → scraped s2 s3 → scraped s1 s3.
Proof.
  intros [] []. split; try congruence.
  - intros e [?|?]%scraped_emails1; [auto|right]. congruence.
  - by etrans.
  - destruct scraped_queue0 as (n1 & E1 & H1), scraped_queue1 as (n2 & E2 & H2).
    exists (n1 ++ n2). rewrite E2, E1, (assoc_L (++)). split; [done|].
    intros u [?|Hu]%elem_of_app; [auto|].
    apply H2 in Hu. by rewrite scraped_base0, scraped_visited0 in Hu.
Qed.

Lemma scraped_append full_url s :
  url_in_scope (Elite.base_domain s) full_url →
  full_url ∉ Elite.visited s →
  scraped s (Elite.append full_url s).
Proof.
  intros Hscope Hnew. split; try done; [auto|]. exists [full_url].
  split; [done|]. by intros u ->%list_elem_of_singleton.
Qed.

Lemma scraped_update new_emails s :
  (∀ e, e ∈ new_emails →
        lower e = e ∧
        is_target_domain (lower (Elite.base_domain s)) e = Some true) →
  scraped s (Elite.update_emails new_emails s).
Proof.
  intros Hnew. split; try done.
  - simpl. intros e [?%elem_of_list_to_set|?]%elem_of_union; auto.
  - simpl. apply union_subseteq_r.
  - exists []. split; [simpl; by rewrite (right_id_L [] (++))|].
    by intros u ?%elem_of_nil.
Qed.

(** The link loop appends URLs in scope that are not yet visited, and
    changes nothing else. *)
Lemma yield_links_scraped url urls s :
  scraped s (Elite.yield_links url urls s).1.
Proof.
  revert s. induction urls as [|raw urls IH]; intros s; [apply scraped_refl|].
  cbn [Elite.yield_links].
  assert (∀ full, scraped s
            (match netloc full with
             | Some domain =>
                 if in_scope (Elite.base_domain s) (lower domain)
                    && negb (bool_decide (full ∈ Elite.visited s))
                 then Elite.yield_links url urls (Elite.append full s)
                 else Elite.yield_links url urls s
             | None => (s, true)
             end).1) as Hconsider.
  { intros full. destruct (netloc full) as [domain|] eqn:Hd;
      [|apply scraped_refl].
    destruct (in_scope _ _) eqn:Hin; simpl; [|apply IH].
    case_bool_decide as Hv; simpl; [apply IH|].
    eapply scraped_trans; [|apply IH].
    apply scraped_append; [|done]. by exists domain. }
  destruct (_ || _); [apply Hconsider|].
  destruct (startswith "/" raw); [|apply IH].
  destruct (urljoin url raw); [apply Hconsider|apply scraped_refl].
Qed.

(** [scrape_page] with its page in hand. *)
Lemma scrape_page_html_scraped url html s :
  let res := Elite.scrape_page_html cfg url html s in
  scraped s res.1 ∧ (res.2 = Elite.WSleep ∨ res.2 = Elite.WDone).
Proof.
  cbn zeta. unfold Elite.scrape_page_html.
  destruct (String.eqb html ""); [split; [apply scraped_refl|by left]|].
  destruct (Deobfuscation.extract_and_clean_emails html (Elite.base_domain s))
    as [new|] eqn:Hnew; [|split; [apply scraped_refl|by right]].
  assert (scraped s (Elite.update_emails new s)) as Hup.
  { apply scraped_update. intros e He.
    by eapply deobfuscating_extraction_scope. }
  destruct (_ <? _); [|split; [done|by left]].
  pose proof (yield_links_scraped url (findall href_pattern html)
                (Elite.update_emails new s)) as Hy.
  destruct (Elite.yield_links _ _ _) as [s' raised]. simpl in *.
  split; [by eapply scraped_trans|]. destruct raised; auto.
Qed.

Lemma elite_launch_spec q ts n q' ts' n' :
  Elite.launch cfg q ts n = (q', ts', n') →
  (∀ t, n ≤ t → ts !! t = None) →
  (size ts ≤ CONCURRENT cfg → size ts' ≤ CONCURRENT cfg) ∧
  (∀ u, u ∈ q' → u ∈ q) ∧
  (∀ t w, ts' !! t = Some w →
          ts !! t = Some w ∨ ∃ u, w = Elite.WStart u ∧ u ∈ q) ∧
  (∀ t, n' ≤ t → ts' !! t = None) ∧
  ((q ≠ [] ∨ ts ≠ ∅) → 0 < CONCURRENT cfg → ts' ≠ ∅).
Proof.
  revert ts n. induction q as [|url q IH]; intros ts n; cbn [Elite.launch].
  { intros [= <- <- <-] Hfresh. split_and!; auto. by intros [?|?]. }
  destruct (Nat.ltb_spec (size ts) (CONCURRENT cfg)) as [Hlt|Hge].
  - intros Hl Hfresh. apply IH in Hl as (Hsize & Hq & Hts & Hfr & Hne).
    2:{ intros t Ht. rewrite lookup_insert_ne by lia. apply Hfresh. lia. }
    split_and!.
    + intros _. apply Hsize. rewrite map_size_insert_None by (apply Hfresh; lia).
      lia.
    + intros u ?%Hq. by right.
    + intros t w [[[-> <-]|[_ ?]]%lookup_insert_Some|(u & -> & ?)]%Hts.
      * right. exists url. split; [done|left].
      * by left.
      * right. exists u. split; [done|by right].
    + intros t Ht. apply Hfr. lia.
    + intros _ Hc. apply Hne; [|done]. right.
      apply insert_non_empty.
  - intros [= <- <- <-] Hfresh. split_and!; auto.
    intros _ Hc Hempty. rewrite Hempty, map_size_empty in Hge. lia.
Qed.

Lemma static_fetched_calls s s' :
  Elite.calls s' = Elite.calls s →
  static_fetched s' = static_fetched s ∧ dynamic_fetched s' = dynamic_fetched s.
Proof. intros Hc. unfold static_fetched, dynamic_fetched. by rewrite Hc. Qed.

Lemma elite_worker_ok_mono seeds base s s' w :
  (∀ u, u ∈ static_fetched s → u ∈ static_fetched s') →
  (∀ u, u ∈ dynamic_fetched s' → u ∈ dynamic_fetched s ∨ w ≠ Elite.WStatic u) →
  (∀ u, u ∈ dynamic_fetched s → u ∈ dynamic_fetched s') →
  elite_worker_ok seeds base s w → elite_worker_ok seeds base s' w.
Proof.
  intros Hs Hd Hd'. destruct w as [u|u|u| |]; simpl; auto.
  intros [? Hnot]. split; [auto|]. intros [?|?]%Hd; done.
Qed.

(** A step that changes the records of the page only, and leaves its
    task asleep, done or discarded. *)
Lemma elite_inv_scraped seeds base t w s s1 s' :
  elite_inv cfg seeds base s → Elite.tasks s !! t = Some w →
  scraped s s1 →
  Elite.root_url s' = Elite.root_url s1 →
  Elite.base_domain s' = Elite.base_domain s1 →
  Elite.emails s' = Elite.emails s1 → Elite.visited s' = Elite.visited s1 →
  Elite.pages s' = Elite.pages s1 → Elite.queue s' = Elite.queue s1 →
  Elite.created s' = Elite.created s1 →
  Elite.returned s' = Elite.returned s1 → Elite.calls s' = Elite.calls s1 →
  size (Elite.tasks s') ≤ size (Elite.tasks s) →
  (∀ t', Elite.tasks s !! t' = None → Elite.tasks s' !! t' = None) →
  (∀ t' w', Elite.tasks s' !! t' = Some w' →
            Elite.tasks s !! t' = Some w'
            ∨ w' = Elite.WSleep ∨ w' = Elite.WDone) →
  elite_inv cfg seeds base s'.
Proof.
  intros [] Ht [] Er Eb Ee Ev Ep Eq Ec Ert Ecl Hsize Hnone Hts.
  assert (Elite.calls s' = Elite.calls s) as Hc by congruence.
  destruct (static_fetched_calls _ _ Hc) as [Hst Hdy].
  split.
  - congruence.
  - done.
  - by rewrite Hst.
  - intros u. rewrite Hst, Ev, scraped_visited0. apply ei_visited0.
  - rewrite Hst. congruence.
  - congruence.
  - by rewrite Hdy.
  - intros u. rewrite Hst, Hdy. apply ei_dynamic0.
  - lia.
  - intros t' Ht'. apply Hnone, ei_fresh0. congruence.
  - intros t' w' [Hold|[-> | ->]]%Hts; [|done..].
    specialize (ei_workers0 _ _ Hold).
    destruct w'; simpl in *; by rewrite ?Hst, ?Hdy.
  - intros t1 t2 u [H1|[?|?]]%Hts [H2|[?|?]]%Hts; try done. by eapply ei_unique0.
  - intros u. rewrite Eq. destruct scraped_queue0 as (next & -> & Hnext).
    intros [?|[? _]%Hnext]%elem_of_app; [by apply ei_queue0|].
    right. by rewrite <- ei_base0.
  - intros u. rewrite Hst. apply ei_fetched0.
  - intros e. rewrite Ee. intros [?|[? Hin]]%scraped_emails0; [auto|].
    split; [done|]. by rewrite ei_base0, ei_lower0 in Hin.
  - rewrite Ert, scraped_returned0, Ep, scraped_pages0.
    intros [?|[_ Hempty]]%ei_returned0; [by left|].
    by rewrite Hempty in Ht.
Qed.

(** The same, for a task that goes to sleep, ends or raises. *)
Lemma elite_inv_resume seeds base t w w' s s1 :
  elite_inv cfg seeds base s → Elite.tasks s !! t = Some w →
  scraped s s1 → w' = Elite.WSleep ∨ w' = Elite.WDone →
  elite_inv cfg seeds base (Elite.set_task t w' s1).
Proof.
  intros Hinv Ht Hs Hw. pose proof Hs as [].
  eapply elite_inv_scraped; try done; simpl; rewrite scraped_tasks0.
  - by rewrite map_size_insert_Some.
  - intros t' Ht'. rewrite lookup_insert_ne; [done|]. intros <-. congruence.
  - intros t' w'' [[_ <-]|[_ ?]]%lookup_insert_Some; auto.
Qed.

Lemma elite_inv_exec seeds base s ev s' :
  Elite.exec cfg s ev = Some s' →
  elite_inv cfg seeds base s → elite_inv cfg seeds base s'.
Proof.
  intros Hex Hinv.
  destruct ev as [|t|t html|t [html|]|t|t]; simpl in Hex.
  - destruct (Elite.returned s) eqn:Hr; [done|].
    unfold Elite.crawl_resume in Hex.
    destruct (_ && _) eqn:Hcond.
    + destruct (Elite.launch cfg (Elite.queue s) (Elite.tasks s)
                  (Elite.created s)) as [[q ts] n] eqn:Hla.
      destruct Hinv.
      apply elite_launch_spec in Hla as (Hsize & Hq & Hts & Hfr & _); [|done].
      case_bool_decide; [done|]. injection Hex as <-.
      split.
      * done.
      * done.
      * done.
      * done.
      * done.
      * done.
      * done.
      * done.
      * by apply Hsize.
      * done.
      * intros t w [?|(u & -> & ?)]%Hts; [by eapply ei_workers0|].
        by apply ei_queue0.
      * intros t t' u [?|(? & ? & _)]%Hts [?|(? & ? & _)]%Hts; try done.
        by eapply ei_unique0.
      * intros u ?%Hq. auto.
      * done.
      * done.
      * simpl. congruence.
    + injection Hex as <-. destruct Hinv. split; try done. simpl. intros _.
      apply andb_false_iff in Hcond as [Hcond|Hcond].
      * right. apply orb_false_iff in Hcond as [Hq Hts].
        apply negb_false_iff, bool_decide_eq_true in Hq, Hts. done.
      * left. apply Nat.ltb_ge in Hcond. lia.
  - destruct (Elite.tasks s !! t) as [[url| | | |]|] eqn:Ht; try done.
    injection Hex as <-. unfold Elite.resume, Elite.scrape_page_begin.
    destruct (bool_decide (url ∈ Elite.visited s)
              || (MAX_PAGES cfg <=? Elite.pages s)) eqn:Hguard; cbn [fst snd].
    { eapply elite_inv_resume; [done..|apply scraped_refl|by left]. }
    apply orb_false_iff in Hguard as [Hv Hp].
    apply bool_decide_eq_false in Hv. apply Nat.leb_gt in Hp.
    destruct Hinv.
    assert (url ∉ static_fetched s) as Hnew by (by rewrite <- ei_visited0).
    set (s' := Elite.set_task _ _ _).
    assert (static_fetched s' = url :: static_fetched s) as Hst by done.
    assert (dynamic_fetched s' = dynamic_fetched s) as Hdy by done.
    assert (Elite.tasks s' = <[t:=Elite.WStatic url]> (Elite.tasks s))
      as Hts by done.
    split; rewrite ?Hst, ?Hdy, ?Hts.
    + done.
    + done.
    + by constructor.
    + intros u. simpl.
      by rewrite elem_of_union, elem_of_singleton, elem_of_cons, ei_visited0.
    + simpl. by rewrite ei_pages0.
    + simpl. lia.
    + done.
    + intros u ?%ei_dynamic0. by right.
    + by rewrite map_size_insert_Some.
    + intros t' Ht'. rewrite lookup_insert_ne; [by apply ei_fresh0|].
      intros <-. rewrite ei_fresh0 in Ht by done. done.
    + intros t' w [[_ <-]|[_ Hold]]%lookup_insert_Some.
      * simpl. rewrite Hst, Hdy. split; [by left|]. by intros ?%ei_dynamic0.
      * specialize (ei_workers0 _ _ Hold).
        destruct w; simpl in *; rewrite ?Hst, ?Hdy; try done.
        destruct ei_workers0. split; [by right|done].
    + intros t1 t2 u [[-> [= <-]]|[? H1]]%lookup_insert_Some
        [[-> ?]|[? H2]]%lookup_insert_Some; try done.
      * by destruct (ei_workers0 _ _ H2) as [?%Hnew _].
      * simplify_eq. by destruct (ei_workers0 _ _ H1) as [?%Hnew _].
      * by eapply ei_unique0.
    + done.
    + intros u [->|?]%elem_of_cons; [|auto]. apply (ei_workers0 _ _ Ht).
    + done.
    + simpl. intros Hr. destruct (ei_returned0 Hr) as [?|[_ Hempty]]; [lia|].
      by rewrite Hempty in Ht.
  - destruct (Elite.tasks s !! t) as [[|url| | |]|] eqn:Ht; try done.
    injection Hex as <-. unfold Elite.resume, Elite.scrape_page_static.
    destruct (EliteHarvester.static_insufficient html).
    + cbn [fst snd]. destruct Hinv.
      destruct (ei_workers0 _ _ Ht) as [Hin Hnd].
      set (s' := Elite.set_task _ _ _).
      assert (static_fetched s' = static_fetched s) as Hst by done.
      assert (dynamic_fetched s' = url :: dynamic_fetched s) as Hdy by done.
      assert (Elite.tasks s' = <[t:=Elite.WDynamic url]> (Elite.tasks s))
        as Hts by done.
      split; rewrite ?Hst, ?Hdy, ?Hts.
      * done.
      * done.
      * done.
      * done.
      * done.
      * done.
      * by constructor.
      * intros u [->|?]%elem_of_cons; auto.
      * by rewrite map_size_insert_Some.
      * intros t' Ht'. rewrite lookup_insert_ne; [by apply ei_fresh0|].
        intros <-. rewrite ei_fresh0 in Ht by done. done.
      * intros t' w [[_ <-]|[Hne Hold]]%lookup_insert_Some.
        { simpl. rewrite Hdy. by left. }
        specialize (ei_workers0 _ _ Hold).
        destruct w as [u|u|u| |]; simpl in *; rewrite ?Hst, ?Hdy; try done.
        -- destruct ei_workers0 as [? Hn]. split; [done|].
           intros [->|?]%elem_of_cons; [|done].
           destruct Hne. by eapply ei_unique0.
        -- by right.
      * intros t1 t2 u [[_ ?]|[_ H1]]%lookup_insert_Some
          [[_ ?]|[_ H2]]%lookup_insert_Some; try done.
        by eapply ei_unique0.
      * done.
      * done.
      * done.
      * simpl. intros Hr.
        destruct (ei_returned0 Hr) as [?|[_ Hempty]]; [by left|].
        by rewrite Hempty in Ht.
    + destruct (scrape_page_html_scraped url html s) as [Hs Hw].
      by eapply elite_inv_resume.
  - destruct (Elite.tasks s !! t) as [[| |url| |]|] eqn:Ht; try done.
    injection Hex as <-. unfold Elite.resume.
    destruct (scrape_page_html_scraped url html s) as [Hs Hw].
    by eapply elite_inv_resume.
  - destruct (Elite.tasks s !! t) as [[| |url| |]|] eqn:Ht; try done.
    injection Hex as <-.
    eapply elite_inv_resume; [done..|apply scraped_refl|by right].
  - destruct (Elite.tasks s !! t) as [[| | | |]|] eqn:Ht; try done.
    injection Hex as <-.
    eapply elite_inv_resume; [done..|apply scraped_refl|by right].
  - destruct (Elite.tasks s !! t) as [[| | | |]|] eqn:Ht; try done.
    injection Hex as <-.
    eapply (elite_inv_scraped _ _ t _ s s); try done;
      [apply scraped_refl|simpl..].
    + apply map_subseteq_size, delete_subseteq.
    + intros t' Ht'. by rewrite lookup_delete_None; right.
    + intros t' w' [_ ?]%lookup_delete_Some. by left.
Qed.

Lemma elite_inv_begin root s0 :
  Elite.crawl_begin root = Some s0 →
  elite_inv cfg (Elite.queue s0) (Elite.base_domain s0) s0 ∧
  Elite.queue s0 =
    Elite.root_url s0 ::
    map (λ sub, "https://" +:+ sub +:+ "." +:+ Elite.base_domain s0)
        (take Elite.MAX_SUBDOMAINS Elite.COMMON_SUBDOMAINS).
Proof.
  unfold Elite.crawl_begin. intros (si & Hi & [= <-])%bind_Some.
  unfold Elite.init in Hi. apply bind_Some in Hi as (domain & _ & Hi).
  cbv zeta in Hi.
  set (base := if startswith "www." (lower domain)
               then drop 4 (lower domain) else lower domain) in Hi.
  assert (lower base = base) as Hlow.
  { unfold base. destruct (startswith "www." (lower domain));
      by rewrite ?lower_drop, lower_idemp. }
  clearbody base. injection Hi as <-. split; [|done].
  set (s0 := Elite.set_loop _ _ _ _).
  assert (static_fetched s0 = []) as Hst by done.
  assert (dynamic_fetched s0 = []) as Hdy by done.
  split; rewrite ?Hst, ?Hdy; simpl.
  - done.
  - done.
  - constructor.
  - intros u. by rewrite elem_of_empty, elem_of_nil.
  - done.
  - lia.
  - constructor.
  - by intros u ?%elem_of_nil.
  - rewrite map_size_empty. lia.
  - done.
  - done.
  - done.
  - intros u ?. by left.
  - by intros u ?%elem_of_nil.
  - done.
  - done.
Qed.

Lemma elite_inv_run seeds base s evs s' :
  Elite.run cfg s evs = Some s' →
  elite_inv cfg seeds base s → elite_inv cfg seeds base s'.
Proof.
  revert s. induction evs as [|ev evs IH]; intros s; simpl.
  { by intros [= <-]. }
  destruct (Elite.exec cfg s ev) as [s1|] eqn:Hex; [|done]. simpl.
  eauto using elite_inv_exec.
Qed.

Lemma elite_reachable_inv root s :
  Elite.reachable cfg root s →
  ∃ s0, Elite.crawl_begin root = Some s0 ∧
        elite_inv cfg (Elite.queue s0) (Elite.base_domain s0) s.
Proof.
  intros (s0 & evs & Hb & Hrun). exists s0. split; [done|].
  eapply elite_inv_run; [done|]. by apply (elite_inv_begin root).
Qed.

(** X22 (appv0.1.py, [scrape_page], [crawl]): in every state a crawl can
    reach, under any schedule, no URL was handed to [fetch_static] twice,
    [self.visited] is exactly the set of URLs handed to it, [self.pages] is
    their number and never exceeds [MAX_PAGES]; no URL was handed to
    [fetch_dynamic] twice, and each URL handed to it was handed to
    [fetch_static] before. *)
Theorem X22_elite_fetches_once root s :
  Elite.reachable cfg root s →
  NoDup (static_fetched s) ∧
  (∀ u, u ∈ Elite.visited s ↔ u ∈ static_fetched s) ∧
  length (static_fetched s) = Elite.pages s ∧
  Elite.pages s ≤ MAX_PAGES cfg ∧
  NoDup (dynamic_fetched s) ∧
  (∀ u, u ∈ dynamic_fetched s → u ∈ static_fetched s).
Proof.
  intros (s0 & _ & Hinv)%elite_reachable_inv. by destruct Hinv.
Qed.

(** X23 (appv0.1.py, [crawl], [scrape_page], [_process_url]): the crawl
    starts from the root URL and the first ten of the common subdomains;
    in every state it can reach, the base domain is the one computed at
    start, every URL that was fetched, is on the frontier or was given to
    a task that has not started is a start URL or has a host equal to the
    base domain or a subdomain of it, and every address in [self.emails] is
    lower case and passes [is_target_domain] for the base domain. *)
Theorem X23_elite_stays_in_scope root s :
  Elite.reachable cfg root s →
  ∃ s0, Elite.crawl_begin root = Some s0 ∧
    Elite.queue s0 =
      Elite.root_url s0 ::
      map (λ sub, "https://" +:+ sub +:+ "." +:+ Elite.base_domain s0)
          ["www"; "mail"; "webmail"; "staff"; "faculty"; "cs"; "it"; "eee";
           "me"; "ce"] ∧
    Elite.base_domain s = Elite.base_domain s0 ∧
    (∀ u, (u ∈ static_fetched s ∨ u ∈ Elite.queue s
           ∨ ∃ t, Elite.tasks s !! t = Some (Elite.WStart u)) →
          u ∈ Elite.queue s0 ∨ url_in_scope (Elite.base_domain s) u) ∧
    (∀ e, e ∈ Elite.emails s →
          lower e = e ∧
          is_target_domain (Elite.base_domain s) e = Some true).
Proof.
  intros (s0 & evs & Hb & Hrun).
  destruct (elite_inv_begin _ _ Hb) as [Hinv0 Hq].
  pose proof (elite_inv_run _ _ _ _ _ Hrun Hinv0) as [].
  exists s0. split_and!; [done|done|done| |].
  - rewrite ei_base0. intros u [?|[?|[t Ht]]].
    + by apply ei_fetched0.
    + by apply ei_queue0.
    + apply (ei_workers0 _ _ Ht).
  - rewrite ei_base0. apply ei_emails0.
Qed.

(** X24 (appv0.1.py, [crawl]): in every state a crawl can reach, the task
    set has at most [CONCURRENT] members; [crawl] has returned only with
    the page ceiling reached or with the frontier and the task set both
    empty; with [CONCURRENT] positive, a [crawl] that has not returned
    always returns or reaches its sleep when it is resumed, whereas with
    [CONCURRENT = 0], no task, a frontier and pages left, its loop goes
    round for ever without suspending. *)
Theorem X24_elite_scheduler root s :
  Elite.reachable cfg root s →
  size (Elite.tasks s) ≤ CONCURRENT cfg ∧
  (Elite.returned s = true →
   Elite.pages s = MAX_PAGES cfg
   ∨ (Elite.queue s = [] ∧ Elite.tasks s = ∅)) ∧
  (0 < CONCURRENT cfg → Elite.returned s = false →
   ∃ s', Elite.exec cfg s Elite.CrawlResumes = Some s') ∧
  (CONCURRENT cfg = 0 → Elite.tasks s = ∅ → Elite.queue s ≠ [] →
   Elite.pages s < MAX_PAGES cfg →
   Elite.crawl_resume cfg s = Elite.Spins).
Proof.
  intros (s0 & _ & Hinv)%elite_reachable_inv. destruct Hinv.
  split_and!; [done|done| |].
  - intros Hc Hr. simpl. rewrite Hr. unfold Elite.crawl_resume.
    destruct (_ && _) eqn:Hcond; [|by eexists].
    destruct (Elite.launch cfg (Elite.queue s) (Elite.tasks s)
                (Elite.created s)) as [[q ts] n] eqn:Hla.
    apply elite_launch_spec in Hla as (_ & _ & _ & _ & Hne); [|done].
    rewrite bool_decide_eq_false_2; [by eexists|]. apply Hne; [|done].
    apply andb_true_iff in Hcond as [Hcond _].
    apply orb_true_iff in Hcond
      as [Hq%negb_true_iff%bool_decide_eq_false
         |Ht%negb_true_iff%bool_decide_eq_false]; auto.
  - intros Hc Ht Hq Hp. unfold Elite.crawl_resume.
    rewrite (bool_decide_eq_false_2 (Elite.queue s = [])) by done.
    apply Nat.ltb_lt in Hp. rewrite Hp. simpl.
    destruct (Elite.queue s) as [|url q]; [done|]. cbn [Elite.launch].
    rewrite Ht, map_size_empty, Hc. simpl. by rewrite bool_decide_eq_true_2.
Qed.

(** One step loses nothing that was collected. *)
Lemma elite_exec_grows s ev s' :
  Elite.exec cfg s ev = Some s' →
  Elite.base_domain s' = Elite.base_domain s ∧
  Elite.emails s ⊆ Elite.emails s' ∧
  Elite.visited s ⊆ Elite.visited s' ∧
  Elite.pages s ≤ Elite.pages s' ∧
  (∃ more, Elite.calls s' = more ++ Elite.calls s).
Proof.
  assert (∀ t w s1, scraped s s1 →
            let s2 := Elite.set_task t w s1 in
            Elite.base_domain s2 = Elite.base_domain s ∧
            Elite.emails s ⊆ Elite.emails s2 ∧
            Elite.visited s ⊆ Elite.visited s2 ∧
            Elite.pages s ≤ Elite.pages s2 ∧
            (∃ more, Elite.calls s2 = more ++ Elite.calls s)) as Hscraped.
  { intros t w s1 []. simpl. rewrite scraped_visited0, scraped_pages0.
    split_and!; [done..|]. exists []. by rewrite scraped_calls0. }
  intros Hex. destruct ev as [|t|t html|t [html|]|t|t]; simpl in Hex.
  - destruct (Elite.returned s); [done|]. unfold Elite.crawl_resume in Hex.
    destruct (_ && _).
    + destruct (Elite.launch _ _ _ _) as [[q ts] n].
      case_bool_decide; [done|]. injection Hex as <-. simpl.
      split_and!; [done..|]. by exists [].
    + injection Hex as <-. simpl. split_and!; [done..|]. by exists [].
  - destruct (Elite.tasks s !! t) as [[url| | | |]|]; try done.
    injection Hex as <-. unfold Elite.resume, Elite.scrape_page_begin.
    destruct (_ || _); cbn [fst snd]; [apply Hscraped, scraped_refl|].
    simpl. split_and!; [done|done|apply union_subseteq_r|lia|].
    by exists [Elite.StaticFetch url].
  - destruct (Elite.tasks s !! t) as [[|url| | |]|]; try done.
    injection Hex as <-. unfold Elite.resume, Elite.scrape_page_static.
    destruct (EliteHarvester.static_insufficient html).
    + simpl. split_and!; [done..|]. by exists [Elite.DynamicFetch url].
    + apply Hscraped, scrape_page_html_scraped.
  - destruct (Elite.tasks s !! t) as [[| |url| |]|]; try done.
    injection Hex as <-. apply Hscraped, scrape_page_html_scraped.
  - destruct (Elite.tasks s !! t) as [[| |url| |]|]; try done.
    injection Hex as <-. apply Hscraped, scraped_refl.
  - destruct (Elite.tasks s !! t) as [[| | | |]|]; try done.
    injection Hex as <-. apply Hscraped, scraped_refl.
  - destruct (Elite.tasks s !! t) as [[| | | |]|]; try done.
    injection Hex as <-. simpl. split_and!; [done..|]. by exists [].
Qed.

(** X25 (appv0.1.py, [scrape_page]): nothing collected is lost as a crawl
    goes on.  From any state, after any further events that the crawl can
    take, the base domain is the same, [self.emails] and [self.visited]
    contain what they contained, [self.pages] has not decreased, and the
    fetches made before are still the oldest part of the fetch history. *)
Theorem X25_elite_results_only_grow s evs s' :
  Elite.run cfg s evs = Some s' →
  Elite.base_domain s' = Elite.base_domain s ∧
  Elite.emails s ⊆ Elite.emails s' ∧
  Elite.visited s ⊆ Elite.visited s' ∧
  Elite.pages s ≤ Elite.pages s' ∧
  (∃ more, Elite.calls s' = more ++ Elite.calls s).
Proof.
  revert s. induction evs as [|ev evs IH]; intros s; simpl.
  { intros [= <-]. split_and!; [done..|]. by exists []. }
  destruct (Elite.exec cfg s ev) as [s1|] eqn:Hex; [|done]. simpl.
  intros (Hb & He & Hv & Hp & more2 & Hc)%IH.
  apply elite_exec_grows in Hex as (Hb1 & He1 & Hv1 & Hp1 & more1 & Hc1).
  split_and!; [congruence|by etrans|by etrans|lia|].
  exists (more2 ++ more1). by rewrite Hc, Hc1, (assoc_L (++)).
Qed.

End elite.

Lemma elite_run_reachable `{!UrlLib} cfg root evs s :
  elite_run cfg root evs = Some s → Elite.reachable cfg root s.
Proof. intros (s0 & Hb & Hrun)%bind_Some. by exists s0, evs. Qed.

(** ** The ceiling is reached *)

Section ceiling.

Context `{!UrlLib}.
Variable cfg : Config.

(** The inner loop of [crawl] hands every URL it takes from the frontier
    to a new task, and leaves the other tasks alone. *)
Lemma launch_keeps q ts n q' ts' n' :
  launch cfg q ts n = (q', ts', n') →
  (∀ t, n ≤ t → ts !! t = None) →
  (∀ t w, ts !! t = Some w → ts' !! t = Some w) ∧
  (∀ u, u ∈ q → u ∈ q' ∨ ∃ t, ts' !! t = Some (WStart u)).
Proof.
  revert ts n. induction q as [|url q IH]; intros ts n; cbn [launch].
  { intros [= <- <- <-] _. split; [done|]. by intros u ?%elem_of_nil. }
  destruct (size ts <? CONCURRENT cfg).
  - intros Hla Hfresh. apply IH in Hla as [Hts Hq].
    2:{ intros t Ht. rewrite lookup_insert_ne by lia. apply Hfresh. lia. }
    split.
    + intros t w Ht. apply Hts. rewrite lookup_insert_ne; [done|].
      intros <-. rewrite Hfresh in Ht by lia. done.
    + intros u [->|Hu]%elem_of_cons; [|by apply Hq].
      right. exists n. apply Hts. by rewrite lookup_insert_eq.
  - intros [= <- <- <-] _. split; [done|]. by left.
Qed.

(** A task that is past its start goes on: the start URLs stay served. *)
Lemma seeds_served_later ok seeds t w w' s s1 :
  later ok s s1 → tasks s !! t = Some w → (∀ u, w ≠ WStart u) →
  seeds_served cfg seeds s →
  seeds_served cfg seeds (set_task t w' s1)
  ∧ seeds_served cfg seeds (discard_task t s1).
Proof.
  intros Hl Ht Hw Hs.
  destruct Hl as [_ _ Hvis Hpages Htasks _ _ _ _ Hqueue _].
  assert (∀ u, u ∈ seeds →
            u ∈ queue s1
            ∨ (∃ t', t' ≠ t ∧ tasks s1 !! t' = Some (WStart u))
            ∨ u ∈ visited s1 ∨ MAX_PAGES cfg ≤ pages s1) as Hs1.
  { intros u [Hq|[[t' Ht']|[Hv|Hp]]]%Hs.
    - left. destruct Hqueue as [more ->]. apply elem_of_app. by left.
    - right; left. exists t'. rewrite Htasks. split; [|done].
      intros ->. rewrite Ht in Ht'. injection Ht' as ->. by eapply Hw.
    - right; right; left. by rewrite Hvis.
    - right; right; right. by rewrite Hpages. }
  split; intros u [?|[(t' & Hne & Ht')|[?|?]]]%Hs1; simpl; auto.
  - right; left. exists t'. by rewrite lookup_insert_ne.
  - right; left. exists t'. by rewrite lookup_delete_ne.
Qed.

Lemma seeds_served_exec seeds s ev s' :
  exec cfg s ev = Some s' → crawl_inv cfg s →
  seeds_served cfg seeds s → seeds_served cfg seeds s'.
Proof.
  intros Hex Hinv Hs.
  destruct ev as [|t|t [html|]|t doc_path out|t|t]; simpl in Hex.
  - destruct (returned s); [done|]. injection Hex as <-.
    unfold crawl_resume. destruct (_ && _); [|exact Hs].
    destruct (launch cfg (queue s) (tasks s) (created s))
      as [[q ts] n] eqn:Hla.
    apply launch_keeps in Hla as [Hts Hq]; [|apply Hinv].
    intros u [Hu|[[t Ht]|[?|?]]]%Hs; simpl; auto.
    + apply Hq in Hu as [?|?]; auto.
    + right; left. exists t. by apply Hts.
  - destruct (tasks s !! t) as [[url| | | |]|] eqn:Ht; try done.
    injection Hex as <-. rewrite resume_eq. unfold scrape_page_begin.
    destruct (bool_decide (url ∈ visited s) || (MAX_PAGES cfg <=? pages s))
      eqn:Hguard; cbn [fst snd default].
    + intros u [?|[[t' Ht']|[?|?]]]%Hs; simpl; auto.
      destruct (decide (t' = t)) as [->|Hne].
      * rewrite Ht in Ht'. injection Ht' as ->.
        apply orb_true_iff in Hguard as [?%bool_decide_eq_true|?%Nat.leb_le];
          auto.
      * right; left. exists t'. by rewrite lookup_insert_ne.
    + intros u [?|[[t' Ht']|[?|?]]]%Hs; simpl; auto.
      * destruct (decide (t' = t)) as [->|Hne].
        -- rewrite Ht in Ht'. injection Ht' as ->. right; right; left.
           apply elem_of_union. left. by apply elem_of_singleton.
        -- right; left. exists t'. by rewrite lookup_insert_ne.
      * right; right; left. apply elem_of_union. by right.
  - destruct (tasks s !! t) as [[|url| | |]|] eqn:Ht; try done.
    injection Hex as <-. rewrite resume_eq.
    destruct (scrape_page_fetched_later cfg url html s) as [Hl _].
    eapply proj1, seeds_served_later; [exact Hl|exact Ht|done|exact Hs].
  - destruct (tasks s !! t) as [[|url| | |]|] eqn:Ht; try done.
    injection Hex as <-.
    eapply proj1, (seeds_served_later page_call);
      [apply later_refl|exact Ht|done|exact Hs].
  - destruct (tasks s !! t) as [[| |url html full_url rest| |]|] eqn:Ht;
      try done.
    injection Hex as <-. rewrite resume_eq.
    destruct (scrape_page_downloaded_later cfg url html full_url rest
                doc_path out s) as [Hl _].
    eapply proj1, seeds_served_later; [exact Hl|exact Ht|done|exact Hs].
  - destruct (tasks s !! t) as [[| | | |]|] eqn:Ht; try done.
    injection Hex as <-.
    eapply proj1, (seeds_served_later page_call);
      [apply later_refl|exact Ht|done|exact Hs].
  - destruct (tasks s !! t) as [[| | | |]|] eqn:Ht; try done.
    injection Hex as <-.
    eapply proj2, (seeds_served_later page_call _ _ _ WDone);
      [apply later_refl|exact Ht|done|exact Hs].
Qed.

Lemma seeds_served_run seeds s evs s' :
  run cfg s evs = Some s' → crawl_inv cfg s →
  seeds_served cfg seeds s → seeds_served cfg seeds s'.
Proof.
  revert s. induction evs as [|ev evs IH]; intros s; simpl.
  { by intros [= <-]. }
  destruct (exec cfg s ev) as [s1|] eqn:Hex; [|done]. simpl.
  intros Hrun Hinv Hs. eapply IH; [done| |].
  - by eapply crawl_inv_exec.
  - by eapply seeds_served_exec.
Qed.

(** When [crawl] has returned, the ceiling was reached or every start URL
    was fetched. *)
Lemma returned_served root subdomains s0 s :
  crawl_begin root subdomains = Some s0 →
  reachable cfg root subdomains s → returned s = true →
  length (fetched s) = MAX_PAGES cfg
  ∨ (∀ u, u ∈ queue s0 → u ∈ fetched s).
Proof.
  intros Hb Hreach Hr.
  pose proof (reachable_inv _ _ _ _ Hreach) as Hinv.
  destruct (reachable_harvest _ _ _ _ Hreach) as (s0' & Hb' & Hhv).
  assert (s0' = s0) as -> by congruence.
  destruct Hreach as (s0' & evs & Hb'' & Hrun).
  assert (s0' = s0) as -> by congruence.
  assert (seeds_served cfg (queue s0) s) as Hs.
  { eapply seeds_served_run; [done|by eapply crawl_inv_begin|].
    intros u ?. by left. }
  destruct Hinv as (_ & _ & Hlen & Hmax & _ & Hret & _).
  destruct (Hret Hr) as [Hp|[Hq Hts]]; [left; lia|].
  destruct (decide (pages s = MAX_PAGES cfg)) as [?|Hlt]; [left; lia|].
  right. intros u [Hu|[[t Ht]|[Hv|Hp]]]%Hs.
  - rewrite Hq in Hu. by apply elem_of_nil in Hu.
  - by rewrite Hts in Ht.
  - by apply Hhv.
  - lia.
Qed.

(** The start URLs of a crawl: the sensitive paths, joined to the root,
    are among them. *)
Lemma start_urls_size root subdomains s0 :
  crawl_begin root subdomains = Some s0 →
  NoDup (map (urljoin (root_url s0)) sensitive_paths) →
  7 ≤ size (list_to_set (queue s0) : gset string).
Proof.
  unfold crawl_begin. intros (si & Hi & Hb)%bind_Some.
  apply bind_Some in Hb as (paths & Hpaths & [= <-]).
  cbn [root_url queue set_loop]. intros Hnd.
  apply mapM_Some in Hpaths.
  assert (Some <$> paths = map (urljoin (root_url si)) sensitive_paths)
    as Heq.
  { clear Hnd. induction Hpaths as [|x y l k Hxy _ IH]; [done|].
    rewrite fmap_cons, IH. cbn [map]. by rewrite Hxy. }
  rewrite <- Heq in Hnd. apply NoDup_fmap_1 in Hnd.
  apply Forall2_length in Hpaths. change (length sensitive_paths) with 7 in Hpaths.
  rewrite Hpaths, <- (size_list_to_set (C := gset string) paths) by done.
  apply subseteq_size. intros u Hu%elem_of_list_to_set.
  apply elem_of_list_to_set. right. apply elem_of_app. by right.
Qed.

(** C8: in every state a crawl can reach, the page counter is at most
    [MAX_PAGES] and equals the number of fetches handed out; once it has
    reached [MAX_PAGES] no step starts a fetch.  When [crawl] has returned,
    under any schedule and whatever the pages link to, exactly [MAX_PAGES]
    fetches were handed out or else every start URL was fetched; so with
    at least [MAX_PAGES] distinct start URLs exactly [MAX_PAGES] fetches
    were handed out, and the start URLs number at least seven as soon as
    [urljoin] sends the seven sensitive paths to distinct URLs: with a
    ceiling of five, exactly five.  The loop terminates: no run has
    infinitely many steps that change the state (the only step that does
    not is [crawl] waking up with nothing to launch), as long as [crawl]
    has not returned some step does change it, and a run to the return of
    [crawl] exists. *)
Theorem C8_page_ceiling root subdomains s :
  reachable cfg root subdomains s →
  pages s ≤ MAX_PAGES cfg ∧
  length (fetched s) = pages s ∧
  (∀ ev s', exec cfg s ev = Some s' → pages s = MAX_PAGES cfg →
            fetched s' = fetched s ∧ pages s' = pages s) ∧
  (returned s = true → queue s ≠ [] ∨ tasks s ≠ ∅ →
   length (fetched s) = MAX_PAGES cfg) ∧
  (returned s = true →
   ∀ s0, crawl_begin root subdomains = Some s0 →
     (length (fetched s) = MAX_PAGES cfg
      ∨ ∀ u, u ∈ queue s0 → u ∈ fetched s) ∧
     (MAX_PAGES cfg ≤ size (list_to_set (queue s0) : gset string) →
      length (fetched s) = MAX_PAGES cfg) ∧
     (NoDup (map (urljoin (root_url s0)) sensitive_paths) →
      MAX_PAGES cfg ≤ 7 → length (fetched s) = MAX_PAGES cfg)) ∧
  Acc (λ s2 s1, moves cfg s1 s2) s ∧
  (0 < CONCURRENT cfg → returned s = false → ∃ s', moves cfg s s') ∧
  (0 < CONCURRENT cfg →
   ∃ evs s', run cfg s evs = Some s' ∧ returned s' = true).
Proof.
  intros Hreach. pose proof (reachable_inv _ _ _ _ Hreach) as Hinv.
  pose proof Hinv as (Hnd & _ & Hlen & Hmax & _ & Hret & _).
  assert (∀ s0, crawl_begin root subdomains = Some s0 → returned s = true →
            MAX_PAGES cfg ≤ size (list_to_set (queue s0) : gset string) →
            length (fetched s) = MAX_PAGES cfg) as Hcount.
  { intros s0 Hb Hr Hsize.
    destruct (returned_served _ _ _ _ Hb Hreach Hr) as [?|Hall]; [done|].
    assert (size (list_to_set (queue s0) : gset string)
            ≤ length (fetched s)); [|lia].
    rewrite <- (size_list_to_set (C := gset string) (fetched s)) by done.
    apply subseteq_size. intros u Hu%elem_of_list_to_set.
    by apply elem_of_list_to_set, Hall. }
  split_and!.
  - exact Hmax.
  - exact Hlen.
  - intros ev s' Hex Hp. eapply exec_at_ceiling; [exact Hex|lia].
  - intros Hr Hne. rewrite Hlen.
    destruct (Hret Hr) as [Hp|[Hq Ht]]; [exact Hp|].
    destruct Hne as [Hne|Hne]; contradiction.
  - intros Hr s0 Hb. split_and!.
    + by eapply returned_served.
    + by apply Hcount.
    + intros Hpaths Hseven. apply (Hcount s0 Hb Hr).
      pose proof (start_urls_size _ _ _ Hb Hpaths). lia.
  - apply moves_acc, Hinv.
  - apply moves_progress.
  - intros Hconc. apply crawl_returns; [exact Hconc|exact Hinv].
Qed.

End ceiling.

(** ** The routing of links *)














Section routing.

Context `{!UrlLib}.
Variable cfg : Config.




End routing.

(** ** These properties at concrete inputs *)

Lemma X4_witness :
  contains smith_email staff_page = true ∧ address_shape smith_email.
Proof.
  destruct (X4_addresses_found_have_shape staff_page smith_email)
    as (Hsub & Hshape & _).
  - apply (bool_decide_unpack _). by_compute.
  - split; [exact Hsub|exact Hshape].
Defined.

Lemma X7_witness :
  ∃ s,
    crawl_run source_config univ_root univ_subdomains
      (staff_events ++ [staff_download]) = Some s ∧
    ∃ s0, crawl_begin univ_root univ_subdomains = Some s0 ∧
      base_domain s = base_domain s0 ∧
      ∀ u, (u ∈ fetched s ∨ u ∈ queue s
            ∨ ∃ t, tasks s !! t = Some (WStart u)) →
           u ∈ queue s0 ∨ url_in_scope (base_domain s) u.
Proof.
  run_to s E.
  apply (X7_crawl_stays_in_scope source_config univ_root univ_subdomains).
  exact (crawl_run_reachable _ _ _ _ _ E).
Defined.

Lemma X8_witness :
  ∃ s,
    crawl_run source_config univ_root univ_subdomains
      (staff_events ++ [staff_download]) = Some s ∧
    NoDup (downloaded s) ∧
    (∀ u, u ∈ documents s ↔ u ∈ downloaded s) ∧
    size (documents s) = length (downloaded s).
Proof.
  run_to s E.
  apply (X8_documents_downloaded_once source_config univ_root univ_subdomains).
  exact (crawl_run_reachable _ _ _ _ _ E).
Defined.

Lemma X9_witness :
  ∃ s,
    crawl_run five_pages univ_root univ_subdomains ceiling_events = Some s ∧
    size (tasks s) ≤ 25.
Proof.
  run_to s E.
  apply (X9_tasks_within_concurrency five_pages univ_root univ_subdomains).
  exact (crawl_run_reachable _ _ _ _ _ E).
Defined.

Lemma X10_witness :
  ∃ s,
    crawl_run five_pages univ_root univ_subdomains ceiling_events = Some s ∧
    (∀ u, u ∈ visited s ↔ u ∈ fetched s) ∧ size (visited s) = pages s.
Proof.
  run_to s E.
  apply (X10_visited_are_the_fetched five_pages univ_root univ_subdomains).
  exact (crawl_run_reachable _ _ _ _ _ E).
Defined.

Lemma X11_witness :
  ∃ s,
    crawl_run source_config univ_root univ_subdomains
      (staff_events ++ [staff_download]) = Some s ∧
    ∃ r, profiles s !! roe_email = Some r ∧
      is_target_domain (base_domain s) roe_email = Some true ∧
      (0.3 <=? p_confidence r)%float = true ∧
      (p_confidence r <=? 0.95)%float = true ∧
      (p_source_url r ∈ fetched s
       ∨ (p_source_url r ∈ downloaded s
          ∧ r = doc_record roe_email (p_source_url r))).
Proof.
  run_to s E.
  observe E (λ s, bool_decide (is_Some (profiles s !! roe_email))) true Hsome.
  apply bool_decide_eq_true in Hsome as [r Hr].
  exists r. split; [exact Hr|].
  exact (X11_records_in_scope_with_source source_config univ_root
           univ_subdomains s roe_email r
           (crawl_run_reachable _ _ _ _ _ E) Hr).
Defined.

Lemma X12_witness :
  ∃ s,
    crawl_run source_config univ_root univ_subdomains
      (staff_events ++ [staff_download]) = Some s ∧
    high s + medium s + low s = size (profiles s).
Proof.
  run_to s E.
  apply (X12_finalize_breakdown source_config univ_root univ_subdomains).
  exact (crawl_run_reachable _ _ _ _ _ E).
Defined.

Lemma X13_witness :
  ∃ s,
    crawl_run source_config univ_root univ_subdomains
      (staff_events ++ [staff_download]) = Some s ∧
    NoDup ((dossiers s).*1) ∧
    (∀ key r, (key, r) ∈ dossiers s ↔ profiles s !! key = Some r) ∧
    length (dossiers s) = size (profiles s).
Proof.
  run_to s E.
  apply (X13_one_dossier_per_record source_config univ_root univ_subdomains).
  exact (crawl_run_reachable _ _ _ _ _ E).
Defined.

Lemma X16_witness :
  ∃ s, init univ_root = Some s ∧
       lower (base_domain s) = base_domain s ∧
       url_in_scope (base_domain s) univ_root.
Proof.
  run_to s E.
  destruct (X16_init_normalizes univ_root s E) as (Hlow & Hscope & _).
  split; [exact Hlow|exact Hscope].
Defined.

Lemma X22_witness :
  ∃ s,
    elite_run Elite.source_config univ_root office_events = Some s ∧
    NoDup (static_fetched s) ∧
    (∀ u, u ∈ Elite.visited s ↔ u ∈ static_fetched s) ∧
    length (static_fetched s) = Elite.pages s ∧
    Elite.pages s ≤ 500 ∧
    NoDup (dynamic_fetched s) ∧
    (∀ u, u ∈ dynamic_fetched s → u ∈ static_fetched s).
Proof.
  run_to s E.
  apply (X22_elite_fetches_once Elite.source_config univ_root).
  exact (elite_run_reachable _ _ _ _ E).
Defined.

Lemma X23_witness :
  ∃ s,
    elite_run Elite.source_config univ_root office_events = Some s ∧
    ∃ s0, Elite.crawl_begin univ_root = Some s0 ∧
      Elite.queue s0 =
        Elite.root_url s0 ::
        map (λ sub, "https://" +:+ sub +:+ "." +:+ Elite.base_domain s0)
            ["www"; "mail"; "webmail"; "staff"; "faculty"; "cs"; "it"; "eee";
             "me"; "ce"] ∧
      Elite.base_domain s = Elite.base_domain s0 ∧
      (∀ u, (u ∈ static_fetched s ∨ u ∈ Elite.queue s
             ∨ ∃ t, Elite.tasks s !! t = Some (Elite.WStart u)) →
            u ∈ Elite.queue s0 ∨ url_in_scope (Elite.base_domain s) u) ∧
      (∀ e, e ∈ Elite.emails s →
            lower e = e ∧
            is_target_domain (Elite.base_domain s) e = Some true).
Proof.
  run_to s E.
  apply (X23_elite_stays_in_scope Elite.source_config univ_root).
  exact (elite_run_reachable _ _ _ _ E).
Defined.

Lemma X24_witness :
  ∃ s,
    elite_run Elite.source_config univ_root office_events = Some s ∧
    size (Elite.tasks s) ≤ 15 ∧
    ∃ s', Elite.exec Elite.source_config s Elite.CrawlResumes = Some s'.
Proof.
  run_to s E.
  destruct (X24_elite_scheduler Elite.source_config univ_root s
              (elite_run_reachable _ _ _ _ E)) as (Hsize & _ & Hgo & _).
  split; [exact Hsize|]. apply Hgo; [simpl; lia|].
  observe E Elite.returned false Hr. exact Hr.
Defined.

Lemma X25_witness :
  ∃ s,
    elite_run Elite.source_config univ_root office_events = Some s ∧
    ∃ s0, Elite.crawl_begin univ_root = Some s0 ∧
      Elite.base_domain s = Elite.base_domain s0 ∧
      Elite.emails s0 ⊆ Elite.emails s ∧
      Elite.visited s0 ⊆ Elite.visited s ∧
      Elite.pages s0 ≤ Elite.pages s ∧
      ∃ more, Elite.calls s = more ++ Elite.calls s0.
Proof.
  run_to s E. pose proof E as (s0 & Hb & Hrun)%bind_Some.
  exists s0. split; [exact Hb|].
  exact (X25_elite_results_only_grow Elite.source_config s0 office_events s
           Hrun).
Defined.

Lemma C8_witness :
  ∃ s,
    crawl_run five_pages univ_root univ_subdomains (ceiling_events ++ [CrawlResumes])
    = Some s ∧
    returned s = true ∧ pages s ≤ 5 ∧ length (fetched s) = 5.
Proof.
  run_to s E.
  observe E returned true Hr.
  pose proof E as (s0 & Hb & _)%bind_Some.
  destruct (C8_page_ceiling five_pages univ_root univ_subdomains s
              (crawl_run_reachable _ _ _ _ _ E))
    as (Hmax & _ & _ & _ & Hexact & _).
  split_and!; [exact Hr|exact Hmax|].
  destruct (Hexact Hr s0 Hb) as (_ & _ & Hfive).
  apply Hfive; [|simpl; lia].
  assert (root_url <$> crawl_begin univ_root univ_subdomains
          = Some univ_root) as Hroot by by_compute.
  rewrite Hb in Hroot. injection Hroot as ->.
  apply (bool_decide_unpack _). by_compute.
Defined.

